(** * ratelimiter: a fixed-window quota gate over a shared Redis store

    A shallow embedding of [limiter.go] (package [ratelimiter]) and a
    verification of the behaviour its specification describes.

    The package keeps no state of its own: every counter lives in Redis,
    and every operation reads the wall clock.  Both are modelled as parts
    of an explicit [World] that each operation threads through a small
    state monad: the store is a finite map from keys to strings, the clock
    and the network are oracles consumed one reading, respectively one
    round trip, at a time, and every batch sent is recorded.

    The first part holds the definitions: Go's integers and [strconv.Atoi],
    the part of package [time] the code uses, the Redis commands it sends,
    and the three entry points [CheckAndIncrement], [GetCurrentUsage] and
    [Reset].  The second part proves their properties. *)

From Stdlib Require Import ZArith Lia String Ascii List Bool.
From stdpp Require Import base option gmap strings pretty.

Local Open Scope string_scope.
Local Open Scope Z_scope.

(** ** Go's [int] (64 bits) and [int32] *)

Module GoInt.

Definition min_int : Z := - 2 ^ 63.
Definition max_int : Z := 2 ^ 63 - 1.

Definition in_int (z : Z) : Prop := min_int <= z <= max_int.
Definition in_int32 (z : Z) : Prop := - 2 ^ 31 <= z <= 2 ^ 31 - 1.

Definition in_intb (z : Z) : bool := (min_int <=? z) && (z <=? max_int).

(** Two's complement wrap-around of a mathematical integer into [int]. *)
Definition wrap (z : Z) : Z := (z + 2 ^ 63) mod 2 ^ 64 - 2 ^ 63.

(** [a + b] on [int]. *)
Definition add (a b : Z) : Z := wrap (a + b).

End GoInt.

(** ** [strconv.Atoi] and [parseIntOrZero] *)

(** [ch -= '0'; if ch > 9 { syntax error }] on a byte. *)
Definition digit_of (c : ascii) : option Z :=
  let n := Z.of_N (N_of_ascii c) in
  if (48 <=? n) && (n <=? 57) then Some (n - 48) else None.

(** The digit loop of [strconv.Atoi]: [n = n*10 + int(ch)]. *)
Fixpoint atoi_digits (s : string) (n : Z) : option Z :=
  match s with
  | EmptyString => Some n
  | String c s' =>
      match digit_of c with
      | Some d => atoi_digits s' (n * 10 + d)
      | None => None
      end
  end.

(** [strconv.Atoi]: an optional sign, then one or more decimal digits; the
    value must fit [int].  [None] stands for a non-nil [err] (syntax or
    range), in which case [parseIntOrZero] ignores the returned number. *)
Definition Atoi (s : string) : option Z :=
  match s with
  | EmptyString => None
  | String c rest =>
      let signed := Ascii.eqb c "-" || Ascii.eqb c "+" in
      let body := if signed then rest else s in
      match body with
      | EmptyString => None
      | _ =>
          match atoi_digits body 0 with
          | Some n =>
              let v := if Ascii.eqb c "-" then - n else n in
              if GoInt.in_intb v then Some v else None
          | None => None
          end
      end
  end.

Definition parseIntOrZero (s : string) : Z :=
  if String.eqb s "" then 0
  else match Atoi s with
       | Some val => val
       | None => 0
       end.

(** [%d] of [fmt.Sprintf], and the decimal rendering Redis stores after
    [INCR]/[INCRBY]: the canonical decimal form of the integer. *)
Definition itoa (z : Z) : string := pretty z.

(** [string2ll] of the Redis server, which [INCR]/[INCRBY] use to read the
    stored value: it accepts exactly the canonical decimal forms of 64-bit
    integers (no [+], no leading zeros, no [-0]). *)
Definition string2ll (s : string) : option Z :=
  match Atoi s with
  | Some z => if String.eqb (itoa z) s then Some z else None
  | None => None
  end.

(** ** Package [time] *)

Definition Nanosecond : Z := 1.
Definition Second : Z := 1000000000 * Nanosecond.
Definition Minute : Z := 60 * Second.
Definition Hour : Z := 60 * Minute.

(** A [time.Time] as [time.Now] returns it: an instant ([wall], in
    nanoseconds since the Unix epoch) and the offset, in seconds east of
    UTC, that the process's local zone has at that instant. *)
Record Time := mkTime { wall : Z; zoneOffset : Z }.

(** Seconds from January 1, year 1 00:00:00 UTC (the zero [Time]) to the
    Unix epoch. *)
Definition unixToInternal : Z := 62135596800.

(** [t.Truncate(d)]: rounds [t] down to a multiple of [d] since the zero
    time.  It works on the absolute instant, not on the local presentation
    of [t]. *)
Definition Truncate (t : Time) (d : Z) : Time :=
  if d <=? 0 then t
  else mkTime (wall t - (wall t + unixToInternal * Second) mod d) (zoneOffset t).

Definition Add (t : Time) (d : Z) : Time := mkTime (wall t + d) (zoneOffset t).

(** [t.Sub(u)]: a [Duration] (an [int64] of nanoseconds), saturating. *)
Definition Sub (t u : Time) : Z :=
  let d := wall t - wall u in
  if d <? GoInt.min_int then GoInt.min_int
  else if GoInt.max_int <? d then GoInt.max_int
  else d.

(** Days since 1970-01-01 to the proleptic Gregorian (year, month, day). *)
Definition civil_from_days (days : Z) : Z * Z * Z :=
  let z := days + 719468 in
  let era := z / 146097 in
  let doe := z mod 146097 in
  let yoe := (doe - doe / 1460 + doe / 36524 - doe / 146096) / 365 in
  let doy := doe - (365 * yoe + yoe / 4 - yoe / 100) in
  let mp := (5 * doy + 2) / 153 in
  let d := doy - (153 * mp + 2) / 5 + 1 in
  let m := if mp <? 10 then mp + 3 else mp - 9 in
  let y := yoe + era * 400 in
  (if m <=? 2 then y + 1 else y, m, d).

(** Seconds since the Unix epoch on the local wall clock of [t]. *)
Definition localSeconds (t : Time) : Z := wall t / Second + zoneOffset t.

(** [t.Date()] and the hour and minute of [t.Clock()], in [t]'s location. *)
Definition Date (t : Time) : Z * Z * Z := civil_from_days (localSeconds t / 86400).
Definition HourOf (t : Time) : Z := (localSeconds t mod 86400) / 3600.
Definition MinuteOf (t : Time) : Z := (localSeconds t mod 3600) / 60.

Definition digit_char (d : Z) : ascii := ascii_of_N (Z.to_N (48 + d)).

Definition zeros (n : nat) : string := string_of_list_ascii (repeat "0"%char n).

(** [appendInt(b, x, width)] of package [time]: the decimal form of [x],
    zero-padded to [width] digits, after a [-] when [x] is negative. *)
Definition appendInt (x : Z) (width : nat) : string :=
  let u := Z.abs x in
  let sign := if x <? 0 then "-" else "" in
  let body :=
    if (Nat.eqb width 2) && (u <? 100) then
      String (digit_char (u / 10)) (String (digit_char (u mod 10)) "")
    else if (Nat.eqb width 4) && (u <? 10000) then
      String (digit_char (u / 100 / 10)) (String (digit_char (u / 100 mod 10))
        (String (digit_char (u mod 100 / 10)) (String (digit_char (u mod 100 mod 10)) "")))
    else
      let s := itoa u in zeros (width - String.length s) +:+ s in
  sign +:+ body.

(** The layout chunks the two layouts of this package use. *)
Inductive Chunk :=
| stdLongYear          (* 2006 *)
| stdZeroMonth         (* 01 *)
| stdZeroDay           (* 02 *)
| stdHour              (* 15 *)
| stdZeroMinute        (* 04 *)
| lit (s : string).

Definition formatChunk (t : Time) (c : Chunk) : string :=
  match c with
  | stdLongYear => appendInt (Date t).1.1 4
  | stdZeroMonth => appendInt (Date t).1.2 2
  | stdZeroDay => appendInt (Date t).2 2
  | stdHour => appendInt (HourOf t) 2
  | stdZeroMinute => appendInt (MinuteOf t) 2
  | lit s => s
  end.

(** [t.Format(layout)], on a layout already cut into its chunks. *)
Definition Format (t : Time) (layout : list Chunk) : string :=
  fold_right (fun c acc => formatChunk t c +:+ acc) "" layout.

(** The layout ["2006-01-02:15:04"]. *)
Definition layoutMinute : list Chunk :=
  [stdLongYear; lit "-"; stdZeroMonth; lit "-"; stdZeroDay; lit ":";
   stdHour; lit ":"; stdZeroMinute].

(** The layout ["2006-01-02"]. *)
Definition layoutDay : list Chunk :=
  [stdLongYear; lit "-"; stdZeroMonth; lit "-"; stdZeroDay].

(** ** The Redis store, as this package uses it *)

(** A stored string and the time-to-live last set on it by [EXPIRE]
    ([None]: the key is persistent).  Eviction when the time-to-live lapses
    is an action of the server; the package never relies on it. *)
Record Entry := mkEntry { value : string; ttl : option Z }.

Inductive Cmd :=
| GET (key : string)
| INCR (key : string)
| INCRBY (key : string) (delta : Z)
| EXPIRE (key : string) (expiration : Z)
| DEL (keys : list string).

Inductive Reply :=
| RBulk (s : string)
| RNil
| RInt (n : Z)
| RErr (msg : string).

Inductive error :=
| redis_Nil                               (* [redis.Nil]: the key is absent *)
| NetError (cause : string)               (* the round trip did not complete *)
| ReplyError (msg : string)               (* an error reply of the server *)
| Errorf (msg : string) (cause : error).  (* [fmt.Errorf("msg: %w", cause)] *)

Definition incrby (key : string) (delta : Z) (db : gmap string Entry)
  : Reply * gmap string Entry :=
  let old := db !! key in
  match string2ll (from_option value "0" old) with
  | None => (RErr "ERR value is not an integer or out of range", db)
  | Some cur =>
      if GoInt.in_intb (cur + delta)
      then (RInt (cur + delta),
            <[key := mkEntry (itoa (cur + delta)) (old ≫= ttl)]> db)
      else (RErr "ERR increment or decrement would overflow", db)
  end.

Definition del (keys : list string) (db : gmap string Entry)
  : Reply * gmap string Entry :=
  (RInt (Z.of_nat (length (filter (λ k, is_Some (db !! k)) keys))),
   foldr delete db keys).

(** One command on the server. *)
Definition exec_cmd (c : Cmd) (db : gmap string Entry)
  : Reply * gmap string Entry :=
  match c with
  | GET key =>
      match db !! key with
      | Some e => (RBulk (value e), db)
      | None => (RNil, db)
      end
  | INCR key => incrby key 1 db
  | INCRBY key delta => incrby key delta db
  | EXPIRE key expiration =>
      match db !! key with
      | Some e =>
          if 0 <? expiration
          then (RInt 1, <[key := mkEntry (value e) (Some expiration)]> db)
          else (RInt 1, delete key db)
      | None => (RInt 0, db)
      end
  | DEL keys => del keys db
  end.

(** A pipeline on the server: the commands in order, each on the state its
    predecessor left; nothing is rolled back when one of them fails. *)
Fixpoint exec_cmds (cs : list Cmd) (db : gmap string Entry)
  : list Reply * gmap string Entry :=
  match cs with
  | [] => ([], db)
  | c :: cs' =>
      let '(r, db1) := exec_cmd c db in
      let '(rs, db2) := exec_cmds cs' db1 in
      (r :: rs, db2)
  end.

Definition reply_error (r : Reply) : option error :=
  match r with
  | RNil => Some redis_Nil
  | RErr msg => Some (ReplyError msg)
  | _ => None
  end.

(** The error [pipe.Exec] returns: that of the first command that has one. *)
Fixpoint cmdsFirstErr (rs : list Reply) : option error :=
  match rs with
  | [] => None
  | r :: rs' =>
      match reply_error r with
      | Some e => Some e
      | None => cmdsFirstErr rs'
      end
  end.

(** [cmd.Val()] of the [i]-th [Get] of a pipeline: the string read, or the
    empty string when the command has an error. *)
Definition Val (rs : list Reply) (i : nat) : string :=
  match rs !! i with
  | Some (RBulk s) => s
  | _ => ""
  end.

(** ** The world around the package *)

(** A round trip that fails: the connection breaks with [cause] after the
    server has run the first [applied] commands of the batch. *)
Record Fault := mkFault { applied : nat; cause : string }.

(** The store, the wall clock as the successive readings [time.Now] will
    return, the fate of each successive round trip to the store, and the
    batches sent so far. *)
Record World := mkWorld {
  store : gmap string Entry;
  clock : nat → Time;
  ticks : nat;
  net : nat → option Fault;
  trips : nat;
  wire : list (list Cmd)
}.

Definition M (A : Type) : Type := World → A * World.

Definition ret {A} (a : A) : M A := λ w, (a, w).

Definition bind {A B} (m : M A) (k : A → M B) : M B :=
  λ w, let '(a, w1) := m w in k a w1.

Notation "x <- m ;; k" := (bind m (λ x, k))
  (at level 20, m at level 99, k at level 200, only parsing).
Notation "' p <- m ;; k" := (bind m (λ x, let 'p := x in k))
  (at level 20, p pattern, m at level 99, k at level 200, only parsing).

(** [time.Now()]. *)
Definition Now : M Time :=
  λ w, (clock w (ticks w),
        mkWorld (store w) (clock w) (S (ticks w)) (net w) (trips w) (wire w)).

(** [time.Until(t)], shorthand for [t.Sub(time.Now())]. *)
Definition Until (t : Time) : M Z :=
  now1 <- Now ;; ret (Sub t now1).

(** One round trip carrying the batch [cs]: [pipe.Exec] for a pipeline, and
    the single command of [rl.redis.Del]. *)
Definition Exec (cs : list Cmd) : M (list Reply * option error) :=
  λ w,
    let sent db := mkWorld db (clock w) (ticks w) (net w) (S (trips w))
                           (wire w ++ [cs]) in
    match net w (trips w) with
    | Some f =>
        let '(_, db) := exec_cmds (take (applied f) cs) (store w) in
        (([], Some (NetError (cause f))), sent db)
    | None =>
        let '(rs, db) := exec_cmds cs (store w) in
        ((rs, cmdsFirstErr rs), sent db)
    end.

(** ** The package *)

Record Config := mkConfig {
  RequestsPerMinute : Z;
  TokensPerMinute : Z;
  RequestsPerDay : Z
}.

(** The [redis] handle of the Go struct is the [World]'s store. *)
Record RateLimiter := mkRateLimiter { config : Config; prefix : string }.

Record CheckResult := mkCheckResult {
  Allowed : bool;
  CurrentRequests : Z;
  CurrentTokens : Z;
  CurrentDayReqs : Z;
  ResetMinute : Z;
  ResetDay : Z;
  RejectionReason : string
}.

(** What a Go function returning a result pointer and an [error] gives
    back: [Ok r] is the pair of [r] and [nil], [Err e] the pair of [nil] and
    [e]. *)
Inductive Res (A : Type) :=
| Ok (a : A)
| Err (e : error).
Arguments Ok {A} a.
Arguments Err {A} e.

Definition New (config : Config) : RateLimiter :=
  mkRateLimiter config "gemini:ratelimit".

Definition set_Allowed (b : bool) (r : CheckResult) : CheckResult :=
  mkCheckResult b (CurrentRequests r) (CurrentTokens r) (CurrentDayReqs r)
                (ResetMinute r) (ResetDay r) (RejectionReason r).
Definition set_CurrentRequests (n : Z) (r : CheckResult) : CheckResult :=
  mkCheckResult (Allowed r) n (CurrentTokens r) (CurrentDayReqs r)
                (ResetMinute r) (ResetDay r) (RejectionReason r).
Definition set_CurrentTokens (n : Z) (r : CheckResult) : CheckResult :=
  mkCheckResult (Allowed r) (CurrentRequests r) n (CurrentDayReqs r)
                (ResetMinute r) (ResetDay r) (RejectionReason r).
Definition set_CurrentDayReqs (n : Z) (r : CheckResult) : CheckResult :=
  mkCheckResult (Allowed r) (CurrentRequests r) (CurrentTokens r) n
                (ResetMinute r) (ResetDay r) (RejectionReason r).
Definition set_ResetMinute (d : Z) (r : CheckResult) : CheckResult :=
  mkCheckResult (Allowed r) (CurrentRequests r) (CurrentTokens r)
                (CurrentDayReqs r) d (ResetDay r) (RejectionReason r).
Definition set_ResetDay (d : Z) (r : CheckResult) : CheckResult :=
  mkCheckResult (Allowed r) (CurrentRequests r) (CurrentTokens r)
                (CurrentDayReqs r) (ResetMinute r) d (RejectionReason r).
Definition set_RejectionReason (s : string) (r : CheckResult) : CheckResult :=
  mkCheckResult (Allowed r) (CurrentRequests r) (CurrentTokens r)
                (CurrentDayReqs r) (ResetMinute r) (ResetDay r) s.

(** The zero value of the struct. *)
Definition zeroCheckResult : CheckResult := mkCheckResult false 0 0 0 0 0 "".

Definition CheckAndIncrement (rl : RateLimiter) (tokens : Z)
  : M (Res CheckResult) :=
  now <- Now ;;
  let minuteKey := prefix rl +:+ ":minute:" +:+ Format now layoutMinute in
  let minuteTokenKey :=
    prefix rl +:+ ":tokens:minute:" +:+ Format now layoutMinute in
  let dayKey := prefix rl +:+ ":day:" +:+ Format now layoutDay in
  let result := set_Allowed true zeroCheckResult in
  '(cmds, err) <- Exec [GET minuteKey; GET minuteTokenKey; GET dayKey] ;;
  match err with
  | Some (NetError _ as e) | Some (ReplyError _ as e) | Some (Errorf _ _ as e) =>
      ret (Err (Errorf "failed to get current values" e))
  | Some redis_Nil | None =>
      let currentMinuteReqs := parseIntOrZero (Val cmds 0) in
      let currentMinuteTokens := parseIntOrZero (Val cmds 1) in
      let currentDayReqs := parseIntOrZero (Val cmds 2) in
      let result := set_CurrentRequests currentMinuteReqs result in
      let result := set_CurrentTokens currentMinuteTokens result in
      let result := set_CurrentDayReqs currentDayReqs result in
      if RequestsPerMinute (config rl) <=? currentMinuteReqs then
        let result := set_Allowed false result in
        let result := set_RejectionReason
          ("requests per minute limit exceeded (" +:+ itoa currentMinuteReqs
           +:+ "/" +:+ itoa (RequestsPerMinute (config rl)) +:+ ")") result in
        d <- Until (Add (Truncate now Minute) Minute) ;;
        ret (Ok (set_ResetMinute d result))
      else if TokensPerMinute (config rl) <? GoInt.add currentMinuteTokens tokens then
        let result := set_Allowed false result in
        let result := set_RejectionReason
          ("tokens per minute limit exceeded (" +:+ itoa currentMinuteTokens
           +:+ "+" +:+ itoa tokens +:+ " > "
           +:+ itoa (TokensPerMinute (config rl)) +:+ ")") result in
        d <- Until (Add (Truncate now Minute) Minute) ;;
        ret (Ok (set_ResetMinute d result))
      else if RequestsPerDay (config rl) <=? currentDayReqs then
        let result := set_Allowed false result in
        let result := set_RejectionReason
          ("requests per day limit exceeded (" +:+ itoa currentDayReqs
           +:+ "/" +:+ itoa (RequestsPerDay (config rl)) +:+ ")") result in
        d <- Until (Add (Truncate now (24 * Hour)) (24 * Hour)) ;;
        ret (Ok (set_ResetDay d result))
      else
        '(_, err) <- Exec [INCR minuteKey; EXPIRE minuteKey (2 * Minute);
                           INCRBY minuteTokenKey tokens;
                           EXPIRE minuteTokenKey (2 * Minute);
                           INCR dayKey; EXPIRE dayKey (25 * Hour)] ;;
        match err with
        | Some e => ret (Err (Errorf "failed to increment counters" e))
        | None =>
            let result :=
              set_CurrentRequests (GoInt.add (CurrentRequests result) 1) result in
            let result :=
              set_CurrentTokens (GoInt.add (CurrentTokens result) tokens) result in
            let result :=
              set_CurrentDayReqs (GoInt.add (CurrentDayReqs result) 1) result in
            dm <- Until (Add (Truncate now Minute) Minute) ;;
            let result := set_ResetMinute dm result in
            dd <- Until (Add (Truncate now (24 * Hour)) (24 * Hour)) ;;
            let result := set_ResetDay dd result in
            ret (Ok result)
        end
  end.

Definition GetCurrentUsage (rl : RateLimiter) : M (Res CheckResult) :=
  now <- Now ;;
  let minuteKey := prefix rl +:+ ":minute:" +:+ Format now layoutMinute in
  let minuteTokenKey :=
    prefix rl +:+ ":tokens:minute:" +:+ Format now layoutMinute in
  let dayKey := prefix rl +:+ ":day:" +:+ Format now layoutDay in
  '(cmds, err) <- Exec [GET minuteKey; GET minuteTokenKey; GET dayKey] ;;
  match err with
  | Some (NetError _ as e) | Some (ReplyError _ as e) | Some (Errorf _ _ as e) =>
      ret (Err (Errorf "failed to get usage" e))
  | Some redis_Nil | None =>
      dm <- Until (Add (Truncate now Minute) Minute) ;;
      dd <- Until (Add (Truncate now (24 * Hour)) (24 * Hour)) ;;
      ret (Ok (mkCheckResult false
                 (parseIntOrZero (Val cmds 0))
                 (parseIntOrZero (Val cmds 1))
                 (parseIntOrZero (Val cmds 2))
                 dm dd ""))
  end.

(** [Reset] returns the [error] of the [DEL] command ([None] is [nil]). *)
Definition Reset (rl : RateLimiter) : M (option error) :=
  now <- Now ;;
  let keys :=
    [prefix rl +:+ ":minute:" +:+ Format now layoutMinute;
     prefix rl +:+ ":tokens:minute:" +:+ Format now layoutMinute;
     prefix rl +:+ ":day:" +:+ Format now layoutDay] in
  '(_, err) <- Exec [DEL keys] ;;
  ret err.

(** ** Names for what the statements below talk about *)

(** The three keys derived from a clock reading [now]. *)
Definition minuteKey (rl : RateLimiter) (now : Time) : string :=
  prefix rl +:+ ":minute:" +:+ Format now layoutMinute.
Definition minuteTokenKey (rl : RateLimiter) (now : Time) : string :=
  prefix rl +:+ ":tokens:minute:" +:+ Format now layoutMinute.
Definition dayKey (rl : RateLimiter) (now : Time) : string :=
  prefix rl +:+ ":day:" +:+ Format now layoutDay.

(** The instant at which the minute, respectively the 24-hour span, that
    contains [now] on the absolute time line ends. *)
Definition minuteBoundary (now : Time) : Time := Add (Truncate now Minute) Minute.
Definition dayBoundary (now : Time) : Time :=
  Add (Truncate now (24 * Hour)) (24 * Hour).

(** What the read phase makes of the value stored under [key]. *)
Definition counter (db : gmap string Entry) (key : string) : Z :=
  parseIntOrZero (from_option value "" (db !! key)).

(** The reply of the server to [GET k]. *)
Definition getReply (db : gmap string Entry) (k : string) : Reply :=
  match db !! k with
  | Some e => RBulk (value e)
  | None => RNil
  end.

Definition readBatch (rl : RateLimiter) (now : Time) : list Cmd :=
  [GET (minuteKey rl now); GET (minuteTokenKey rl now); GET (dayKey rl now)].

Definition writeBatch (rl : RateLimiter) (now : Time) (tokens : Z) : list Cmd :=
  [INCR (minuteKey rl now); EXPIRE (minuteKey rl now) (2 * Minute);
   INCRBY (minuteTokenKey rl now) tokens;
   EXPIRE (minuteTokenKey rl now) (2 * Minute);
   INCR (dayKey rl now); EXPIRE (dayKey rl now) (25 * Hour)].

(** The world after [dt] more clock readings and the round trips [sent],
    with the store now holding [db]. *)
Definition after (w : World) (dt : nat) (sent : list (list Cmd))
    (db : gmap string Entry) : World :=
  mkWorld db (clock w) (dt + ticks w) (net w) (length sent + trips w)
          (wire w ++ sent).

(** A single caller issuing one [CheckAndIncrement] per cost, in order. *)
Fixpoint CheckAndIncrementAll (rl : RateLimiter) (costs : list Z)
  : M (list (Res CheckResult)) :=
  match costs with
  | [] => ret []
  | c :: cs =>
      r <- CheckAndIncrement rl c ;;
      rs <- CheckAndIncrementAll rl cs ;;
      ret (r :: rs)
  end.

(** [n] calls of [GetCurrentUsage] in a row. *)
Fixpoint GetCurrentUsageTimes (rl : RateLimiter) (n : nat)
  : M (list (Res CheckResult)) :=
  match n with
  | O => ret []
  | S n' =>
      r <- GetCurrentUsage rl ;;
      rs <- GetCurrentUsageTimes rl n' ;;
      ret (r :: rs)
  end.


Definition isOk {A} (r : Res A) : bool :=
  match r with
  | Ok _ => true
  | Err _ => false
  end.



(** [INCRBY key delta] goes through on [db]: Redis finds an integer under
    [key] (0 when the key is absent) and the sum fits 64 bits. *)
Definition writable (db : gmap string Entry) (key : string) (delta : Z) : Prop :=
  string2ll (from_option value "0" (db !! key)) = Some (counter db key) ∧
  GoInt.in_int (counter db key + delta).

(** The store after a write phase in which every command went through. *)
Definition written (rl : RateLimiter) (now : Time) (tokens : Z)
    (db : gmap string Entry) : gmap string Entry :=
  <[dayKey rl now :=
      mkEntry (itoa (counter db (dayKey rl now) + 1)) (Some (25 * Hour))]>
  (<[minuteTokenKey rl now :=
      mkEntry (itoa (counter db (minuteTokenKey rl now) + tokens))
              (Some (2 * Minute))]>
  (<[minuteKey rl now :=
      mkEntry (itoa (counter db (minuteKey rl now) + 1)) (Some (2 * Minute))]>
   db)).

(** Every reading of the clock [clk] falls in the minute window and in the
    day window of [now]: it formats to the same two bucket strings. *)
Definition sameWindows (clk : nat → Time) (now : Time) : Prop :=
  ∀ i, Format (clk i) layoutMinute = Format now layoutMinute ∧
       Format (clk i) layoutDay = Format now layoutDay.

(** The world [w] with [l] as the record of what went over the wire. *)
Definition rewire (l : list (list Cmd)) (w : World) : World :=
  mkWorld (store w) (clock w) (ticks w) (net w) (trips w) l.

(** Redis finds an integer under [key] (0 when the key is absent), and the
    three counters of [now] are such integers of magnitude at most [m],
    respectively [m * 2^31] for the token counter. *)
Definition canonical (db : gmap string Entry) (key : string) : Prop :=
  string2ll (from_option value "0" (db !! key)) = Some (counter db key).

Definition boundedCounters (rl : RateLimiter) (now : Time)
    (db : gmap string Entry) (m : Z) : Prop :=
  canonical db (minuteKey rl now) ∧ canonical db (minuteTokenKey rl now) ∧
  canonical db (dayKey rl now) ∧
  Z.abs (counter db (minuteKey rl now)) <= m ∧
  Z.abs (counter db (minuteTokenKey rl now)) <= m * 2 ^ 31 ∧
  Z.abs (counter db (dayKey rl now)) <= m.

(** ** The calendar and the order of bucket strings *)

(** The pieces of [civil_from_days]: the year of the 400-year era that
    starts on a March 1st, the days before that year, the month counted
    from March, and the days before that month. *)
Definition yoe_of (doe : Z) : Z :=
  (doe - doe / 1460 + doe / 36524 - doe / 146096) / 365.
Definition days_before_yoe (y : Z) : Z := 365 * y + y / 4 - y / 100.
Definition mp_of (doy : Z) : Z := (5 * doy + 2) / 153.
Definition days_before_mp (mp : Z) : Z := (153 * mp + 2) / 5.

(** Lexicographic combination of comparisons, most significant first. *)
Definition lex (c1 c2 : comparison) : comparison :=
  match c1 with
  | Eq => c2
  | _ => c1
  end.

Definition date_compare (a b : Z * Z * Z) : comparison :=
  lex (a.1.1 ?= b.1.1) (lex (a.1.2 ?= b.1.2) (a.2 ?= b.2)).

(** The two-digit and four-digit fields of [appendInt]. *)
Definition two (u : Z) : string :=
  String (digit_char (u / 10)) (String (digit_char (u mod 10)) "").
Definition four (u : Z) : string :=
  String (digit_char (u / 100 / 10)) (String (digit_char (u / 100 mod 10))
    (String (digit_char (u mod 100 / 10)) (String (digit_char (u mod 100 mod 10)) ""))).

(** The year of [t] on its local wall clock is one of 0000..9999. *)
Definition fourDigitYear (t : Time) : Prop := 0 <= (Date t).1.1 <= 9999.

(** The local calendar minute and the local calendar day of [t], counted
    from the Unix epoch. *)
Definition localMinute (t : Time) : Z := localSeconds t / 60.
Definition localDay (t : Time) : Z := localSeconds t / 86400.

(** ** Worlds to run the package in *)

Definition noFaults : nat → option Fault := λ _, None.

(** A clock that stands still at [t]. *)
Definition steadyClock (t : Time) : nat → Time := λ _, t.

(** 2024-11-25 23:30:00 UTC, read in a process whose zone is UTC. *)
Definition exampleNow : Time := mkTime (1732577400 * Second) 0.

Definition exampleWorld (db : gmap string Entry) : World :=
  mkWorld db (steadyClock exampleNow) 0 noFaults 0 [].

(** A store holding [r], [t] and [d] under the three keys of [exampleNow]. *)
Definition exampleStore (r t d : string) : gmap string Entry :=
  <[ "gemini:ratelimit:minute:2024-11-25:23:30" := mkEntry r None ]>
  (<[ "gemini:ratelimit:tokens:minute:2024-11-25:23:30" := mkEntry t None ]>
  (<[ "gemini:ratelimit:day:2024-11-25" := mkEntry d None ]> ∅)).

(** ** More names and worlds, for the further properties *)

(** The keys a command reads or writes. *)
Definition cmd_keys (c : Cmd) : list string :=
  match c with
  | GET key | INCR key | INCRBY key _ | EXPIRE key _ => [key]
  | DEL keys => keys
  end.

(** Two stores hold the same thing under every key that satisfies [P]. *)
Definition agree (P : string → Prop) (db db' : gmap string Entry) : Prop :=
  ∀ k, P k → db !! k = db' !! k.

(** [k] is one of the three keys of [now]. *)
Definition ownKey (rl : RateLimiter) (now : Time) (k : string) : Prop :=
  k = minuteKey rl now ∨ k = minuteTokenKey rl now ∨ k = dayKey rl now.

(** The world [w] with the store replaced by [db]. *)
Definition withStore (db : gmap string Entry) (w : World) : World :=
  mkWorld db (clock w) (ticks w) (net w) (trips w) (wire w).

(** The three ceilings are values of Go's [int]. *)
Definition intConfig (c : Config) : Prop :=
  GoInt.in_int (RequestsPerMinute c) ∧ GoInt.in_int (TokensPerMinute c) ∧
  GoInt.in_int (RequestsPerDay c).

Definition sumZ (l : list Z) : Z := foldr Z.add 0 l.

(** A token cost as the specification wants it: a non-negative [int32]. *)
Definition isCost (c : Z) : Prop := 0 <= c <= 2 ^ 31 - 1.

(** The clock never runs backwards. *)
Definition monotoneClock (clk : nat → Time) : Prop :=
  ∀ i j, (i <= j)%nat → wall (clk i) <= wall (clk j).

(** The error reply of an [INCRBY] that Redis refuses on [key]. *)
Definition refusal (db : gmap string Entry) (key : string) : string :=
  match string2ll (from_option value "0" (db !! key)) with
  | None => "ERR value is not an integer or out of range"
  | Some _ => "ERR increment or decrement would overflow"
  end.

(** The last nanosecond of 2024-11-25 23:30 UTC on an empty store, and the
    first instant of 23:31 on the store [db]. *)
Definition minuteEndWorld : World :=
  mkWorld ∅ (steadyClock (mkTime (1732577460 * Second - 1) 0)) 0 noFaults 0 [].

Definition nextMinuteWorld (db : gmap string Entry) : World :=
  mkWorld db (steadyClock (mkTime (1732577460 * Second) 0)) 0 noFaults 0 [].

(** ** The two phases of [CheckAndIncrement], for callers that overlap *)

(** What a call knows after its first round trip and its three checks. *)
Inductive Verdict :=
| Failed (e : error)
| Rejected (result : CheckResult)
| Passed (now : Time) (result : CheckResult).

(** [CheckAndIncrement] up to the point where it has decided. *)
Definition readAndCheck (rl : RateLimiter) (tokens : Z) : M Verdict :=
  now <- Now ;;
  let minuteKey := prefix rl +:+ ":minute:" +:+ Format now layoutMinute in
  let minuteTokenKey :=
    prefix rl +:+ ":tokens:minute:" +:+ Format now layoutMinute in
  let dayKey := prefix rl +:+ ":day:" +:+ Format now layoutDay in
  let result := set_Allowed true zeroCheckResult in
  '(cmds, err) <- Exec [GET minuteKey; GET minuteTokenKey; GET dayKey] ;;
  match err with
  | Some (NetError _ as e) | Some (ReplyError _ as e) | Some (Errorf _ _ as e) =>
      ret (Failed (Errorf "failed to get current values" e))
  | Some redis_Nil | None =>
      let currentMinuteReqs := parseIntOrZero (Val cmds 0) in
      let currentMinuteTokens := parseIntOrZero (Val cmds 1) in
      let currentDayReqs := parseIntOrZero (Val cmds 2) in
      let result := set_CurrentRequests currentMinuteReqs result in
      let result := set_CurrentTokens currentMinuteTokens result in
      let result := set_CurrentDayReqs currentDayReqs result in
      if RequestsPerMinute (config rl) <=? currentMinuteReqs then
        let result := set_Allowed false result in
        let result := set_RejectionReason
          ("requests per minute limit exceeded (" +:+ itoa currentMinuteReqs
           +:+ "/" +:+ itoa (RequestsPerMinute (config rl)) +:+ ")") result in
        d <- Until (Add (Truncate now Minute) Minute) ;;
        ret (Rejected (set_ResetMinute d result))
      else if TokensPerMinute (config rl) <? GoInt.add currentMinuteTokens tokens then
        let result := set_Allowed false result in
        let result := set_RejectionReason
          ("tokens per minute limit exceeded (" +:+ itoa currentMinuteTokens
           +:+ "+" +:+ itoa tokens +:+ " > "
           +:+ itoa (TokensPerMinute (config rl)) +:+ ")") result in
        d <- Until (Add (Truncate now Minute) Minute) ;;
        ret (Rejected (set_ResetMinute d result))
      else if RequestsPerDay (config rl) <=? currentDayReqs then
        let result := set_Allowed false result in
        let result := set_RejectionReason
          ("requests per day limit exceeded (" +:+ itoa currentDayReqs
           +:+ "/" +:+ itoa (RequestsPerDay (config rl)) +:+ ")") result in
        d <- Until (Add (Truncate now (24 * Hour)) (24 * Hour)) ;;
        ret (Rejected (set_ResetDay d result))
      else ret (Passed now result)
  end.

(** The rest of a call that has passed the checks at [now]. *)
Definition increment (rl : RateLimiter) (tokens : Z) (now : Time)
    (result : CheckResult) : M (Res CheckResult) :=
  let minuteKey := prefix rl +:+ ":minute:" +:+ Format now layoutMinute in
  let minuteTokenKey :=
    prefix rl +:+ ":tokens:minute:" +:+ Format now layoutMinute in
  let dayKey := prefix rl +:+ ":day:" +:+ Format now layoutDay in
  '(_, err) <- Exec [INCR minuteKey; EXPIRE minuteKey (2 * Minute);
                     INCRBY minuteTokenKey tokens;
                     EXPIRE minuteTokenKey (2 * Minute);
                     INCR dayKey; EXPIRE dayKey (25 * Hour)] ;;
  match err with
  | Some e => ret (Err (Errorf "failed to increment counters" e))
  | None =>
      let result :=
        set_CurrentRequests (GoInt.add (CurrentRequests result) 1) result in
      let result :=
        set_CurrentTokens (GoInt.add (CurrentTokens result) tokens) result in
      let result :=
        set_CurrentDayReqs (GoInt.add (CurrentDayReqs result) 1) result in
      dm <- Until (Add (Truncate now Minute) Minute) ;;
      let result := set_ResetMinute dm result in
      dd <- Until (Add (Truncate now (24 * Hour)) (24 * Hour)) ;;
      let result := set_ResetDay dd result in
      ret (Ok result)
  end.

Definition conclude (rl : RateLimiter) (tokens : Z) (v : Verdict)
  : M (Res CheckResult) :=
  match v with
  | Failed e => ret (Err e)
  | Rejected result => ret (Ok result)
  | Passed now result => increment rl tokens now result
  end.

(** Two callers on one store whose calls overlap: both have read and
    checked before either writes. *)
Definition overlapping (rl : RateLimiter) (tokensA tokensB : Z)
  : M (Res CheckResult * Res CheckResult) :=
  vA <- readAndCheck rl tokensA ;;
  vB <- readAndCheck rl tokensB ;;
  rA <- conclude rl tokensA vA ;;
  rB <- conclude rl tokensB vB ;;
  ret (rA, rB).

(** * The file cache

    [Resoul\Cache\FileCache], the PHP class that [src/limiter.go] carries
    after the rate limiter.  One file per key, named after the MD5 of the
    key, holds the serialized value with its expiry. *)

(** ** PHP's [md5] (RFC 1321) *)

Module MD5.

Definition sines : list Z :=
  [3614090360; 3905402710; 606105819; 3250441966;
   4118548399; 1200080426; 2821735955; 4249261313;
   1770035416; 2336552879; 4294925233; 2304563134;
   1804603682; 4254626195; 2792965006; 1236535329;
   4129170786; 3225465664; 643717713; 3921069994;
   3593408605; 38016083; 3634488961; 3889429448;
   568446438; 3275163606; 4107603335; 1163531501;
   2850285829; 4243563512; 1735328473; 2368359562;
   4294588738; 2272392833; 1839030562; 4259657740;
   2763975236; 1272893353; 4139469664; 3200236656;
   681279174; 3936430074; 3572445317; 76029189;
   3654602809; 3873151461; 530742520; 3299628645;
   4096336452; 1126891415; 2878612391; 4237533241;
   1700485571; 2399980690; 4293915773; 2240044497;
   1873313359; 4264355552; 2734768916; 1309151649;
   4149444226; 3174756917; 718787259; 3951481745].

Definition shifts : list Z :=
  [7; 12; 17; 22; 7; 12; 17; 22; 7; 12; 17; 22; 7; 12; 17; 22;
   5; 9; 14; 20; 5; 9; 14; 20; 5; 9; 14; 20; 5; 9; 14; 20;
   4; 11; 16; 23; 4; 11; 16; 23; 4; 11; 16; 23; 4; 11; 16; 23;
   6; 10; 15; 21; 6; 10; 15; 21; 6; 10; 15; 21; 6; 10; 15; 21].

(** 32-bit words as [Z], with the wrap-around written out. *)
Definition w32 (x : Z) : Z := x mod 2 ^ 32.
Definition not32 (x : Z) : Z := Z.lxor x (2 ^ 32 - 1).
Definition rotl (x c : Z) : Z :=
  w32 (Z.lor (Z.shiftl x c) (Z.shiftr x (32 - c))).

(** The word of four bytes, least significant first, and back. *)
Definition word_of (bs : list Z) : Z :=
  foldr (λ b acc, b + 256 * acc) 0 bs.
Definition bytes_of (n : nat) (x : Z) : list Z :=
  (λ i, (x / 256 ^ Z.of_nat i) mod 256) <$> seq 0 n.

Fixpoint words (n : nat) (bs : list Z) : list Z :=
  match n with
  | O => []
  | S n' => word_of (take 4 bs) :: words n' (drop 4 bs)
  end.

(** The message, one [1] bit, zeros up to 56 bytes modulo 64, and the
    length of the message in bits on 64 bits. *)
Definition pad (msg : list Z) : list Z :=
  let n := Z.of_nat (length msg) in
  (msg ++ [128] ++ repeat 0 (Z.to_nat ((55 - n) mod 64))
       ++ bytes_of 8 ((8 * n) mod 2 ^ 64))%list.

Definition step (M : list Z) (st : Z * Z * Z * Z) (i : nat) : Z * Z * Z * Z :=
  let '(a, b, c, d) := st in
  let zi := Z.of_nat i in
  let '(f, g) :=
    if zi <? 16 then (Z.lor (Z.land b c) (Z.land (not32 b) d), zi)
    else if zi <? 32 then
      (Z.lor (Z.land d b) (Z.land (not32 d) c), (5 * zi + 1) mod 16)
    else if zi <? 48 then (Z.lxor b (Z.lxor c d), (3 * zi + 5) mod 16)
    else (Z.lxor c (Z.lor b (not32 d)), (7 * zi) mod 16) in
  let f := w32 (f + a + sines !!! i + M !!! Z.to_nat g) in
  (d, w32 (b + rotl f (shifts !!! i)), b, c).

Definition block (st : Z * Z * Z * Z) (bs : list Z) : Z * Z * Z * Z :=
  let '(a0, b0, c0, d0) := st in
  let '(a, b, c, d) := foldl (step (words 16 bs)) st (seq 0 64) in
  (w32 (a0 + a), w32 (b0 + b), w32 (c0 + c), w32 (d0 + d)).

Fixpoint blocks (n : nat) (st : Z * Z * Z * Z) (bs : list Z) : Z * Z * Z * Z :=
  match n with
  | O => st
  | S n' => blocks n' (block st (take 64 bs)) (drop 64 bs)
  end.

Definition digest (msg : list Z) : list Z :=
  let bs := pad msg in
  let '(a, b, c, d) :=
    blocks (length bs / 64)
      (1732584193, 4023233417, 2562383102, 271733878) bs in
  (bytes_of 4 a ++ bytes_of 4 b ++ bytes_of 4 c ++ bytes_of 4 d)%list.

Definition hexdigit (d : Z) : ascii :=
  ascii_of_N (Z.to_N (if d <? 10 then 48 + d else 87 + d)).

Definition hex (bs : list Z) : string :=
  string_of_list_ascii (bs ≫= λ b, [hexdigit (b / 16); hexdigit (b mod 16)]).

End MD5.

(** [md5($string)]: 32 hexadecimal digits, in lower case. *)
Definition md5 (s : string) : string :=
  MD5.hex (MD5.digest ((λ c, Z.of_N (N_of_ascii c)) <$> list_ascii_of_string s)).

(** ** Strings and paths *)

Definition is_slash (c : ascii) : bool := Ascii.eqb c "/".

Fixpoint drop_while {A} (p : A → bool) (l : list A) : list A :=
  match l with
  | [] => []
  | x :: l' => if p x then drop_while p l' else l
  end.

(** [rtrim($s, '/')]. *)
Definition rtrim (s : string) : string :=
  string_of_list_ascii
    (rev (drop_while is_slash (rev (list_ascii_of_string s)))).

(** [dirname($path)]: trailing slashes go, then the last component, then
    the slashes before it. *)
Definition dirname (path : string) : string :=
  match list_ascii_of_string path with
  | [] => ""
  | cs =>
      match drop_while is_slash (rev cs) with
      | [] => "/"
      | r1 =>
          match drop_while (λ c, negb (is_slash c)) r1 with
          | [] => "."
          | r2 =>
              match drop_while is_slash r2 with
              | [] => "/"
              | r3 => string_of_list_ascii (rev r3)
              end
          end
      end
  end.

(** ** The file system and the clock

    A path names nothing, a directory or a regular file.  What a regular
    file holds is either what [serialize] made of an entry, which
    [unserialize] gives back, or bytes that [unserialize] rejects.  The
    calls fail for structural reasons only (a directory where a file is
    expected, or the reverse); [time()] returns the successive readings of
    the clock. *)

Module PHP.

Definition PHP_INT_MAX : Z := 2 ^ 63 - 1.

(** The [expires_at] of an entry: [null], an [int], or the [float] that
    an [int] addition past [PHP_INT_MAX] gives. *)
Inductive Expiry := Never | At (t : Z) | Beyond.

Record Data := mkData {
  value : string;
  expires_at : Expiry;
  created_at : Z
}.

Inductive Content :=
| Serialized (data : Data)
| Unreadable.

Inductive Node :=
| Dir
| File (content : Content).

Record Sys := mkSys {
  disk : gmap string Node;
  clock : nat → Z;
  ticks : nat
}.

Definition with_disk (d : gmap string Node) (s : Sys) : Sys :=
  mkSys d (clock s) (ticks s).

(** [time()]. *)
Definition time (s : Sys) : Z * Sys :=
  (clock s (ticks s), mkSys (disk s) (clock s) (S (ticks s))).

Definition file_exists (p : string) (s : Sys) : bool :=
  match disk s !! p with
  | Some _ => true
  | None => false
  end.

Definition is_dir (p : string) (s : Sys) : bool :=
  match disk s !! p with
  | Some Dir => true
  | _ => false
  end.

(** [mkdir($p, 0755, true)], the directories above [p] being there or
    free to create. *)
Definition mkdir (p : string) (s : Sys) : bool * Sys :=
  if String.eqb p "" then (false, s)
  else
    match disk s !! p with
    | None => (true, with_disk (<[p := Dir]> (disk s)) s)
    | Some _ => (false, s)
    end.

(** What [file_get_contents] reads at an existing path: the content of a
    regular file, the empty string at a directory. *)
Definition contents (n : Node) : Content :=
  match n with
  | File c => c
  | Dir => Unreadable
  end.

(** [unserialize($content)]: the entry, or [false]. *)
Definition unserialize (c : Content) : option Data :=
  match c with
  | Serialized data => Some data
  | Unreadable => None
  end.

(** [file_put_contents($p, $content, LOCK_EX) !== false]. *)
Definition file_put_contents (p : string) (c : Content) (s : Sys)
  : bool * Sys :=
  match disk s !! p with
  | Some Dir => (false, s)
  | _ =>
      if is_dir (dirname p) s
      then (true, with_disk (<[p := File c]> (disk s)) s)
      else (false, s)
  end.

Definition unlink (p : string) (s : Sys) : bool * Sys :=
  match disk s !! p with
  | Some (File _) => (true, with_disk (base.delete p (disk s)) s)
  | _ => (false, s)
  end.

(** [$a < $b] between an [expires_at] that is not [null] and an [int]. *)
Definition lt (e : Expiry) (now : Z) : bool :=
  match e with
  | At t => t <? now
  | _ => false
  end.

End PHP.

(** ** The class *)

Module FileCache.
Import PHP.

Record FileCache := mkFileCache { cacheDir : string }.

Definition getFilePath (this : FileCache) (key : string) : string :=
  let hash := md5 key in
  cacheDir this +:+ "/" +:+ substring 0 2 hash +:+ "/" +:+ hash +:+ ".cache".

Definition construct (cacheDir : string) (s : Sys) : FileCache * Sys :=
  let this := mkFileCache (rtrim cacheDir) in
  if is_dir (FileCache.cacheDir this) s then (this, s)
  else (this, (mkdir (FileCache.cacheDir this) s).2).

Definition delete (this : FileCache) (key : string) (s : Sys) : bool * Sys :=
  let file := getFilePath this key in
  if file_exists file s then unlink file s else (true, s).

Definition get (this : FileCache) (key : string) (s : Sys)
  : option string * Sys :=
  let file := getFilePath this key in
  match disk s !! file with
  | None => (None, s)
  | Some node =>
      match unserialize (contents node) with
      | None => (None, s)
      | Some data =>
          match expires_at data with
          | Never => (Some (value data), s)
          | e =>
              let '(now, s1) := time s in
              if lt e now
              then let '(_, s2) := delete this key s1 in (None, s2)
              else (Some (value data), s1)
          end
      end
  end.

Definition set (this : FileCache) (key value : string) (ttl : Z) (s : Sys)
  : bool * Sys :=
  let file := getFilePath this key in
  let dir := dirname file in
  let s := if is_dir dir s then s else (mkdir dir s).2 in
  let '(expires_at, s) :=
    if 0 <? ttl
    then let '(now, s') := time s in
         (if now + ttl <=? PHP_INT_MAX then At (now + ttl) else Beyond, s')
    else (Never, s) in
  let '(created_at, s) := time s in
  file_put_contents file (Serialized (mkData value expires_at created_at)) s.

Definition has (this : FileCache) (key : string) (s : Sys) : bool * Sys :=
  let '(v, s') := get this key s in
  (bool_decide (v ≠ None), s').

End FileCache.

(** ** Names for the statements about the cache *)

(** The entry that [unserialize] finds in the file of [key], if any. *)
Definition stored (this : FileCache.FileCache) (key : string) (s : PHP.Sys)
  : option PHP.Data :=
  PHP.disk s !! FileCache.getFilePath this key
    ≫= λ n, PHP.unserialize (PHP.contents n).

(** [set] can write the file of [key]: no regular file sits where its
    directory goes, and no directory where the file goes. *)
Definition settable (this : FileCache.FileCache) (key : string) (s : PHP.Sys)
  : Prop :=
  (∀ c, PHP.disk s !! dirname (FileCache.getFilePath this key)
          ≠ Some (PHP.File c)) ∧
  PHP.disk s !! FileCache.getFilePath this key ≠ Some PHP.Dir.

(** No byte of [l] is a slash. *)
Definition noSlash (l : list ascii) : Prop := Forall (λ c, is_slash c = false) l.

(** The system after one more reading of the clock. *)
Definition tick (s : PHP.Sys) : PHP.Sys :=
  PHP.mkSys (PHP.disk s) (PHP.clock s) (S (PHP.ticks s)).

(** What [set] puts in [expires_at] at the clock reading [now]. *)
Definition expiry (now ttl : Z) : PHP.Expiry :=
  if 0 <? ttl
  then if now + ttl <=? PHP.PHP_INT_MAX then PHP.At (now + ttl) else PHP.Beyond
  else PHP.Never.

(** A system to run the cache in: an empty disk, and a clock that starts
    at 1000 and advances by one second at each reading. *)
Definition exampleSys : PHP.Sys := PHP.mkSys ∅ (λ i, 1000 + Z.of_nat i) 0.

(** The disk [d] read at the time [t]. *)
Definition at_time (t : Z) (d : gmap string PHP.Node) : PHP.Sys :=
  PHP.mkSys d (λ _, t) 0.

Definition exampleCache : FileCache.FileCache :=
  FileCache.mkFileCache "/tmp/cache".

(** Two keys of 128 bytes with the same MD5 (Wang and Yu, 2004). *)
Definition collisionA : string :=
  string_of_list_ascii (ascii_of_nat <$>
  [209; 49; 221; 2; 197; 230; 238; 196; 105; 61; 154; 6; 152; 175; 249; 92;
   47; 202; 181; 135; 18; 70; 126; 171; 64; 4; 88; 62; 184; 251; 127; 137;
   85; 173; 52; 6; 9; 244; 179; 2; 131; 228; 136; 131; 37; 113; 65; 90;
   8; 81; 37; 232; 247; 205; 201; 159; 217; 29; 189; 242; 128; 55; 60; 91;
   216; 130; 62; 49; 86; 52; 143; 91; 174; 109; 172; 212; 54; 201; 25; 198;
   221; 83; 226; 180; 135; 218; 3; 253; 2; 57; 99; 6; 210; 72; 205; 160;
   233; 159; 51; 66; 15; 87; 126; 232; 206; 84; 182; 112; 128; 168; 13; 30;
   198; 152; 33; 188; 182; 168; 131; 147; 150; 249; 101; 43; 111; 247; 42; 112]%nat).

Definition collisionB : string :=
  string_of_list_ascii (ascii_of_nat <$>
  [209; 49; 221; 2; 197; 230; 238; 196; 105; 61; 154; 6; 152; 175; 249; 92;
   47; 202; 181; 7; 18; 70; 126; 171; 64; 4; 88; 62; 184; 251; 127; 137;
   85; 173; 52; 6; 9; 244; 179; 2; 131; 228; 136; 131; 37; 241; 65; 90;
   8; 81; 37; 232; 247; 205; 201; 159; 217; 29; 189; 114; 128; 55; 60; 91;
   216; 130; 62; 49; 86; 52; 143; 91; 174; 109; 172; 212; 54; 201; 25; 198;
   221; 83; 226; 52; 135; 218; 3; 253; 2; 57; 99; 6; 210; 72; 205; 160;
   233; 159; 51; 66; 15; 87; 126; 232; 206; 84; 182; 112; 128; 40; 13; 30;
   198; 152; 33; 188; 182; 168; 131; 147; 150; 249; 101; 171; 111; 247; 42; 112]%nat).

(** * Properties *)

(** ** The model at work *)

Example parseIntOrZero_examples :
  parseIntOrZero "" = 0 ∧ parseIntOrZero "42" = 42 ∧
  parseIntOrZero "-7" = -7 ∧ parseIntOrZero "+7" = 7 ∧
  parseIntOrZero "007" = 7 ∧ parseIntOrZero "12a" = 0 ∧
  parseIntOrZero "-" = 0 ∧ parseIntOrZero " 1" = 0 ∧
  parseIntOrZero "9223372036854775807" = 9223372036854775807 ∧
  parseIntOrZero "9223372036854775808" = 0 ∧
  parseIntOrZero "-9223372036854775808" = -9223372036854775808.
Proof. repeat split; reflexivity. Qed.

Example string2ll_examples :
  string2ll "42" = Some 42 ∧ string2ll "-7" = Some (-7) ∧
  string2ll "+7" = None ∧ string2ll "007" = None ∧ string2ll "-0" = None ∧
  string2ll "" = None ∧ string2ll "0" = Some 0.
Proof. repeat split; vm_compute; reflexivity. Qed.

Example Format_examples :
  Format (mkTime (1732577400 * Second + 5) 7200) layoutMinute = "2024-11-26:01:30" ∧
  Format (mkTime (1732577400 * Second + 5) 0) layoutDay = "2024-11-25" ∧
  Format (mkTime (951782400 * Second) 0) layoutDay = "2000-02-29" ∧
  Format (mkTime (-62167219200 * Second - 1) 0) layoutMinute = "-0001-12-31:23:59" ∧
  Format (mkTime (253402300800 * Second) 0) layoutMinute = "10000-01-01:00:00".
Proof. repeat split; vm_compute; reflexivity. Qed.

(** The first scenario of the specification: two requests a minute, three
    calls costing 10 tokens each. *)
Example two_per_minute :
  (CheckAndIncrementAll (New (mkConfig 2 1000 100)) [10; 10; 10] (exampleWorld ∅)).1
  = [Ok (mkCheckResult true 1 10 1 (60 * Second) (1800 * Second) "");
     Ok (mkCheckResult true 2 20 2 (60 * Second) (1800 * Second) "");
     Ok (mkCheckResult false 2 20 2 (60 * Second) 0
           "requests per minute limit exceeded (2/2)")].
Proof. vm_compute. reflexivity. Qed.

(** The second scenario: 50 tokens a minute, a call costing 30 and then one
    costing 25. *)
Example fifty_tokens_per_minute :
  (CheckAndIncrementAll (New (mkConfig 100 50 1000)) [30; 25] (exampleWorld ∅)).1
  = [Ok (mkCheckResult true 1 30 1 (60 * Second) (1800 * Second) "");
     Ok (mkCheckResult false 1 30 1 (60 * Second) 0
           "tokens per minute limit exceeded (30+25 > 50)")].
Proof. vm_compute. reflexivity. Qed.

(** A value that is not an integer reads as 0 in the read phase; the
    [INCR] of the write phase then fails on it in the server, and the call
    returns that error. *)
Example malformed_counter_fails_the_write :
  (CheckAndIncrement (New (mkConfig 10 100 50)) 5
     (exampleWorld (exampleStore "abc" "0" "0"))).1
  = Err (Errorf "failed to increment counters"
           (ReplyError "ERR value is not an integer or out of range")).
Proof. vm_compute. reflexivity. Qed.

(** ** Integers and their decimal forms *)

Lemma in_intb_true z : GoInt.in_intb z = true ↔ GoInt.in_int z.
Proof.
  unfold GoInt.in_intb, GoInt.in_int.
  rewrite andb_true_iff, !Z.leb_le. tauto.
Qed.

Lemma wrap_in_int z : GoInt.in_int z → GoInt.wrap z = z.
Proof.
  unfold GoInt.in_int, GoInt.wrap, GoInt.min_int, GoInt.max_int. intros H.
  rewrite Z.mod_small; lia.
Qed.

Lemma add_exact a b : GoInt.in_int (a + b) → GoInt.add a b = a + b.
Proof. apply wrap_in_int. Qed.

Lemma digit_of_pretty_N_char d :
  (d < 10)%N → digit_of (pretty_N_char d) = Some (Z.of_N d).
Proof.
  intros H.
  assert (d = 0 ∨ d = 1 ∨ d = 2 ∨ d = 3 ∨ d = 4 ∨ d = 5 ∨ d = 6 ∨ d = 7
          ∨ d = 8 ∨ d = 9)%N as Hd by lia.
  repeat destruct Hd as [-> | Hd]; try subst d; reflexivity.
Qed.

(** Reading back the digits that [pretty_N_go] puts in front of [s]. *)
Lemma atoi_digits_pretty_N_go x s :
  atoi_digits (pretty_N_go x s) 0 = atoi_digits s (Z.of_N x).
Proof.
  revert s. induction (N.lt_wf_0 x) as [x _ IH]. intros s.
  destruct (decide (x = 0%N)) as [-> | Hx]; [reflexivity |].
  rewrite pretty_N_go_step by lia.
  rewrite IH by (apply N.div_lt; lia). simpl.
  rewrite digit_of_pretty_N_char by (apply N.mod_lt; lia).
  f_equal. rewrite N2Z.inj_div, N2Z.inj_mod.
  pose proof (Z.div_mod (Z.of_N x) (Z.of_N 10)). simpl Z.of_N in *. lia.
Qed.

(** The decimal form of a positive number starts with a digit. *)
Lemma pretty_N_go_head x s :
  (0 < x)%N → ∃ c rest, pretty_N_go x s = String c rest ∧ is_Some (digit_of c).
Proof.
  revert s. induction (N.lt_wf_0 x) as [x _ IH]. intros s Hx.
  rewrite pretty_N_go_step by lia.
  destruct (decide (x `div` 10 = 0)%N) as [E | E].
  - rewrite E, pretty_N_go_0. eexists _, _. split; [reflexivity |].
    rewrite digit_of_pretty_N_char by (apply N.mod_lt; lia). eauto.
  - apply IH.
    + apply N.div_lt; lia.
    + destruct (x `div` 10)%N; [done | lia].
Qed.

Lemma Atoi_unsigned c rest n :
  is_Some (digit_of c) → atoi_digits (String c rest) 0 = Some n →
  Atoi (String c rest) = if GoInt.in_intb n then Some n else None.
Proof.
  intros Hc Hn. unfold Atoi.
  assert (Ascii.eqb c "-" = false) as E1.
  { apply Ascii.eqb_neq. intros ->. destruct Hc as [? Hc]. discriminate Hc. }
  assert (Ascii.eqb c "+" = false) as E2.
  { apply Ascii.eqb_neq. intros ->. destruct Hc as [? Hc]. discriminate Hc. }
  rewrite E1, E2. cbn [orb]. rewrite Hn. reflexivity.
Qed.

Lemma Atoi_pretty_pos p :
  Atoi (pretty (Zpos p)) =
  if GoInt.in_intb (Zpos p) then Some (Zpos p) else None.
Proof.
  change (pretty (Zpos p)) with (pretty_N_go (Npos p) "").
  destruct (pretty_N_go_head (Npos p) "") as (c & rest & E & Hc); [lia |].
  pose proof (atoi_digits_pretty_N_go (Npos p) "") as Hd.
  rewrite E in *. apply Atoi_unsigned; [done |]. exact Hd.
Qed.

(** [strconv.Atoi] reads back what [itoa] prints. *)
Lemma Atoi_itoa z : GoInt.in_int z → Atoi (itoa z) = Some z.
Proof.
  intros Hz. apply in_intb_true in Hz. destruct z as [| p | p].
  - reflexivity.
  - unfold itoa. rewrite Atoi_pretty_pos, Hz. reflexivity.
  - unfold itoa. change (pretty (Zneg p)) with ("-" +:+ pretty_N_go (Npos p) "").
    destruct (pretty_N_go_head (Npos p) "") as (c & rest & E & Hc); [lia |].
    pose proof (atoi_digits_pretty_N_go (Npos p) "") as Hd.
    rewrite E in *. simpl in Hd |- *. rewrite Hd.
    change (- Z.pos p) with (Z.neg p). rewrite Hz. reflexivity.
Qed.

Lemma string2ll_itoa z : GoInt.in_int z → string2ll (itoa z) = Some z.
Proof.
  intros Hz. unfold string2ll. rewrite Atoi_itoa by done.
  rewrite String.eqb_refl. reflexivity.
Qed.

(** A value Redis accepts as an integer is read by the package as the same
    integer. *)
Lemma string2ll_parseIntOrZero s z :
  string2ll s = Some z → parseIntOrZero s = z ∧ GoInt.in_int z ∧ s = itoa z.
Proof.
  unfold string2ll, parseIntOrZero. intros H.
  destruct (Atoi s) as [v |] eqn:E; [| discriminate].
  destruct (String.eqb (itoa v) s) eqn:E2; [| discriminate].
  injection H as ->. apply String.eqb_eq in E2.
  destruct s; [discriminate E |]. cbn [String.eqb]. split; [reflexivity |].
  split; [| done].
  unfold Atoi in E. repeat case_match; try discriminate.
  all: injection E as <-; by apply in_intb_true.
Qed.

(** ** The three keys *)

Lemma minuteKey_ne_minuteTokenKey rl a b : minuteKey rl a ≠ minuteTokenKey rl b.
Proof.
  unfold minuteKey, minuteTokenKey. intros H.
  apply String.app_inj in H. discriminate H.
Qed.

Lemma minuteKey_ne_dayKey rl a b : minuteKey rl a ≠ dayKey rl b.
Proof.
  unfold minuteKey, dayKey. intros H.
  apply String.app_inj in H. discriminate H.
Qed.

Lemma minuteTokenKey_ne_dayKey rl a b : minuteTokenKey rl a ≠ dayKey rl b.
Proof.
  unfold minuteTokenKey, dayKey. intros H.
  apply String.app_inj in H. discriminate H.
Qed.

(** ** The server *)

Lemma counter_absent db k : db !! k = None → counter db k = 0.
Proof. unfold counter. intros ->. reflexivity. Qed.

Lemma counter_insert db k s o :
  counter (<[k := mkEntry s o]> db) k = parseIntOrZero s.
Proof. unfold counter. rewrite lookup_insert_eq. reflexivity. Qed.

Lemma counter_insert_ne db k k' e :
  k ≠ k' → counter (<[k := e]> db) k' = counter db k'.
Proof. unfold counter. intros H. rewrite lookup_insert_ne by done. reflexivity. Qed.

Lemma counter_itoa db k z o :
  GoInt.in_int z → counter (<[k := mkEntry (itoa z) o]> db) k = z.
Proof.
  intros Hz. rewrite counter_insert.
  apply (string2ll_parseIntOrZero _ _ (string2ll_itoa z Hz)).
Qed.

(** Where Redis sees an integer under [k] (an absent key counts as 0), the
    read phase sees the same integer. *)
Lemma redis_view db k c :
  string2ll (from_option value "0" (db !! k)) = Some c →
  counter db k = c ∧ GoInt.in_int c.
Proof.
  unfold counter. destruct (db !! k) as [e |]; simpl; intros H.
  - apply string2ll_parseIntOrZero in H. tauto.
  - injection H as <-. split; [reflexivity |].
    apply in_intb_true. reflexivity.
Qed.

(** [INCRBY] either fails and leaves the store alone, or adds [delta] to
    the integer it finds. *)
Lemma incrby_cases k delta db :
  (∃ msg, incrby k delta db = (RErr msg, db)) ∨
  (GoInt.in_int (counter db k + delta) ∧
   string2ll (from_option value "0" (db !! k)) = Some (counter db k) ∧
   incrby k delta db =
     (RInt (counter db k + delta),
      <[k := mkEntry (itoa (counter db k + delta)) (db !! k ≫= ttl)]> db)).
Proof.
  unfold incrby.
  destruct (string2ll (from_option value "0" (db !! k))) as [c |] eqn:E;
    [| left; eauto].
  destruct (redis_view _ _ _ E) as [Hc _]. rewrite Hc.
  destruct (GoInt.in_intb (c + delta)) eqn:E2; [| left; eauto].
  right. apply in_intb_true in E2. done.
Qed.

Lemma exec_cmds_cons c cs db :
  exec_cmds (c :: cs) db =
  let '(r, db1) := exec_cmd c db in
  let '(rs, db2) := exec_cmds cs db1 in (r :: rs, db2).
Proof. reflexivity. Qed.

(** [INCRBY] then [EXPIRE] on one key, when the increment goes through. *)
Lemma incrby_expire_ok k delta expiration cs db :
  0 < expiration →
  string2ll (from_option value "0" (db !! k)) = Some (counter db k) →
  GoInt.in_int (counter db k + delta) →
  exec_cmds (INCRBY k delta :: EXPIRE k expiration :: cs) db =
  let '(rs, db2) :=
    exec_cmds cs (<[k := mkEntry (itoa (counter db k + delta)) (Some expiration)]> db) in
  (RInt (counter db k + delta) :: RInt 1 :: rs, db2).
Proof.
  intros Hexp Hc Hr. rewrite exec_cmds_cons. cbn [exec_cmd].
  destruct (incrby_cases k delta db) as [[msg E] | (_ & _ & E)].
  { exfalso. unfold incrby in E. rewrite Hc in E.
    apply in_intb_true in Hr. rewrite Hr in E. discriminate E. }
  rewrite E. cbv beta iota. rewrite exec_cmds_cons. cbn [exec_cmd].
  rewrite lookup_insert_eq. cbn [value].
  apply Z.ltb_lt in Hexp. rewrite Hexp. rewrite insert_insert_eq.
  destruct (exec_cmds cs _) as [rs db2]. reflexivity.
Qed.

(** A pipeline whose first command is an [INCRBY] that fails reports an
    error. *)
Lemma incrby_failed k delta cs db msg :
  incrby k delta db = (RErr msg, db) →
  ∃ rs db2, exec_cmds (INCRBY k delta :: cs) db = (RErr msg :: rs, db2).
Proof.
  intros E. rewrite exec_cmds_cons. cbn [exec_cmd]. rewrite E.
  destruct (exec_cmds cs db) as [rs db2]. eauto.
Qed.

Lemma exec_read a b c db :
  exec_cmds [GET a; GET b; GET c] db = ([getReply db a; getReply db b; getReply db c], db).
Proof.
  unfold getReply. simpl.
  destruct (db !! a), (db !! b), (db !! c); reflexivity.
Qed.

Lemma exec_gets ks db : (exec_cmds (GET <$> ks) db).2 = db.
Proof.
  induction ks as [| k ks IH]; [reflexivity |].
  rewrite fmap_cons, exec_cmds_cons. cbn [exec_cmd].
  destruct (exec_cmds (GET <$> ks) db) as [rs db2] eqn:E. simpl in IH. subst db2.
  destruct (db !! k); rewrite E; reflexivity.
Qed.

Lemma exec_read_prefix n a b c db :
  (exec_cmds (take n [GET a; GET b; GET c]) db).2 = db.
Proof.
  change [GET a; GET b; GET c] with (GET <$> [a; b; c]).
  rewrite <- fmap_take. apply exec_gets.
Qed.

Lemma parse_getReply db a b c i k :
  [a; b; c] !! i = Some k →
  parseIntOrZero
    (Val [getReply db a; getReply db b; getReply db c] i) = counter db k.
Proof.
  unfold Val, getReply, counter.
  destruct i as [| [| [| i]]]; simpl; intros [= <-];
    by destruct (db !! _).
Qed.

(** The error of a batch of [GET]s that reached the server is [nil] or
    [redis.Nil]. *)
Lemma read_error_benign db a b c :
  cmdsFirstErr [getReply db a; getReply db b; getReply db c] = None ∨
  cmdsFirstErr [getReply db a; getReply db b; getReply db c] = Some redis_Nil.
Proof.
  unfold getReply. destruct (db !! a), (db !! b), (db !! c); simpl; auto.
Qed.

Lemma exec_INCR k cs db :
  exec_cmds (INCR k :: cs) db = exec_cmds (INCRBY k 1 :: cs) db.
Proof. reflexivity. Qed.

Lemma writable_insert_ne db k k' e delta :
  k ≠ k' → writable db k' delta → writable (<[k := e]> db) k' delta.
Proof.
  unfold writable. intros Hne.
  rewrite counter_insert_ne, lookup_insert_ne by done. tauto.
Qed.

Lemma writable_of_insert_ne db k k' e delta :
  k ≠ k' → writable (<[k := e]> db) k' delta → writable db k' delta.
Proof.
  unfold writable. intros Hne.
  rewrite counter_insert_ne, lookup_insert_ne by done. tauto.
Qed.

Lemma incrby_expire_writable k delta expiration cs db :
  0 < expiration → writable db k delta →
  exec_cmds (INCRBY k delta :: EXPIRE k expiration :: cs) db =
  let '(rs, db2) :=
    exec_cmds cs (<[k := mkEntry (itoa (counter db k + delta)) (Some expiration)]> db) in
  (RInt (counter db k + delta) :: RInt 1 :: rs, db2).
Proof. intros ? [? ?]. by apply incrby_expire_ok. Qed.

(** A pipeline that reports no error and starts with an [INCRBY] found the
    key [writable]. *)
Lemma incrby_no_error k delta cs db :
  cmdsFirstErr (exec_cmds (INCRBY k delta :: cs) db).1 = None →
  writable db k delta.
Proof.
  destruct (incrby_cases k delta db) as [[msg E] | (H1 & H2 & _)]; [| done].
  destruct (incrby_failed k delta cs db msg E) as (rs & db2 & ->).
  discriminate.
Qed.

(** The write phase on the server when its three increments go through. *)
Lemma exec_write_ok rl now tokens db :
  writable db (minuteKey rl now) 1 →
  writable db (minuteTokenKey rl now) tokens →
  writable db (dayKey rl now) 1 →
  exec_cmds (writeBatch rl now tokens) db =
  ([RInt (counter db (minuteKey rl now) + 1); RInt 1;
    RInt (counter db (minuteTokenKey rl now) + tokens); RInt 1;
    RInt (counter db (dayKey rl now) + 1); RInt 1],
   written rl now tokens db).
Proof.
  intros H1 H2 H3. unfold writeBatch, written.
  pose proof (minuteKey_ne_minuteTokenKey rl now now) as N12.
  pose proof (minuteKey_ne_dayKey rl now now) as N13.
  pose proof (minuteTokenKey_ne_dayKey rl now now) as N23.
  rewrite exec_INCR, incrby_expire_writable by (done || reflexivity).
  rewrite incrby_expire_writable
    by (reflexivity || by apply writable_insert_ne).
  rewrite exec_INCR, incrby_expire_writable
    by (reflexivity ||
        (apply writable_insert_ne; [done |]; by apply writable_insert_ne)).
  rewrite !counter_insert_ne by done. reflexivity.
Qed.

(** Conversely, a write phase that reports no error found all three keys
    [writable]. *)
Lemma exec_write_inv rl now tokens db :
  cmdsFirstErr (exec_cmds (writeBatch rl now tokens) db).1 = None →
  writable db (minuteKey rl now) 1 ∧
  writable db (minuteTokenKey rl now) tokens ∧
  writable db (dayKey rl now) 1.
Proof.
  unfold writeBatch. intros H.
  pose proof (minuteKey_ne_minuteTokenKey rl now now) as N12.
  pose proof (minuteKey_ne_dayKey rl now now) as N13.
  pose proof (minuteTokenKey_ne_dayKey rl now now) as N23.
  rewrite exec_INCR in H.
  pose proof (incrby_no_error _ _ _ _ H) as H1.
  rewrite incrby_expire_writable in H by (done || reflexivity).
  destruct (exec_cmds _ _) as [rs2 db2] eqn:E2 in H. simpl in H.
  assert (cmdsFirstErr (exec_cmds (INCRBY (minuteTokenKey rl now) tokens
            :: EXPIRE (minuteTokenKey rl now) (2 * Minute)
            :: [INCR (dayKey rl now); EXPIRE (dayKey rl now) (25 * Hour)])
            (<[minuteKey rl now := mkEntry
                 (itoa (counter db (minuteKey rl now) + 1)) (Some (2 * Minute))]> db)).1
          = None) as H'.
  { rewrite E2. exact H. }
  clear H E2.
  pose proof (incrby_no_error _ _ _ _ H') as H2.
  rewrite incrby_expire_writable in H' by (done || reflexivity).
  destruct (exec_cmds _ _) as [rs3 db3] eqn:E3 in H'. simpl in H'.
  rewrite exec_INCR in E3.
  assert (cmdsFirstErr (exec_cmds (INCRBY (dayKey rl now) 1
            :: [EXPIRE (dayKey rl now) (25 * Hour)])
            (<[minuteTokenKey rl now := mkEntry
                 (itoa (counter (<[minuteKey rl now := mkEntry
                    (itoa (counter db (minuteKey rl now) + 1)) (Some (2 * Minute))]> db)
                    (minuteTokenKey rl now) + tokens)) (Some (2 * Minute))]>
             (<[minuteKey rl now := mkEntry
                 (itoa (counter db (minuteKey rl now) + 1)) (Some (2 * Minute))]> db))).1
          = None) as H''.
  { rewrite E3. exact H'. }
  pose proof (incrby_no_error _ _ _ _ H'') as H3.
  split; [done |]. split.
  - by eapply writable_of_insert_ne.
  - eapply writable_of_insert_ne; [| eapply writable_of_insert_ne; [| exact H3]]; done.
Qed.

(** ** [CheckAndIncrement], path by path *)

(** Runs the read phase of an entry point whose first round trip completes,
    and names what it read. *)
Ltac read_phase f Hnet :=
  unfold f, bind, Now;
  match goal with
  | rl : RateLimiter, w : World |- _ =>
      fold (minuteKey rl (clock w (ticks w)))
           (minuteTokenKey rl (clock w (ticks w)))
           (dayKey rl (clock w (ticks w)));
      unfold Exec; cbn [store clock ticks net trips wire];
      rewrite Hnet, ?exec_read; cbv beta iota;
      rewrite ?(parse_getReply _ _ _ _ 0%nat _ eq_refl),
              ?(parse_getReply _ _ _ _ 1%nat _ eq_refl),
              ?(parse_getReply _ _ _ _ 2%nat _ eq_refl)
  end.

Ltac benign_error :=
  match goal with
  | |- context [cmdsFirstErr [getReply ?db ?a; getReply ?db ?b; getReply ?db ?c]] =>
      destruct (read_error_benign db a b c) as [E | E]; rewrite E; clear E
  end.

Lemma CheckAndIncrement_read_fault rl tokens w f :
  net w (trips w) = Some f →
  let now := clock w (ticks w) in
  CheckAndIncrement rl tokens w =
  (Err (Errorf "failed to get current values" (NetError (cause f))),
   after w 1 [readBatch rl now] (store w)).
Proof.
  intros Hnet now. subst now. read_phase CheckAndIncrement Hnet.
  pose proof (exec_read_prefix (applied f) (minuteKey rl (clock w (ticks w)))
    (minuteTokenKey rl (clock w (ticks w))) (dayKey rl (clock w (ticks w)))
    (store w)) as Hdb.
  destruct (exec_cmds _ _) as [rs db]. simpl in Hdb. subst db. reflexivity.
Qed.

Lemma CheckAndIncrement_reject_minute rl tokens w :
  net w (trips w) = None →
  let now := clock w (ticks w) in
  RequestsPerMinute (config rl) <= counter (store w) (minuteKey rl now) →
  CheckAndIncrement rl tokens w =
  (Ok (mkCheckResult false
         (counter (store w) (minuteKey rl now))
         (counter (store w) (minuteTokenKey rl now))
         (counter (store w) (dayKey rl now))
         (Sub (minuteBoundary now) (clock w (S (ticks w)))) 0
         ("requests per minute limit exceeded ("
          +:+ itoa (counter (store w) (minuteKey rl now)) +:+ "/"
          +:+ itoa (RequestsPerMinute (config rl)) +:+ ")")),
   after w 2 [readBatch rl now] (store w)).
Proof.
  intros Hnet now Hr. subst now. apply Z.leb_le in Hr.
  read_phase CheckAndIncrement Hnet.
  benign_error; rewrite Hr; reflexivity.
Qed.

Lemma CheckAndIncrement_reject_tokens rl tokens w :
  net w (trips w) = None →
  let now := clock w (ticks w) in
  counter (store w) (minuteKey rl now) < RequestsPerMinute (config rl) →
  TokensPerMinute (config rl)
    < GoInt.add (counter (store w) (minuteTokenKey rl now)) tokens →
  CheckAndIncrement rl tokens w =
  (Ok (mkCheckResult false
         (counter (store w) (minuteKey rl now))
         (counter (store w) (minuteTokenKey rl now))
         (counter (store w) (dayKey rl now))
         (Sub (minuteBoundary now) (clock w (S (ticks w)))) 0
         ("tokens per minute limit exceeded ("
          +:+ itoa (counter (store w) (minuteTokenKey rl now)) +:+ "+"
          +:+ itoa tokens +:+ " > "
          +:+ itoa (TokensPerMinute (config rl)) +:+ ")")),
   after w 2 [readBatch rl now] (store w)).
Proof.
  intros Hnet now Hr Ht. subst now.
  apply Z.leb_gt in Hr. apply Z.ltb_lt in Ht.
  read_phase CheckAndIncrement Hnet.
  benign_error; rewrite Hr, Ht; reflexivity.
Qed.

Lemma CheckAndIncrement_reject_day rl tokens w :
  net w (trips w) = None →
  let now := clock w (ticks w) in
  counter (store w) (minuteKey rl now) < RequestsPerMinute (config rl) →
  GoInt.add (counter (store w) (minuteTokenKey rl now)) tokens
    <= TokensPerMinute (config rl) →
  RequestsPerDay (config rl) <= counter (store w) (dayKey rl now) →
  CheckAndIncrement rl tokens w =
  (Ok (mkCheckResult false
         (counter (store w) (minuteKey rl now))
         (counter (store w) (minuteTokenKey rl now))
         (counter (store w) (dayKey rl now))
         0 (Sub (dayBoundary now) (clock w (S (ticks w))))
         ("requests per day limit exceeded ("
          +:+ itoa (counter (store w) (dayKey rl now)) +:+ "/"
          +:+ itoa (RequestsPerDay (config rl)) +:+ ")")),
   after w 2 [readBatch rl now] (store w)).
Proof.
  intros Hnet now Hr Ht Hd. subst now.
  apply Z.leb_gt in Hr. apply Z.ltb_ge in Ht. apply Z.leb_le in Hd.
  read_phase CheckAndIncrement Hnet.
  benign_error; rewrite Hr, Ht, Hd; reflexivity.
Qed.

(** When no ceiling is hit the call goes on to the write phase, and its
    outcome is that of the second round trip. *)
Lemma CheckAndIncrement_pass rl tokens w :
  net w (trips w) = None →
  let now := clock w (ticks w) in
  counter (store w) (minuteKey rl now) < RequestsPerMinute (config rl) →
  GoInt.add (counter (store w) (minuteTokenKey rl now)) tokens
    <= TokensPerMinute (config rl) →
  counter (store w) (dayKey rl now) < RequestsPerDay (config rl) →
  CheckAndIncrement rl tokens w =
  match net w (S (trips w)) with
  | Some f =>
      (Err (Errorf "failed to increment counters" (NetError (cause f))),
       after w 1 [readBatch rl now; writeBatch rl now tokens]
         (exec_cmds (take (applied f) (writeBatch rl now tokens)) (store w)).2)
  | None =>
      match cmdsFirstErr (exec_cmds (writeBatch rl now tokens) (store w)).1 with
      | Some e =>
          (Err (Errorf "failed to increment counters" e),
           after w 1 [readBatch rl now; writeBatch rl now tokens]
             (exec_cmds (writeBatch rl now tokens) (store w)).2)
      | None =>
          (Ok (mkCheckResult true
                 (GoInt.add (counter (store w) (minuteKey rl now)) 1)
                 (GoInt.add (counter (store w) (minuteTokenKey rl now)) tokens)
                 (GoInt.add (counter (store w) (dayKey rl now)) 1)
                 (Sub (minuteBoundary now) (clock w (S (ticks w))))
                 (Sub (dayBoundary now) (clock w (S (S (ticks w)))))
                 ""),
           after w 3 [readBatch rl now; writeBatch rl now tokens]
             (exec_cmds (writeBatch rl now tokens) (store w)).2)
      end
  end.
Proof.
  intros Hnet now Hr Ht Hd. subst now.
  apply Z.leb_gt in Hr. apply Z.ltb_ge in Ht. apply Z.leb_gt in Hd.
  read_phase CheckAndIncrement Hnet.
  fold (writeBatch rl (clock w (ticks w)) tokens).
  benign_error; rewrite Hr, Ht, Hd; cbn [store clock ticks net trips wire].
  all: destruct (net w (S (trips w))) as [f |].
  all: destruct (exec_cmds _ (store w)) as [rs db]; cbn [fst snd].
  all: try (unfold after, readBatch; cbn [length Nat.add store clock ticks net trips wire];
            rewrite <- app_assoc; reflexivity).
  all: destruct (cmdsFirstErr rs);
    unfold after, readBatch, Until, bind, Now, ret;
    cbn [length Nat.add store clock ticks net trips wire];
    rewrite <- app_assoc; reflexivity.
Qed.

(** The outcome of a call that passes the three checks and whose write
    phase goes through: exact arithmetic, no wrap-around. *)
Lemma CheckAndIncrement_allowed rl tokens w :
  net w (trips w) = None →
  net w (S (trips w)) = None →
  let now := clock w (ticks w) in
  counter (store w) (minuteKey rl now) < RequestsPerMinute (config rl) →
  GoInt.add (counter (store w) (minuteTokenKey rl now)) tokens
    <= TokensPerMinute (config rl) →
  counter (store w) (dayKey rl now) < RequestsPerDay (config rl) →
  writable (store w) (minuteKey rl now) 1 →
  writable (store w) (minuteTokenKey rl now) tokens →
  writable (store w) (dayKey rl now) 1 →
  CheckAndIncrement rl tokens w =
  (Ok (mkCheckResult true
         (counter (store w) (minuteKey rl now) + 1)
         (counter (store w) (minuteTokenKey rl now) + tokens)
         (counter (store w) (dayKey rl now) + 1)
         (Sub (minuteBoundary now) (clock w (S (ticks w))))
         (Sub (dayBoundary now) (clock w (S (S (ticks w)))))
         ""),
   after w 3 [readBatch rl now; writeBatch rl now tokens]
     (written rl now tokens (store w))).
Proof.
  intros Hnet Hnet2 now Hr Ht Hd W1 W2 W3.
  rewrite CheckAndIncrement_pass by done. fold now. rewrite Hnet2.
  rewrite exec_write_ok by done. cbn [fst snd cmdsFirstErr reply_error].
  rewrite !add_exact by (apply W1 || apply W2 || apply W3). reflexivity.
Qed.

(** Every way in which a call can return a result: either a rejection,
    which leaves the store alone and sends nothing but the read batch, or
    an allowed call, which found the three keys [writable] and left the
    store [written]. *)
Lemma CheckAndIncrement_Ok_inv rl tokens w res w' :
  CheckAndIncrement rl tokens w = (Ok res, w') →
  let now := clock w (ticks w) in
  net w (trips w) = None ∧
  ((Allowed res = false ∧
    CurrentRequests res = counter (store w) (minuteKey rl now) ∧
    CurrentTokens res = counter (store w) (minuteTokenKey rl now) ∧
    CurrentDayReqs res = counter (store w) (dayKey rl now) ∧
    (RequestsPerMinute (config rl) <= counter (store w) (minuteKey rl now) ∨
     TokensPerMinute (config rl)
       < GoInt.add (counter (store w) (minuteTokenKey rl now)) tokens ∨
     RequestsPerDay (config rl) <= counter (store w) (dayKey rl now)) ∧
    w' = after w 2 [readBatch rl now] (store w))
   ∨
   (net w (S (trips w)) = None ∧
    counter (store w) (minuteKey rl now) < RequestsPerMinute (config rl) ∧
    GoInt.add (counter (store w) (minuteTokenKey rl now)) tokens
      <= TokensPerMinute (config rl) ∧
    counter (store w) (dayKey rl now) < RequestsPerDay (config rl) ∧
    writable (store w) (minuteKey rl now) 1 ∧
    writable (store w) (minuteTokenKey rl now) tokens ∧
    writable (store w) (dayKey rl now) 1 ∧
    res = mkCheckResult true
            (counter (store w) (minuteKey rl now) + 1)
            (counter (store w) (minuteTokenKey rl now) + tokens)
            (counter (store w) (dayKey rl now) + 1)
            (Sub (minuteBoundary now) (clock w (S (ticks w))))
            (Sub (dayBoundary now) (clock w (S (S (ticks w)))))
            "" ∧
    w' = after w 3 [readBatch rl now; writeBatch rl now tokens]
           (written rl now tokens (store w)))).
Proof.
  intros H now. subst now.
  destruct (net w (trips w)) as [f |] eqn:Hnet.
  { rewrite (CheckAndIncrement_read_fault _ _ _ _ Hnet) in H. discriminate H. }
  split; [reflexivity |].
  destruct (Z_le_gt_dec (RequestsPerMinute (config rl))
              (counter (store w) (minuteKey rl (clock w (ticks w))))) as [Hr | Hr].
  { rewrite CheckAndIncrement_reject_minute in H by done.
    injection H as <- <-. left. repeat split; auto. }
  destruct (Z_lt_ge_dec (TokensPerMinute (config rl))
              (GoInt.add (counter (store w) (minuteTokenKey rl (clock w (ticks w)))) tokens))
    as [Ht | Ht].
  { rewrite CheckAndIncrement_reject_tokens in H by (done || lia).
    injection H as <- <-. left. repeat split; auto. }
  destruct (Z_le_gt_dec (RequestsPerDay (config rl))
              (counter (store w) (dayKey rl (clock w (ticks w))))) as [Hd | Hd].
  { rewrite CheckAndIncrement_reject_day in H by (done || lia).
    injection H as <- <-. left. repeat split; auto. }
  right. rewrite CheckAndIncrement_pass in H by (done || lia).
  destruct (net w (S (trips w))) as [f |]; [discriminate H |].
  destruct (cmdsFirstErr _) eqn:E in H; [discriminate H |].
  apply exec_write_inv in E. destruct E as (W1 & W2 & W3).
  rewrite exec_write_ok in H by done. cbn [snd] in H.
  rewrite !add_exact in H by (apply W1 || apply W2 || apply W3).
  injection H as <- <-. repeat split; (done || lia || apply W1 || apply W2 || apply W3).
Qed.

(** ** [GetCurrentUsage] and [Reset] *)

Lemma GetCurrentUsage_ok rl w :
  net w (trips w) = None →
  let now := clock w (ticks w) in
  GetCurrentUsage rl w =
  (Ok (mkCheckResult false
         (counter (store w) (minuteKey rl now))
         (counter (store w) (minuteTokenKey rl now))
         (counter (store w) (dayKey rl now))
         (Sub (minuteBoundary now) (clock w (S (ticks w))))
         (Sub (dayBoundary now) (clock w (S (S (ticks w)))))
         ""),
   after w 3 [readBatch rl now] (store w)).
Proof.
  intros Hnet now. subst now. read_phase GetCurrentUsage Hnet.
  benign_error; reflexivity.
Qed.

Lemma GetCurrentUsage_fault rl w f :
  net w (trips w) = Some f →
  let now := clock w (ticks w) in
  GetCurrentUsage rl w =
  (Err (Errorf "failed to get usage" (NetError (cause f))),
   after w 1 [readBatch rl now] (store w)).
Proof.
  intros Hnet now. subst now. read_phase GetCurrentUsage Hnet.
  pose proof (exec_read_prefix (applied f) (minuteKey rl (clock w (ticks w)))
    (minuteTokenKey rl (clock w (ticks w))) (dayKey rl (clock w (ticks w)))
    (store w)) as Hdb.
  destruct (exec_cmds _ _) as [rs db]. simpl in Hdb. subst db. reflexivity.
Qed.

Lemma Reset_ok rl w :
  net w (trips w) = None →
  let now := clock w (ticks w) in
  Reset rl w =
  (None,
   after w 1 [[DEL [minuteKey rl now; minuteTokenKey rl now; dayKey rl now]]]
     (delete (minuteKey rl now)
        (delete (minuteTokenKey rl now) (delete (dayKey rl now) (store w))))).
Proof.
  intros Hnet now. subst now. unfold Reset, bind, Now, Exec.
  cbn [store clock ticks net trips wire]. rewrite Hnet. reflexivity.
Qed.

(** ** The store after a write phase *)

Lemma written_counters rl now tokens db :
  writable db (minuteKey rl now) 1 →
  writable db (minuteTokenKey rl now) tokens →
  writable db (dayKey rl now) 1 →
  counter (written rl now tokens db) (minuteKey rl now)
    = counter db (minuteKey rl now) + 1 ∧
  counter (written rl now tokens db) (minuteTokenKey rl now)
    = counter db (minuteTokenKey rl now) + tokens ∧
  counter (written rl now tokens db) (dayKey rl now)
    = counter db (dayKey rl now) + 1.
Proof.
  intros [_ W1] [_ W2] [_ W3]. unfold written.
  pose proof (minuteKey_ne_minuteTokenKey rl now now) as N12.
  pose proof (minuteKey_ne_dayKey rl now now) as N13.
  pose proof (minuteTokenKey_ne_dayKey rl now now) as N23.
  repeat split.
  - rewrite !counter_insert_ne by done. by apply counter_itoa.
  - rewrite counter_insert_ne by done. by apply counter_itoa.
  - by apply counter_itoa.
Qed.

Lemma written_other rl now tokens db k :
  k ≠ minuteKey rl now → k ≠ minuteTokenKey rl now → k ≠ dayKey rl now →
  written rl now tokens db !! k = db !! k.
Proof. intros. unfold written. by rewrite !lookup_insert_ne. Qed.

(** ** Window boundaries *)

Lemma Truncate_wall t d :
  0 < d → wall (Truncate t d) = wall t - (wall t + unixToInternal * Second) mod d.
Proof.
  intros Hd. unfold Truncate.
  destruct (d <=? 0) eqn:E; [apply Z.leb_le in E; lia | reflexivity].
Qed.

Lemma minuteBoundary_spec now :
  wall now < wall (minuteBoundary now) <= wall now + Minute ∧
  wall (minuteBoundary now) mod Minute = 0.
Proof.
  unfold minuteBoundary, Add. cbn [wall].
  rewrite Truncate_wall by reflexivity.
  change Minute with 60000000000.
  change (unixToInternal * Second) with 62135596800000000000.
  Z.div_mod_to_equations. lia.
Qed.

Lemma dayBoundary_spec now :
  wall now < wall (dayBoundary now) <= wall now + 24 * Hour ∧
  wall (dayBoundary now) mod (24 * Hour) = 0.
Proof.
  unfold dayBoundary, Add. cbn [wall].
  rewrite Truncate_wall by reflexivity.
  change (24 * Hour) with 86400000000000.
  change (unixToInternal * Second) with 62135596800000000000.
  Z.div_mod_to_equations. lia.
Qed.

(** When the read round trip completes, no read-phase error comes back. *)
Lemma no_read_error_when_read_completes rl tokens w :
  net w (trips w) = None →
  ∀ e, (CheckAndIncrement rl tokens w).1
         ≠ Err (Errorf "failed to get current values" e).
Proof.
  intros Hnet e.
  destruct (Z_le_gt_dec (RequestsPerMinute (config rl))
              (counter (store w) (minuteKey rl (clock w (ticks w))))) as [Hr | Hr].
  { by rewrite CheckAndIncrement_reject_minute. }
  destruct (Z_lt_ge_dec (TokensPerMinute (config rl))
              (GoInt.add (counter (store w) (minuteTokenKey rl (clock w (ticks w))))
                 tokens)) as [Ht | Ht].
  { by rewrite CheckAndIncrement_reject_tokens by (done || lia). }
  destruct (Z_le_gt_dec (RequestsPerDay (config rl))
              (counter (store w) (dayKey rl (clock w (ticks w))))) as [Hd | Hd].
  { by rewrite CheckAndIncrement_reject_day by (done || lia). }
  rewrite CheckAndIncrement_pass by (done || lia).
  destruct (net w (S (trips w))); [| destruct (cmdsFirstErr _)]; by cbn.
Qed.

(** * The specification, claim by claim *)

Ltac crunch :=
  vm_compute; repeat split; (reflexivity || discriminate || lia).

(** ** Ceiling evaluation *)

(** C1.  When the read phase completes, the three ceilings are evaluated in
    a fixed order and the first violation wins: the call is rejected for
    "requests per minute" when the minute count read is at or above its
    ceiling; otherwise for "tokens per minute" when the token count read
    plus the cost is strictly above its ceiling; otherwise for "requests
    per day" when the day count read is at or above its ceiling; otherwise
    it goes on to the write phase and is never rejected.  The sum is Go's
    [int] addition, which is the exact sum whenever that fits an [int].
    In particular a cost of exactly the remaining token budget is allowed,
    while a request count exactly at its ceiling is rejected. *)
Theorem ceilings_in_order_first_violation_wins rl tokens w :
  net w (trips w) = None →
  let now := clock w (ticks w) in
  let r := counter (store w) (minuteKey rl now) in
  let t := counter (store w) (minuteTokenKey rl now) in
  let d := counter (store w) (dayKey rl now) in
  let rpm := RequestsPerMinute (config rl) in
  let tpm := TokensPerMinute (config rl) in
  let rpd := RequestsPerDay (config rl) in
  let out := CheckAndIncrement rl tokens w in
  (rpm <= r →
     ∃ res, out.1 = Ok res ∧ Allowed res = false ∧
       RejectionReason res =
         "requests per minute limit exceeded (" +:+ itoa r +:+ "/" +:+ itoa rpm +:+ ")" ∧
       store out.2 = store w) ∧
  (r < rpm → tpm < GoInt.add t tokens →
     ∃ res, out.1 = Ok res ∧ Allowed res = false ∧
       RejectionReason res =
         "tokens per minute limit exceeded (" +:+ itoa t +:+ "+" +:+ itoa tokens
           +:+ " > " +:+ itoa tpm +:+ ")" ∧
       store out.2 = store w) ∧
  (r < rpm → GoInt.add t tokens <= tpm → rpd <= d →
     ∃ res, out.1 = Ok res ∧ Allowed res = false ∧
       RejectionReason res =
         "requests per day limit exceeded (" +:+ itoa d +:+ "/" +:+ itoa rpd +:+ ")" ∧
       store out.2 = store w) ∧
  (r < rpm → GoInt.add t tokens <= tpm → d < rpd →
     wire out.2 = (wire w ++ [readBatch rl now; writeBatch rl now tokens])%list ∧
     ∀ res, out.1 = Ok res → Allowed res = true) ∧
  (GoInt.in_int (t + tokens) → GoInt.add t tokens = t + tokens) ∧
  (r < rpm → d < rpd → tokens = tpm - t → GoInt.in_int tpm →
     net w (S (trips w)) = None →
     writable (store w) (minuteKey rl now) 1 →
     writable (store w) (minuteTokenKey rl now) tokens →
     writable (store w) (dayKey rl now) 1 →
     ∃ res, out.1 = Ok res ∧ Allowed res = true ∧ CurrentTokens res = tpm) ∧
  (r = rpm → ∃ res, out.1 = Ok res ∧ Allowed res = false).
Proof.
  intros Hnet now r t d rpm tpm rpd out.
  subst now r t d rpm tpm rpd out.
  repeat apply conj.
  - intros Hr. rewrite CheckAndIncrement_reject_minute by done.
    eexists. repeat split.
  - intros Hr Ht. rewrite CheckAndIncrement_reject_tokens by done.
    eexists. repeat split.
  - intros Hr Ht Hd. rewrite CheckAndIncrement_reject_day by done.
    eexists. repeat split.
  - intros Hr Ht Hd. rewrite CheckAndIncrement_pass by done.
    destruct (net w (S (trips w))); [| destruct (cmdsFirstErr _)];
      cbn [fst snd after wire]; (split; [reflexivity |]);
      intros res [= <-]; reflexivity.
  - apply add_exact.
  - intros Hr Hd -> Htpm Hnet2 W1 W2 W3.
    assert (GoInt.add (counter (store w) (minuteTokenKey rl (clock w (ticks w))))
              (TokensPerMinute (config rl)
               - counter (store w) (minuteTokenKey rl (clock w (ticks w))))
            = TokensPerMinute (config rl)) as Hsum.
    { rewrite add_exact; [lia |].
      by replace (_ + (_ - _)) with (TokensPerMinute (config rl)) by lia. }
    rewrite CheckAndIncrement_allowed by (done || lia).
    eexists. split; [reflexivity |]. cbn [CurrentTokens Allowed].
    split; [reflexivity | lia].
  - intros Hr. rewrite CheckAndIncrement_reject_minute by (done || lia).
    eexists. repeat split.
Qed.

(** With 30 of 50 tokens and 1 of 2 requests used, a call costing exactly
    the remaining 20 tokens is allowed. *)
Lemma ceilings_in_order_first_violation_wins_witness :
  net (exampleWorld (exampleStore "1" "30" "1")) 0%nat = None ∧
  ∃ res,
    (CheckAndIncrement (New (mkConfig 2 50 100)) 20
       (exampleWorld (exampleStore "1" "30" "1"))).1 = Ok res ∧
    Allowed res = true ∧ CurrentTokens res = 50.
Proof.
  split; [reflexivity |].
  pose proof (ceilings_in_order_first_violation_wins
                (New (mkConfig 2 50 100)) 20
                (exampleWorld (exampleStore "1" "30" "1")) eq_refl) as H.
  cbv zeta in H. destruct H as (_ & _ & _ & _ & _ & H & _).
  apply H; crunch.
Defined.
(** ** The result of an allowed call *)



(** ** Store failures *)

(** C4.  A round trip that does not complete makes the call return an
    error and no result, with the cause wrapped: in the read phase
    "failed to get current values", in the write phase (reached when no
    ceiling is hit) "failed to increment counters".  Absent keys are not
    errors: when the read round trip completes the call never returns a
    read-phase error, and on three absent keys with completing round trips
    and an [int32] cost it returns a result. *)
Theorem store_failure_is_returned_as_error rl tokens w :
  (∀ f, net w (trips w) = Some f →
     (CheckAndIncrement rl tokens w).1
       = Err (Errorf "failed to get current values" (NetError (cause f)))) ∧
  (∀ f, net w (trips w) = None → net w (S (trips w)) = Some f →
     let now := clock w (ticks w) in
     counter (store w) (minuteKey rl now) < RequestsPerMinute (config rl) →
     GoInt.add (counter (store w) (minuteTokenKey rl now)) tokens
       <= TokensPerMinute (config rl) →
     counter (store w) (dayKey rl now) < RequestsPerDay (config rl) →
     (CheckAndIncrement rl tokens w).1
       = Err (Errorf "failed to increment counters" (NetError (cause f)))) ∧
  (net w (trips w) = None →
     ∀ e, (CheckAndIncrement rl tokens w).1
            ≠ Err (Errorf "failed to get current values" e)) ∧
  (net w (trips w) = None → net w (S (trips w)) = None →
     let now := clock w (ticks w) in
     store w !! minuteKey rl now = None →
     store w !! minuteTokenKey rl now = None →
     store w !! dayKey rl now = None →
     GoInt.in_int32 tokens →
     ∃ res, (CheckAndIncrement rl tokens w).1 = Ok res).
Proof.
  repeat apply conj.
  - intros f Hnet. by rewrite (CheckAndIncrement_read_fault _ _ _ _ Hnet).
  - intros f Hnet Hnet2 now Hr Ht Hd. subst now.
    rewrite CheckAndIncrement_pass by done. rewrite Hnet2. reflexivity.
  - apply no_read_error_when_read_completes.
  - intros Hnet Hnet2 now A1 A2 A3 Htok. subst now.
    assert (∀ k delta, store w !! k = None → GoInt.in_int delta →
            writable (store w) k delta) as Hw.
    { intros k delta Hk Hdelta. unfold writable.
      rewrite (counter_absent _ _ Hk), Hk. split; [reflexivity | done]. }
    assert (GoInt.in_int tokens) as Htok'.
    { unfold GoInt.in_int32, GoInt.in_int, GoInt.min_int, GoInt.max_int in *. lia. }
    destruct (Z_le_gt_dec (RequestsPerMinute (config rl))
                (counter (store w) (minuteKey rl (clock w (ticks w))))) as [Hr | Hr].
    { rewrite CheckAndIncrement_reject_minute by done. eauto. }
    destruct (Z_lt_ge_dec (TokensPerMinute (config rl))
                (GoInt.add (counter (store w) (minuteTokenKey rl (clock w (ticks w))))
                   tokens)) as [Ht | Ht].
    { rewrite CheckAndIncrement_reject_tokens by (done || lia). eauto. }
    destruct (Z_le_gt_dec (RequestsPerDay (config rl))
                (counter (store w) (dayKey rl (clock w (ticks w))))) as [Hd | Hd].
    { rewrite CheckAndIncrement_reject_day by (done || lia). eauto. }
    rewrite CheckAndIncrement_allowed; [eauto | try done; try lia ..].
    all: apply Hw; try done; by apply in_intb_true.
Qed.

(** The connection drops on the first round trip. *)
Lemma store_failure_is_returned_as_error_witness :
  (CheckAndIncrement (New (mkConfig 2 1000 100)) 10
     (mkWorld ∅ (steadyClock exampleNow) 0
        (λ n, if Nat.eqb n 0 then Some (mkFault 0 "i/o timeout") else None)
        0 [])).1
  = Err (Errorf "failed to get current values" (NetError "i/o timeout")).
Proof.
  exact (proj1 (store_failure_is_returned_as_error
                  (New (mkConfig 2 1000 100)) 10
                  (mkWorld ∅ (steadyClock exampleNow) 0
                     (λ n, if Nat.eqb n 0 then Some (mkFault 0 "i/o timeout")
                           else None) 0 []))
               (mkFault 0 "i/o timeout") eq_refl).
Defined.

(** ** Absent keys and malformed values *)

(** C5.  [parseIntOrZero] maps the empty string and every string that
    [strconv.Atoi] refuses to 0, so the read phase reads an absent key, and
    a key whose stored value does not parse, as 0.  With such values in the
    store and the read round trip completing, [GetCurrentUsage] returns a
    result showing what the read phase made of each key, and
    [CheckAndIncrement] never returns a read-phase error: whenever it
    returns a result, the counters of a rejection are the values so read,
    and those of an allowed call are these values plus the increments. *)
Theorem absent_and_malformed_read_as_zero :
  parseIntOrZero "" = 0 ∧
  (∀ s, Atoi s = None → parseIntOrZero s = 0) ∧
  (∀ (db : gmap string Entry) k, db !! k = None → counter db k = 0) ∧
  (∀ (db : gmap string Entry) k e,
     db !! k = Some e → Atoi (value e) = None → counter db k = 0) ∧
  (∀ rl w, net w (trips w) = None →
     let now := clock w (ticks w) in
     ∃ res, (GetCurrentUsage rl w).1 = Ok res ∧
       CurrentRequests res = counter (store w) (minuteKey rl now) ∧
       CurrentTokens res = counter (store w) (minuteTokenKey rl now) ∧
       CurrentDayReqs res = counter (store w) (dayKey rl now)) ∧
  (∀ rl tokens w, net w (trips w) = None →
     let now := clock w (ticks w) in
     (∀ e, (CheckAndIncrement rl tokens w).1
             ≠ Err (Errorf "failed to get current values" e)) ∧
     (∀ res, (CheckAndIncrement rl tokens w).1 = Ok res →
        let inc (delta : Z) := if Allowed res then delta else 0 in
        CurrentRequests res = counter (store w) (minuteKey rl now) + inc 1 ∧
        CurrentTokens res
          = counter (store w) (minuteTokenKey rl now) + inc tokens ∧
        CurrentDayReqs res = counter (store w) (dayKey rl now) + inc 1)).
Proof.
  repeat apply conj.
  - reflexivity.
  - intros s Hs. unfold parseIntOrZero. rewrite Hs. by destruct (String.eqb s "").
  - apply counter_absent.
  - intros db k e Hk He. unfold counter, parseIntOrZero. rewrite Hk. cbn.
    rewrite He. by destruct (String.eqb _ _).
  - intros rl w Hnet now. subst now. rewrite GetCurrentUsage_ok by done.
    eexists. repeat split.
  - intros rl tokens w Hnet now. subst now. split.
    + by apply no_read_error_when_read_completes.
    + intros res Hres.
      destruct (CheckAndIncrement rl tokens w) as [out w'] eqn:E.
      cbn in Hres. subst out. apply CheckAndIncrement_Ok_inv in E.
      destruct E as [_ [(Ha & H1 & H2 & H3 & _)
                       | (_ & _ & _ & _ & _ & _ & _ & -> & _)]].
      * cbv beta zeta. rewrite Ha, H1, H2, H3. cbv iota. lia.
      * cbn. done.
Qed.

(** A store whose minute counter holds ["abc"], whose token counter holds
    the empty string and whose day key is absent. *)
Lemma absent_and_malformed_read_as_zero_witness :
  ∃ res,
    (GetCurrentUsage (New (mkConfig 10 100 50))
       (exampleWorld
          (<[ "gemini:ratelimit:minute:2024-11-25:23:30" := mkEntry "abc" None ]>
           (<[ "gemini:ratelimit:tokens:minute:2024-11-25:23:30" :=
                 mkEntry "" None ]> ∅)))).1 = Ok res ∧
    CurrentRequests res = 0 ∧ CurrentTokens res = 0 ∧ CurrentDayReqs res = 0.
Proof.
  destruct absent_and_malformed_read_as_zero as (_ & _ & _ & _ & H & _).
  destruct (H (New (mkConfig 10 100 50))
              (exampleWorld
                 (<[ "gemini:ratelimit:minute:2024-11-25:23:30" := mkEntry "abc" None ]>
                  (<[ "gemini:ratelimit:tokens:minute:2024-11-25:23:30" :=
                        mkEntry "" None ]> ∅))) eq_refl)
    as (res & E & H1 & H2 & H3).
  exists res. split; [exact E |]. rewrite H1, H2, H3. crunch.
Defined.

(** ** Negative token costs *)

(** C10.  Nothing in [CheckAndIncrement] refuses a negative cost.  When the
    round trips complete, the counters read are within the three ceilings
    (the token count at or below its ceiling) and the store holds integers
    that the increments keep within 64 bits, a call with a negative cost is
    allowed, the stored minute-token counter is increased by that negative
    cost, that is decreased, and the returned [CurrentTokens] is the lower
    value. *)
Theorem negative_cost_is_allowed_and_lowers_tokens rl tokens w :
  net w (trips w) = None →
  net w (S (trips w)) = None →
  tokens < 0 →
  let now := clock w (ticks w) in
  let t := counter (store w) (minuteTokenKey rl now) in
  counter (store w) (minuteKey rl now) < RequestsPerMinute (config rl) →
  t <= TokensPerMinute (config rl) →
  counter (store w) (dayKey rl now) < RequestsPerDay (config rl) →
  writable (store w) (minuteKey rl now) 1 →
  writable (store w) (minuteTokenKey rl now) tokens →
  writable (store w) (dayKey rl now) 1 →
  ∃ res w',
    CheckAndIncrement rl tokens w = (Ok res, w') ∧
    Allowed res = true ∧
    CurrentTokens res = t + tokens ∧ CurrentTokens res < t ∧
    counter (store w') (minuteTokenKey rl now) = t + tokens ∧
    counter (store w') (minuteTokenKey rl now) < t.
Proof.
  intros Hnet Hnet2 Hneg now t Hr Ht Hd W1 W2 W3. subst now t.
  assert (GoInt.add (counter (store w) (minuteTokenKey rl (clock w (ticks w)))) tokens
          = counter (store w) (minuteTokenKey rl (clock w (ticks w))) + tokens) as Hsum.
  { apply add_exact, W2. }
  rewrite CheckAndIncrement_allowed by (done || lia).
  eexists _, _. split; [reflexivity |].
  cbn [Allowed CurrentTokens after store].
  destruct (written_counters rl (clock w (ticks w)) tokens (store w) W1 W2 W3)
    as (_ & -> & _).
  repeat split; lia.
Qed.

(** Forty tokens on the counter, then a call costing -5. *)
Lemma negative_cost_is_allowed_and_lowers_tokens_witness :
  ∃ res w',
    CheckAndIncrement (New (mkConfig 10 100 50)) (-5)
      (exampleWorld (exampleStore "2" "40" "2")) = (Ok res, w') ∧
    Allowed res = true ∧ CurrentTokens res = 35 ∧
    counter (store w') "gemini:ratelimit:tokens:minute:2024-11-25:23:30" = 35.
Proof.
  pose proof (negative_cost_is_allowed_and_lowers_tokens
                (New (mkConfig 10 100 50)) (-5)
                (exampleWorld (exampleStore "2" "40" "2"))) as H.
  cbv zeta in H.
  do 9 (let P := match type of H with ?P → _ => P end in
        assert P as HP by crunch; specialize (H HP); clear HP).
  destruct H as (res & w' & E & Ha & H1 & _ & H2 & _).
  exists res, w'. split; [exact E |]. split; [exact Ha |].
  split; [rewrite H1; crunch |].
  assert ("gemini:ratelimit:tokens:minute:2024-11-25:23:30"
          = minuteTokenKey (New (mkConfig 10 100 50))
              (clock (exampleWorld (exampleStore "2" "40" "2"))
                 (ticks (exampleWorld (exampleStore "2" "40" "2"))))) as ->
    by (vm_compute; reflexivity).
  rewrite H2. crunch.
Defined.

(** ** Windows *)

Lemma sameWindows_keys rl clk now i :
  sameWindows clk now →
  minuteKey rl (clk i) = minuteKey rl now ∧
  minuteTokenKey rl (clk i) = minuteTokenKey rl now ∧
  dayKey rl (clk i) = dayKey rl now.
Proof.
  intros H. destruct (H i) as [Hm Hd].
  unfold minuteKey, minuteTokenKey, dayKey. by rewrite Hm, Hd.
Qed.

(** ** [Reset] *)

(** C9.  When its round trip completes, [Reset] succeeds whether or not
    the keys exist, sends a single [DEL] of the three keys of the current
    minute and day windows, leaves those three keys absent and every other
    key as it was, and a [GetCurrentUsage] that follows in the same windows
    reports three zero counters. *)
Theorem reset_clears_current_windows rl w :
  net w (trips w) = None →
  let now := clock w (ticks w) in
  let out := Reset rl w in
  out.1 = None ∧
  wire out.2
    = (wire w ++ [[DEL [minuteKey rl now; minuteTokenKey rl now; dayKey rl now]]])%list ∧
  store out.2 !! minuteKey rl now = None ∧
  store out.2 !! minuteTokenKey rl now = None ∧
  store out.2 !! dayKey rl now = None ∧
  (∀ k, k ≠ minuteKey rl now → k ≠ minuteTokenKey rl now → k ≠ dayKey rl now →
        store out.2 !! k = store w !! k) ∧
  (net w (S (trips w)) = None →
   sameWindows (clock w) now →
   ∃ res, (GetCurrentUsage rl out.2).1 = Ok res ∧
     CurrentRequests res = 0 ∧ CurrentTokens res = 0 ∧ CurrentDayReqs res = 0).
Proof.
  intros Hnet now out. subst out now. rewrite Reset_ok by done.
  cbn [fst snd after store wire].
  set (now := clock w (ticks w)).
  pose proof (minuteKey_ne_minuteTokenKey rl now now) as N12.
  pose proof (minuteKey_ne_dayKey rl now now) as N13.
  pose proof (minuteTokenKey_ne_dayKey rl now now) as N23.
  assert (∀ k, k = minuteKey rl now ∨ k = minuteTokenKey rl now ∨ k = dayKey rl now →
          delete (minuteKey rl now) (delete (minuteTokenKey rl now)
            (delete (dayKey rl now) (store w))) !! k = None) as Hgone.
  { intros k Hk. rewrite !lookup_delete.
    repeat case_decide; try reflexivity.
    exfalso. destruct Hk as [Hk | [Hk | Hk]]; congruence. }
  repeat apply conj; try reflexivity; try (apply Hgone; auto).
  - intros k ? ? ?. by rewrite !lookup_delete_ne.
  - intros Hnet2 Hsame.
    rewrite GetCurrentUsage_ok by done.
    cbn [fst after store ticks Nat.add clock CurrentRequests CurrentTokens
         CurrentDayReqs].
    destruct (sameWindows_keys rl (clock w) now (S (ticks w)) Hsame)
      as (-> & -> & ->).
    eexists. split; [reflexivity |]. cbn [CurrentRequests CurrentTokens CurrentDayReqs].
    repeat split; apply counter_absent, Hgone; auto.
Qed.

(** One allowed call, then [Reset], then [GetCurrentUsage]. *)
Lemma reset_clears_current_windows_witness :
  ∃ res,
    (GetCurrentUsage (New (mkConfig 10 100 50))
       (Reset (New (mkConfig 10 100 50))
          (exampleWorld (exampleStore "1" "20" "1"))).2).1 = Ok res ∧
    CurrentRequests res = 0 ∧ CurrentTokens res = 0 ∧ CurrentDayReqs res = 0.
Proof.
  pose proof (reset_clears_current_windows (New (mkConfig 10 100 50))
                (exampleWorld (exampleStore "1" "20" "1")) eq_refl) as H.
  cbv zeta in H. destruct H as (_ & _ & _ & _ & _ & _ & H).
  apply H; [reflexivity |]. intros i. split; reflexivity.
Defined.

(** ** [GetCurrentUsage] *)

(** What one [GetCurrentUsage] does to the world, whatever the fate of its
    round trip: the store, the clock and the network are as before, and a
    single batch of three [GET]s has gone over the wire. *)
Lemma GetCurrentUsage_frame rl w :
  let out := GetCurrentUsage rl w in
  store out.2 = store w ∧ clock out.2 = clock w ∧ net out.2 = net w ∧
  trips out.2 = S (trips w) ∧ (ticks w < ticks out.2)%nat ∧
  wire out.2 = (wire w ++ [readBatch rl (clock w (ticks w))])%list.
Proof.
  cbv zeta. destruct (net w (trips w)) as [f |] eqn:Hnet.
  - rewrite (GetCurrentUsage_fault _ _ _ Hnet). cbn. repeat split; lia.
  - rewrite GetCurrentUsage_ok by done. cbn. repeat split; lia.
Qed.

Lemma GetCurrentUsageTimes_frame rl n w :
  let out := GetCurrentUsageTimes rl n w in
  store out.2 = store w ∧ clock out.2 = clock w ∧ net out.2 = net w ∧
  length out.1 = n.
Proof.
  revert w. induction n as [| n IH]; intros w; [done |].
  cbn [GetCurrentUsageTimes]. unfold bind.
  destruct (GetCurrentUsage_frame rl w) as (Hs & Hc & Hn & _).
  destruct (GetCurrentUsage rl w) as [r w1]. cbn [fst snd] in *.
  destruct (IH w1) as (Hs' & Hc' & Hn' & Hl).
  destruct (GetCurrentUsageTimes rl n w1) as [rs w2]. cbn [fst snd ret] in *.
  repeat split; [congruence .. | cbn [length]; by rewrite Hl].
Qed.

(** In fixed windows every usage call that returns a result returns the
    same readings: those of the store as it was before the first call. *)
Lemma GetCurrentUsageTimes_readings rl n w now :
  sameWindows (clock w) now →
  Forall (λ r, ∀ res, r = Ok res →
            Allowed res = false ∧
            CurrentRequests res = counter (store w) (minuteKey rl now) ∧
            CurrentTokens res = counter (store w) (minuteTokenKey rl now) ∧
            CurrentDayReqs res = counter (store w) (dayKey rl now))
         (GetCurrentUsageTimes rl n w).1.
Proof.
  revert w. induction n as [| n IH]; intros w Hsame; [constructor |].
  cbn [GetCurrentUsageTimes]. unfold bind.
  destruct (GetCurrentUsage_frame rl w) as (Hs & Hc & Hn & _).
  destruct (GetCurrentUsage rl w) as [r w1] eqn:E. cbn [fst snd] in *.
  assert (sameWindows (clock w1) now) as Hsame1 by (by rewrite Hc).
  specialize (IH w1 Hsame1). rewrite Hs in IH.
  destruct (GetCurrentUsageTimes rl n w1) as [rs w2]. cbn [fst snd ret] in *.
  constructor; [| exact IH].
  intros res ->.
  destruct (net w (trips w)) as [f |] eqn:Hnet.
  { rewrite (GetCurrentUsage_fault _ _ _ Hnet) in E. discriminate E. }
  rewrite GetCurrentUsage_ok in E by done. injection E as <- _.
  destruct (sameWindows_keys rl (clock w) now (ticks w) Hsame) as (-> & -> & ->).
  done.
Qed.

Lemma GetCurrentUsageTimes_total rl n w :
  (∀ i, net w i = None) →
  Forall (λ r, isOk r = true) (GetCurrentUsageTimes rl n w).1.
Proof.
  revert w. induction n as [| n IH]; intros w Hquiet; [constructor |].
  cbn [GetCurrentUsageTimes]. unfold bind.
  destruct (GetCurrentUsage_frame rl w) as (_ & _ & Hn & _).
  destruct (GetCurrentUsage rl w) as [r w1] eqn:E. cbn [fst snd] in *.
  assert (∀ i, net w1 i = None) as Hquiet1 by (by rewrite Hn).
  specialize (IH w1 Hquiet1).
  destruct (GetCurrentUsageTimes rl n w1) as [rs w2]. cbn [fst snd ret] in *.
  constructor; [| exact IH].
  rewrite GetCurrentUsage_ok in E by done. by injection E as <- _.
Qed.

(** The outcome of [CheckAndIncrement], and the store it leaves, do not
    depend on what went over the wire before. *)
Lemma CheckAndIncrement_rewire rl tokens l w :
  (CheckAndIncrement rl tokens (rewire l w)).1 = (CheckAndIncrement rl tokens w).1 ∧
  store (CheckAndIncrement rl tokens (rewire l w)).2
    = store (CheckAndIncrement rl tokens w).2.
Proof.
  set (w1 := rewire l w).
  destruct (net w (trips w)) as [f |] eqn:Hnet.
  { rewrite (CheckAndIncrement_read_fault rl tokens w f Hnet).
    by rewrite (CheckAndIncrement_read_fault rl tokens w1 f Hnet). }
  destruct (Z_le_gt_dec (RequestsPerMinute (config rl))
              (counter (store w) (minuteKey rl (clock w (ticks w))))) as [Hr | Hr].
  { rewrite (CheckAndIncrement_reject_minute rl tokens w Hnet Hr).
    by rewrite (CheckAndIncrement_reject_minute rl tokens w1 Hnet Hr). }
  apply Z.gt_lt in Hr.
  destruct (Z_lt_ge_dec (TokensPerMinute (config rl))
              (GoInt.add (counter (store w) (minuteTokenKey rl (clock w (ticks w))))
                 tokens)) as [Ht | Ht].
  { rewrite (CheckAndIncrement_reject_tokens rl tokens w Hnet Hr Ht).
    by rewrite (CheckAndIncrement_reject_tokens rl tokens w1 Hnet Hr Ht). }
  apply Z.ge_le in Ht.
  destruct (Z_le_gt_dec (RequestsPerDay (config rl))
              (counter (store w) (dayKey rl (clock w (ticks w))))) as [Hd | Hd].
  { rewrite (CheckAndIncrement_reject_day rl tokens w Hnet Hr Ht Hd).
    by rewrite (CheckAndIncrement_reject_day rl tokens w1 Hnet Hr Ht Hd). }
  apply Z.gt_lt in Hd.
  rewrite (CheckAndIncrement_pass rl tokens w Hnet Hr Ht Hd).
  rewrite (CheckAndIncrement_pass rl tokens w1 Hnet Hr Ht Hd).
  subst w1. cbn [rewire store clock ticks net trips].
  destruct (net w (S (trips w))); [done |].
  by destruct (cmdsFirstErr _).
Qed.

(** C6.  [GetCurrentUsage] writes nothing: whatever the fate of its round
    trip the store is as before, and the only thing it sends is one batch
    of three [GET]s.  When the round trip completes it returns the three
    counters read, [Allowed] at its zero value [false], and both reset
    durations.  Any number of calls in a row leave the store as it was; in
    fixed windows every one of them that returns a result returns the same
    counter readings, and with completing round trips all of them do.  A
    [CheckAndIncrement] that follows has the outcome, and leaves the store,
    that it would have had on the store as it was before the usage calls,
    at the same point of the clock and of the network. *)
Theorem usage_never_mutates rl w :
  let now := clock w (ticks w) in
  store (GetCurrentUsage rl w).2 = store w ∧
  wire (GetCurrentUsage rl w).2
    = (wire w ++ [[GET (minuteKey rl now); GET (minuteTokenKey rl now);
                   GET (dayKey rl now)]])%list ∧
  (net w (trips w) = None →
     ∃ res, (GetCurrentUsage rl w).1 = Ok res ∧ Allowed res = false ∧
       CurrentRequests res = counter (store w) (minuteKey rl now) ∧
       CurrentTokens res = counter (store w) (minuteTokenKey rl now) ∧
       CurrentDayReqs res = counter (store w) (dayKey rl now) ∧
       ResetMinute res = Sub (minuteBoundary now) (clock w (S (ticks w))) ∧
       ResetDay res = Sub (dayBoundary now) (clock w (S (S (ticks w))))) ∧
  (∀ n, store (GetCurrentUsageTimes rl n w).2 = store w) ∧
  (∀ n, sameWindows (clock w) now →
     Forall (λ r, ∀ res, r = Ok res →
               Allowed res = false ∧
               CurrentRequests res = counter (store w) (minuteKey rl now) ∧
               CurrentTokens res = counter (store w) (minuteTokenKey rl now) ∧
               CurrentDayReqs res = counter (store w) (dayKey rl now))
            (GetCurrentUsageTimes rl n w).1) ∧
  (∀ n, (∀ i, net w i = None) →
     length (GetCurrentUsageTimes rl n w).1 = n ∧
     Forall (λ r, isOk r = true) (GetCurrentUsageTimes rl n w).1) ∧
  (∀ n tokens,
     let w1 := (GetCurrentUsageTimes rl n w).2 in
     let w0 := mkWorld (store w) (clock w) (ticks w1) (net w) (trips w1) (wire w) in
     (CheckAndIncrement rl tokens w1).1 = (CheckAndIncrement rl tokens w0).1 ∧
     store (CheckAndIncrement rl tokens w1).2
       = store (CheckAndIncrement rl tokens w0).2).
Proof.
  intros now. subst now. repeat apply conj.
  - apply GetCurrentUsage_frame.
  - apply GetCurrentUsage_frame.
  - intros Hnet. rewrite GetCurrentUsage_ok by done. eexists. repeat split.
  - intros n. apply GetCurrentUsageTimes_frame.
  - intros n. apply GetCurrentUsageTimes_readings.
  - intros n Hquiet. split.
    + apply GetCurrentUsageTimes_frame.
    + by apply GetCurrentUsageTimes_total.
  - intros n tokens w1 w0.
    destruct (GetCurrentUsageTimes_frame rl n w) as (Hs & Hc & Hn & _).
    fold w1 in Hs, Hc, Hn.
    assert (w1 = rewire (wire w1) w0) as ->.
    { subst w0. destruct w1. cbn in *. by subst. }
    apply CheckAndIncrement_rewire.
Qed.

(** Five usage calls after two allowed requests. *)
Lemma usage_never_mutates_witness :
  store (GetCurrentUsageTimes (New (mkConfig 10 100 50)) 5
           (exampleWorld (exampleStore "2" "50" "2"))).2
  = exampleStore "2" "50" "2".
Proof.
  pose proof (usage_never_mutates (New (mkConfig 10 100 50))
                (exampleWorld (exampleStore "2" "50" "2"))) as H.
  cbv zeta in H. destruct H as (_ & _ & _ & H & _).
  exact (H 5%nat).
Defined.

(** ** Sequences of calls by one caller *)




Lemma canonical_written rl now tokens db :
  writable db (minuteKey rl now) 1 →
  writable db (minuteTokenKey rl now) tokens →
  writable db (dayKey rl now) 1 →
  canonical (written rl now tokens db) (minuteKey rl now) ∧
  canonical (written rl now tokens db) (minuteTokenKey rl now) ∧
  canonical (written rl now tokens db) (dayKey rl now).
Proof.
  intros W1 W2 W3.
  destruct (written_counters _ _ _ _ W1 W2 W3) as (C1 & C2 & C3).
  unfold canonical. rewrite C1, C2, C3. unfold written.
  pose proof (minuteKey_ne_minuteTokenKey rl now now) as N12.
  pose proof (minuteKey_ne_dayKey rl now now) as N13.
  pose proof (minuteTokenKey_ne_dayKey rl now now) as N23.
  repeat split.
  - rewrite !lookup_insert_ne, lookup_insert_eq by done. apply string2ll_itoa, W1.
  - rewrite lookup_insert_ne, lookup_insert_eq by done. apply string2ll_itoa, W2.
  - rewrite lookup_insert_eq. apply string2ll_itoa, W3.
Qed.

(** With completing round trips, [int32] costs and fewer than 2^32 calls
    on counters that start as integers, every call returns a result: no
    counter can leave the 64-bit range. *)
Lemma CheckAndIncrementAll_total rl now costs w m :
  sameWindows (clock w) now →
  (∀ i, net w i = None) →
  Forall GoInt.in_int32 costs →
  0 <= m → m + Z.of_nat (length costs) < 2 ^ 32 →
  boundedCounters rl now (store w) m →
  Forall (λ r, isOk r = true) (CheckAndIncrementAll rl costs w).1.
Proof.
  revert w m. induction costs as [| c costs IH]; intros w m Hsame Hquiet Hc Hm Hlen Hb.
  { constructor. }
  apply Forall_cons in Hc as [Hc Hcs]. cbn [length] in Hlen.
  cbn [CheckAndIncrementAll]. unfold bind.
  destruct (sameWindows_keys rl (clock w) now (ticks w) Hsame) as (K1 & K2 & K3).
  destruct Hb as (B1 & B2 & B3 & M1 & M2 & M3).
  assert (writable (store w) (minuteKey rl now) 1 ∧
          writable (store w) (minuteTokenKey rl now) c ∧
          writable (store w) (dayKey rl now) 1) as (W1 & W2 & W3).
  { unfold writable, GoInt.in_int, GoInt.min_int, GoInt.max_int, GoInt.in_int32 in *.
    repeat split; (done || lia). }
  assert (∃ res w1, CheckAndIncrement rl c w = (Ok res, w1) ∧
            clock w1 = clock w ∧ net w1 = net w ∧
            boundedCounters rl now (store w1) (m + 1)) as (res & w1 & E & Hc1 & Hn1 & Hb1).
  { destruct (Z_le_gt_dec (RequestsPerMinute (config rl))
                (counter (store w) (minuteKey rl (clock w (ticks w))))) as [Hr | Hr].
    { rewrite CheckAndIncrement_reject_minute by done.
      eexists _, _. split; [reflexivity |]. cbn [after store clock net].
      unfold boundedCounters. repeat split; (done || lia). }
    destruct (Z_lt_ge_dec (TokensPerMinute (config rl))
                (GoInt.add (counter (store w) (minuteTokenKey rl (clock w (ticks w))))
                   c)) as [Ht | Ht].
    { rewrite CheckAndIncrement_reject_tokens by (done || lia).
      eexists _, _. split; [reflexivity |]. cbn [after store clock net].
      unfold boundedCounters. repeat split; (done || lia). }
    destruct (Z_le_gt_dec (RequestsPerDay (config rl))
                (counter (store w) (dayKey rl (clock w (ticks w))))) as [Hd | Hd].
    { rewrite CheckAndIncrement_reject_day by (done || lia).
      eexists _, _. split; [reflexivity |]. cbn [after store clock net].
      unfold boundedCounters. repeat split; (done || lia). }
    rewrite CheckAndIncrement_allowed;
      [| done | done | lia | lia | lia | by rewrite K1 | by rewrite K2 | by rewrite K3].
    eexists _, _. split; [reflexivity |]. cbn [after store clock net].
    assert (written rl (clock w (ticks w)) c (store w) = written rl now c (store w))
      as -> by (unfold written; by rewrite K1, K2, K3).
    destruct (written_counters rl now c (store w) W1 W2 W3) as (C1 & C2 & C3).
    destruct (canonical_written rl now c (store w) W1 W2 W3) as (D1 & D2 & D3).
    unfold boundedCounters. rewrite C1, C2, C3.
    unfold GoInt.in_int32 in Hc. repeat split; (done || lia). }
  rewrite E.
  assert (Forall (λ r, isOk r = true) (CheckAndIncrementAll rl costs w1).1) as Hrest.
  { apply (IH w1 (m + 1)); try done; try lia.
    - by rewrite Hc1.
    - by rewrite Hn1. }
  destruct (CheckAndIncrementAll rl costs w1) as [rs w2]. cbn [fst snd ret] in *.
  by constructor.
Qed.



(** ** The calendar *)

Lemma civil_from_days_eq D :
  civil_from_days D =
  let era := (D + 719468) / 146097 in
  let doe := (D + 719468) mod 146097 in
  let yoe := yoe_of doe in
  let doy := doe - days_before_yoe yoe in
  let mp := mp_of doy in
  let m := if mp <? 10 then mp + 3 else mp - 9 in
  (if m <=? 2 then yoe + era * 400 + 1 else yoe + era * 400, m,
   doy - days_before_mp mp + 1).
Proof. reflexivity. Qed.

(** The year of the era is the one whose days contain [doe]. *)
Lemma yoe_of_spec doe :
  0 <= doe < 146097 →
  0 <= yoe_of doe <= 399 ∧
  days_before_yoe (yoe_of doe) <= doe
    < days_before_yoe (yoe_of doe + 1) + (yoe_of doe + 1) / 400.
Proof.
  intros H. unfold yoe_of, days_before_yoe.
  assert (doe / 36524 = 0 ∨ doe / 36524 = 1 ∨ doe / 36524 = 2
          ∨ doe / 36524 = 3 ∨ doe / 36524 = 4) as Hc
    by (Z.div_mod_to_equations; lia).
  assert (doe / 146096 = 0 ∨ doe / 146096 = 1) as He
    by (Z.div_mod_to_equations; lia).
  destruct Hc as [Hc | [Hc | [Hc | [Hc | Hc]]]]; destruct He as [He | He];
    rewrite ?Hc, ?He; Z.div_mod_to_equations; lia.
Qed.

Lemma days_before_yoe_mono a b :
  0 <= a <= b → days_before_yoe a <= days_before_yoe b.
Proof. unfold days_before_yoe. intros. Z.div_mod_to_equations. lia. Qed.

Lemma doy_range doe :
  0 <= doe < 146097 → 0 <= doe - days_before_yoe (yoe_of doe) <= 365.
Proof.
  intros H. destruct (yoe_of_spec doe H) as [H1 H2].
  revert H1 H2. generalize (yoe_of doe). intros y. unfold days_before_yoe.
  intros. Z.div_mod_to_equations. lia.
Qed.

Lemma mp_of_spec doy :
  0 <= doy <= 365 →
  0 <= mp_of doy <= 11 ∧ 1 <= doy - days_before_mp (mp_of doy) + 1 <= 31.
Proof. unfold mp_of, days_before_mp. intros. Z.div_mod_to_equations. lia. Qed.

Lemma mp_of_mono a b : a <= b → mp_of a <= mp_of b.
Proof. unfold mp_of. intros. Z.div_mod_to_equations. lia. Qed.

Lemma civil_fields D :
  1 <= (civil_from_days D).1.2 <= 12 ∧ 1 <= (civil_from_days D).2 <= 31.
Proof.
  rewrite civil_from_days_eq. cbv zeta. cbn [fst snd].
  pose proof (Z.mod_pos_bound (D + 719468) 146097 eq_refl) as Hdoe.
  pose proof (doy_range _ Hdoe) as Hdoy.
  pose proof (mp_of_spec _ Hdoy) as [Hmp Hd].
  split; [| exact Hd].
  destruct (_ <? 10) eqn:E; [apply Z.ltb_lt in E | apply Z.ltb_ge in E]; lia.
Qed.

Ltac split_ifs :=
  repeat match goal with
         | |- context [if ?b then _ else _] => destruct b eqn:?
         end;
  rewrite ?Z.ltb_lt, ?Z.ltb_ge, ?Z.leb_le, ?Z.leb_gt in *.

(** Later days have later dates. *)
Lemma civil_from_days_lt D1 D2 :
  D1 < D2 → date_compare (civil_from_days D1) (civil_from_days D2) = Lt.
Proof.
  intros HD. rewrite !civil_from_days_eq. cbv zeta.
  unfold date_compare. cbn [fst snd].
  pose proof (Z.mod_pos_bound (D1 + 719468) 146097 eq_refl) as Hdoe1.
  pose proof (Z.mod_pos_bound (D2 + 719468) 146097 eq_refl) as Hdoe2.
  pose proof (Z.div_mod (D1 + 719468) 146097 ltac:(lia)) as E1.
  pose proof (Z.div_mod (D2 + 719468) 146097 ltac:(lia)) as E2.
  revert Hdoe1 Hdoe2 E1 E2.
  generalize ((D1 + 719468) / 146097) ((D1 + 719468) mod 146097)
             ((D2 + 719468) / 146097) ((D2 + 719468) mod 146097).
  intros era1 doe1 era2 doe2 Hdoe1 Hdoe2 E1 E2.
  pose proof (yoe_of_spec _ Hdoe1) as [Hy1 Hb1].
  pose proof (yoe_of_spec _ Hdoe2) as [Hy2 Hb2].
  pose proof (doy_range _ Hdoe1) as Hdoy1.
  pose proof (doy_range _ Hdoe2) as Hdoy2.
  pose proof (mp_of_spec _ Hdoy1) as [Hmp1 Hd1].
  pose proof (mp_of_spec _ Hdoy2) as [Hmp2 Hd2].
  assert (era1 < era2 ∨ (era1 = era2 ∧ doe1 < doe2)) as Hera by lia.
  assert (era1 = era2 → yoe_of doe1 < yoe_of doe2 ∨
          (yoe_of doe1 = yoe_of doe2 ∧
           doe1 - days_before_yoe (yoe_of doe1)
             < doe2 - days_before_yoe (yoe_of doe2))) as Hyoe.
  { intros ->. destruct Hera as [? | [_ Hlt]]; [lia |].
    destruct (Z_lt_ge_dec (yoe_of doe1) (yoe_of doe2)) as [? | Hge]; [by left |].
    right. destruct (Z.eq_dec (yoe_of doe1) (yoe_of doe2)) as [Heq | Hne].
    - split; [done |]. rewrite Heq. lia.
    - exfalso.
      pose proof (days_before_yoe_mono (yoe_of doe2 + 1) (yoe_of doe1) ltac:(lia)).
      assert ((yoe_of doe2 + 1) / 400 = 0) by (apply Z.div_small; lia). lia. }
  pose proof (mp_of_mono (doe1 - days_before_yoe (yoe_of doe1))
                         (doe2 - days_before_yoe (yoe_of doe2))) as Hmono.
  revert Hy1 Hy2 Hmp1 Hmp2 Hd1 Hd2 Hyoe Hmono.
  generalize (yoe_of doe1) (yoe_of doe2). intros y1 y2.
  generalize (doe1 - days_before_yoe y1) (doe2 - days_before_yoe y2).
  intros doy1 doy2.
  generalize (mp_of doy1) (mp_of doy2). intros mp1 mp2. intros.
  destruct (Z.eq_dec mp1 mp2) as [-> | Hne].
  - generalize dependent (days_before_mp mp2). intros.
    split_ifs; unfold lex;
      repeat match goal with
             | |- context [?a ?= ?b] => destruct (Z.compare_spec a b)
             end; try reflexivity; lia.
  - generalize dependent (days_before_mp mp2).
    generalize dependent (days_before_mp mp1). intros.
    split_ifs; unfold lex;
      repeat match goal with
             | |- context [?a ?= ?b] => destruct (Z.compare_spec a b)
             end; try reflexivity; lia.
Qed.

(** Dates compare as their days do. *)
Lemma date_compare_civil D1 D2 :
  date_compare (civil_from_days D1) (civil_from_days D2) = (D1 ?= D2).
Proof.
  destruct (Z.compare_spec D1 D2) as [-> | H | H].
  - unfold date_compare, lex. by rewrite !Z.compare_refl.
  - by apply civil_from_days_lt.
  - apply civil_from_days_lt in H. revert H. unfold date_compare, lex.
    rewrite (Z.compare_antisym (civil_from_days D1).1.1),
            (Z.compare_antisym (civil_from_days D1).1.2),
            (Z.compare_antisym (civil_from_days D1).2).
    by repeat destruct (_ ?= _).
Qed.

(** ** Bucket strings *)

Lemma digit_char_compare a b :
  0 <= a <= 9 → 0 <= b <= 9 →
  Ascii.compare (digit_char a) (digit_char b) = (a ?= b).
Proof.
  intros Ha Hb.
  assert (a = 0 ∨ a = 1 ∨ a = 2 ∨ a = 3 ∨ a = 4 ∨ a = 5 ∨ a = 6 ∨ a = 7
          ∨ a = 8 ∨ a = 9) as Ha' by lia.
  assert (b = 0 ∨ b = 1 ∨ b = 2 ∨ b = 3 ∨ b = 4 ∨ b = 5 ∨ b = 6 ∨ b = 7
          ∨ b = 8 ∨ b = 9) as Hb' by lia.
  clear Ha Hb.
  repeat destruct Ha' as [-> | Ha']; try subst a;
    repeat destruct Hb' as [-> | Hb']; try subst b; reflexivity.
Qed.

Lemma append_String c s t : String c s +:+ t = String c (s +:+ t).
Proof. reflexivity. Qed.

Lemma append_nil t : "" +:+ t = t.
Proof. reflexivity. Qed.

Lemma append_empty s : s +:+ "" = s.
Proof. induction s as [| c s IH]; [done |]. by rewrite append_String, IH. Qed.

Lemma compare_String c1 s1 c2 s2 :
  String.compare (String c1 s1) (String c2 s2)
  = lex (Ascii.compare c1 c2) (String.compare s1 s2).
Proof. cbn [String.compare]. by destruct (Ascii.compare c1 c2). Qed.

Lemma compare_same_head c s1 s2 :
  String.compare (String c s1) (String c s2) = String.compare s1 s2.
Proof.
  rewrite compare_String. unfold Ascii.compare. by rewrite N.compare_refl.
Qed.

Lemma compare_refl s : String.compare s s = Eq.
Proof. induction s as [| c s IH]; [done |]. by rewrite compare_same_head. Qed.

Ltac compare_cases :=
  unfold lex;
  repeat match goal with
         | |- context [?a ?= ?b] => destruct (Z.compare_spec a b)
         end; try reflexivity; try (exfalso; Z.div_mod_to_equations; lia).

Lemma compare_two a b s t :
  0 <= a < 100 → 0 <= b < 100 →
  String.compare (two a +:+ s) (two b +:+ t) = lex (a ?= b) (String.compare s t).
Proof.
  intros Ha Hb. unfold two. rewrite !append_String, ?append_nil.
  rewrite !compare_String.
  rewrite !digit_char_compare by (Z.div_mod_to_equations; lia).
  compare_cases.
Qed.

Lemma compare_four a b s t :
  0 <= a < 10000 → 0 <= b < 10000 →
  String.compare (four a +:+ s) (four b +:+ t) = lex (a ?= b) (String.compare s t).
Proof.
  intros Ha Hb. unfold four. rewrite !append_String, ?append_nil.
  rewrite !compare_String.
  rewrite !digit_char_compare by (Z.div_mod_to_equations; lia).
  compare_cases.
Qed.

Lemma appendInt_two x : 0 <= x < 100 → appendInt x 2 = two x.
Proof.
  intros H. unfold appendInt, two.
  rewrite Z.abs_eq by lia.
  destruct (x <? 0) eqn:E1; [apply Z.ltb_lt in E1; lia |].
  destruct (x <? 100) eqn:E2; [| apply Z.ltb_ge in E2; lia].
  reflexivity.
Qed.

Lemma appendInt_four x : 0 <= x < 10000 → appendInt x 4 = four x.
Proof.
  intros H. unfold appendInt, four.
  rewrite Z.abs_eq by lia.
  destruct (x <? 0) eqn:E1; [apply Z.ltb_lt in E1; lia |].
  destruct (x <? 10000) eqn:E2; [| apply Z.ltb_ge in E2; lia].
  reflexivity.
Qed.

Lemma clock_fields t :
  0 <= HourOf t < 100 ∧ 0 <= MinuteOf t < 100.
Proof. unfold HourOf, MinuteOf. split; Z.div_mod_to_equations; lia. Qed.

Lemma Format_layoutDay t :
  fourDigitYear t →
  Format t layoutDay
  = four (Date t).1.1 +:+ "-" +:+ two (Date t).1.2 +:+ "-" +:+ two (Date t).2.
Proof.
  intros Hy. unfold Format, layoutDay. cbn [fold_right formatChunk].
  destruct (civil_fields (localSeconds t / 86400)) as [Hm Hd].
  fold (Date t) in Hm, Hd.
  rewrite appendInt_four by (unfold fourDigitYear in Hy; lia).
  rewrite !appendInt_two by lia.
  by rewrite append_empty.
Qed.

Lemma Format_layoutMinute t :
  fourDigitYear t →
  Format t layoutMinute
  = four (Date t).1.1 +:+ "-" +:+ two (Date t).1.2 +:+ "-" +:+ two (Date t).2
    +:+ ":" +:+ two (HourOf t) +:+ ":" +:+ two (MinuteOf t).
Proof.
  intros Hy. unfold Format, layoutMinute. cbn [fold_right formatChunk].
  destruct (civil_fields (localSeconds t / 86400)) as [Hm Hd].
  fold (Date t) in Hm, Hd.
  destruct (clock_fields t) as [HH HM].
  rewrite appendInt_four by (unfold fourDigitYear in Hy; lia).
  rewrite !appendInt_two by lia.
  by rewrite append_empty.
Qed.

Lemma lex_assoc c1 c2 c3 : lex (lex c1 c2) c3 = lex c1 (lex c2 c3).
Proof. by destruct c1. Qed.

(** The day bucket strings of two readings compare as their local
    calendar days do. *)
Lemma Format_layoutDay_compare a b :
  fourDigitYear a → fourDigitYear b →
  String.compare (Format a layoutDay) (Format b layoutDay)
  = (localDay a ?= localDay b).
Proof.
  intros Ha Hb. rewrite !Format_layoutDay by done.
  destruct (civil_fields (localSeconds a / 86400)) as [Hma Hda].
  destruct (civil_fields (localSeconds b / 86400)) as [Hmb Hdb].
  fold (Date a) in Hma, Hda. fold (Date b) in Hmb, Hdb.
  rewrite compare_four by (unfold fourDigitYear in *; lia).
  rewrite ?append_String, ?append_nil. rewrite compare_same_head.
  rewrite compare_two by lia.
  rewrite ?append_String, ?append_nil. rewrite compare_same_head.
  rewrite <- (append_empty (two (Date a).2)),
          <- (append_empty (two (Date b).2)).
  rewrite compare_two by lia. cbn [String.compare].
  unfold localDay.
  rewrite <- (date_compare_civil (localSeconds a / 86400) (localSeconds b / 86400)).
  fold (Date a) (Date b).
  unfold date_compare, lex. by repeat destruct (_ ?= _).
Qed.

(** A later local minute is a later local day, or the same day and a later
    hour and minute. *)
Lemma minute_compare_split x y :
  lex (x / 86400 ?= y / 86400)
      (lex (x mod 86400 / 3600 ?= y mod 86400 / 3600)
           (x mod 3600 / 60 ?= y mod 3600 / 60))
  = (x / 60 ?= y / 60).
Proof. compare_cases. Qed.

(** The minute bucket strings of two readings compare as their local
    calendar minutes do. *)
Lemma Format_layoutMinute_compare a b :
  fourDigitYear a → fourDigitYear b →
  String.compare (Format a layoutMinute) (Format b layoutMinute)
  = (localMinute a ?= localMinute b).
Proof.
  intros Ha Hb. rewrite !Format_layoutMinute by done.
  destruct (civil_fields (localSeconds a / 86400)) as [Hma Hda].
  destruct (civil_fields (localSeconds b / 86400)) as [Hmb Hdb].
  fold (Date a) in Hma, Hda. fold (Date b) in Hmb, Hdb.
  destruct (clock_fields a) as [HHa HMa]. destruct (clock_fields b) as [HHb HMb].
  rewrite compare_four by (unfold fourDigitYear in *; lia).
  rewrite ?append_String, ?append_nil. rewrite compare_same_head.
  rewrite compare_two by lia.
  rewrite ?append_String, ?append_nil. rewrite compare_same_head.
  rewrite compare_two by lia.
  rewrite ?append_String, ?append_nil. rewrite compare_same_head.
  rewrite compare_two by lia.
  rewrite ?append_String, ?append_nil. rewrite compare_same_head.
  rewrite <- (append_empty (two (MinuteOf a))),
          <- (append_empty (two (MinuteOf b))).
  rewrite compare_two by lia. cbn [String.compare].
  unfold localMinute.
  rewrite <- (minute_compare_split (localSeconds a) (localSeconds b)).
  rewrite <- (date_compare_civil (localSeconds a / 86400) (localSeconds b / 86400)).
  fold (Date a) (Date b).
  unfold HourOf, MinuteOf, date_compare, lex. by repeat destruct (_ ?= _).
Qed.

(** ** Keys *)

(** Whatever happens, the first thing [CheckAndIncrement] sends is the read
    batch on the three keys of its [now]; the only other thing it may send
    is the write batch on the same keys. *)
Lemma CheckAndIncrement_wire rl tokens w :
  let now := clock w (ticks w) in
  ∃ rest,
    wire (CheckAndIncrement rl tokens w).2 = (wire w ++ readBatch rl now :: rest)%list ∧
    (rest = [] ∨ rest = [writeBatch rl now tokens]).
Proof.
  cbv zeta. destruct (net w (trips w)) as [f |] eqn:Hnet.
  { rewrite (CheckAndIncrement_read_fault _ _ _ _ Hnet). cbn. eauto. }
  destruct (Z_le_gt_dec (RequestsPerMinute (config rl))
              (counter (store w) (minuteKey rl (clock w (ticks w))))) as [Hr | Hr].
  { rewrite CheckAndIncrement_reject_minute by done. cbn. eauto. }
  destruct (Z_lt_ge_dec (TokensPerMinute (config rl))
              (GoInt.add (counter (store w) (minuteTokenKey rl (clock w (ticks w))))
                 tokens)) as [Ht | Ht].
  { rewrite CheckAndIncrement_reject_tokens by (done || lia). cbn. eauto. }
  destruct (Z_le_gt_dec (RequestsPerDay (config rl))
              (counter (store w) (dayKey rl (clock w (ticks w))))) as [Hd | Hd].
  { rewrite CheckAndIncrement_reject_day by (done || lia). cbn. eauto. }
  rewrite CheckAndIncrement_pass by (done || lia).
  destruct (net w (S (trips w))); [| destruct (cmdsFirstErr _)]; cbn; eauto.
Qed.

Lemma app_ne p a b : a ≠ b → p +:+ a ≠ p +:+ b.
Proof. intros H E. by apply String.app_inj in E. Qed.

Lemma compare_ne (s t : string) : String.compare s t ≠ Eq → s ≠ t.
Proof. intros H ->. by rewrite compare_refl in H. Qed.

(** C8, as the code has it.  [New] fixes the prefix to
    ["gemini:ratelimit"]; the three entry points derive the same three
    keys from a clock reading: the prefix, then [":minute:"],
    [":tokens:minute:"] or [":day:"], then the reading formatted on its
    local wall clock as ["2006-01-02:15:04"], respectively ["2006-01-02"].
    For readings whose local year is 0000..9999 the bucket strings compare
    lexically exactly as the local calendar minutes, respectively days, do,
    so keys of distinct local minutes or days never collide; and under one
    zone offset a later instant never has an earlier local minute or
    day. *)
Theorem keys_follow_local_calendar :
  (∀ cfg, prefix (New cfg) = "gemini:ratelimit") ∧
  minuteKey (New (mkConfig 15 250000 1000)) (mkTime (1732548600 * Second) 0)
    = "gemini:ratelimit:minute:2024-11-25:15:30" ∧
  minuteTokenKey (New (mkConfig 15 250000 1000)) (mkTime (1732548600 * Second) 0)
    = "gemini:ratelimit:tokens:minute:2024-11-25:15:30" ∧
  dayKey (New (mkConfig 15 250000 1000)) (mkTime (1732548600 * Second) 0)
    = "gemini:ratelimit:day:2024-11-25" ∧
  (∀ rl tokens w,
     let now := clock w (ticks w) in
     ∃ rest,
       wire (CheckAndIncrement rl tokens w).2
         = (wire w ++ [GET (prefix rl +:+ ":minute:" +:+ Format now layoutMinute);
                       GET (prefix rl +:+ ":tokens:minute:" +:+ Format now layoutMinute);
                       GET (prefix rl +:+ ":day:" +:+ Format now layoutDay)]
              :: rest)%list ∧
       (rest = [] ∨ rest = [writeBatch rl now tokens])) ∧
  (∀ rl w,
     let now := clock w (ticks w) in
     wire (GetCurrentUsage rl w).2
       = (wire w ++ [[GET (prefix rl +:+ ":minute:" +:+ Format now layoutMinute);
                      GET (prefix rl +:+ ":tokens:minute:" +:+ Format now layoutMinute);
                      GET (prefix rl +:+ ":day:" +:+ Format now layoutDay)]])%list) ∧
  (∀ rl w,
     let now := clock w (ticks w) in
     wire (Reset rl w).2
       = (wire w ++ [[DEL [prefix rl +:+ ":minute:" +:+ Format now layoutMinute;
                           prefix rl +:+ ":tokens:minute:" +:+ Format now layoutMinute;
                           prefix rl +:+ ":day:" +:+ Format now layoutDay]]])%list) ∧
  (∀ a b, fourDigitYear a → fourDigitYear b →
     String.compare (Format a layoutMinute) (Format b layoutMinute)
       = (localMinute a ?= localMinute b) ∧
     String.compare (Format a layoutDay) (Format b layoutDay)
       = (localDay a ?= localDay b)) ∧
  (∀ rl a b, fourDigitYear a → fourDigitYear b →
     (localMinute a ≠ localMinute b →
        minuteKey rl a ≠ minuteKey rl b ∧
        minuteTokenKey rl a ≠ minuteTokenKey rl b) ∧
     (localDay a ≠ localDay b → dayKey rl a ≠ dayKey rl b)) ∧
  (∀ a b, zoneOffset a = zoneOffset b → wall a <= wall b →
     localMinute a <= localMinute b ∧ localDay a <= localDay b).
Proof.
  repeat apply conj.
  - reflexivity.
  - vm_compute. reflexivity.
  - vm_compute. reflexivity.
  - vm_compute. reflexivity.
  - intros rl tokens w. apply CheckAndIncrement_wire.
  - intros rl w. apply GetCurrentUsage_frame.
  - intros rl w now. unfold Reset, bind, Now, Exec.
    cbn [store clock ticks net trips wire].
    destruct (net w (trips w)); [| reflexivity].
    by destruct (exec_cmds _ _).
  - intros a b Ha Hb.
    split; [by apply Format_layoutMinute_compare | by apply Format_layoutDay_compare].
  - intros rl a b Ha Hb. split.
    + intros Hne. unfold minuteKey, minuteTokenKey.
      assert (Format a layoutMinute ≠ Format b layoutMinute) as Hf.
      { apply compare_ne. rewrite Format_layoutMinute_compare by done.
        by intros ?%Z.compare_eq. }
      split; apply app_ne.
      * by apply (app_ne ":minute:").
      * by apply (app_ne ":tokens:minute:").
    + intros Hne. unfold dayKey.
      assert (Format a layoutDay ≠ Format b layoutDay) as Hf.
      { apply compare_ne. rewrite Format_layoutDay_compare by done.
        by intros ?%Z.compare_eq. }
      apply app_ne. by apply (app_ne ":day:").
  - intros a b H Hle.
    unfold localMinute, localDay, localSeconds, Second, Nanosecond. rewrite H.
    split; Z.div_mod_to_equations; lia.
Qed.

(** One minute later, one bucket string later. *)
Lemma keys_follow_local_calendar_witness :
  String.compare (Format exampleNow layoutMinute)
                 (Format (Add exampleNow Minute) layoutMinute) = Lt.
Proof.
  destruct keys_follow_local_calendar as (_ & _ & _ & _ & _ & _ & _ & H & _).
  destruct (H exampleNow (Add exampleNow Minute)) as [-> _]; crunch.
Defined.

(** C8, as stated, fails.  On 2024-10-27 a clock in Berlin reads 02:50
    twice, an hour apart: at 00:50 UTC under the offset +02:00 and at
    01:50 UTC under +01:00.  The two instants lie in distinct minutes and
    yet have the same minute key.  And the first minute of the year 10000
    formats to a string that is lexically before that of the last minute
    of 9999. *)
Lemma keys_collide_when_clocks_go_back :
  wall (mkTime (1729990200 * Second) 7200) + 60 * Minute
    = wall (mkTime (1729993800 * Second) 3600) ∧
  wall (Truncate (mkTime (1729990200 * Second) 7200) Minute)
    ≠ wall (Truncate (mkTime (1729993800 * Second) 3600) Minute) ∧
  minuteKey (New (mkConfig 15 250000 1000)) (mkTime (1729990200 * Second) 7200)
    = minuteKey (New (mkConfig 15 250000 1000)) (mkTime (1729993800 * Second) 3600) ∧
  minuteKey (New (mkConfig 15 250000 1000)) (mkTime (1729990200 * Second) 7200)
    = "gemini:ratelimit:minute:2024-10-27:02:50" ∧
  wall (mkTime (253402300799 * Second) 0) < wall (mkTime (253402300800 * Second) 0) ∧
  String.compare (Format (mkTime (253402300799 * Second) 0) layoutMinute)
                 (Format (mkTime (253402300800 * Second) 0) layoutMinute) = Gt.
Proof. crunch. Qed.

(** ** The day boundary *)

(** In a process whose zone is UTC the 24-hour boundary is the instant at
    which the day bucket changes: every instant from [now] up to the
    boundary is in the local day of [now], and the boundary starts the
    next one. *)
Lemma dayBoundary_is_rollover_in_UTC now :
  zoneOffset now = 0 →
  (∀ t, zoneOffset t = 0 → wall now <= wall t < wall (dayBoundary now) →
        localDay t = localDay now) ∧
  localDay (dayBoundary now) = localDay now + 1.
Proof.
  intros H0. unfold localDay, localSeconds, dayBoundary, Add. cbn [wall zoneOffset].
  rewrite Truncate_wall by reflexivity.
  assert (zoneOffset (Truncate now (24 * Hour)) = 0) as ->.
  { unfold Truncate. by destruct (_ <=? _). }
  rewrite H0.
  change (24 * Hour) with 86400000000000.
  change (unixToInternal * Second) with 62135596800000000000.
  change Second with 1000000000.
  split.
  - intros t -> Ht. Z.div_mod_to_equations. lia.
  - Z.div_mod_to_equations. lia.
Qed.

(** C7 fails on the code.  At 23:30 on 2024-11-25 in a process whose zone
    is at +01:00 (22:30 UTC), a call rejected by the day ceiling reports a
    [ResetDay] of 1 h 30 min, the time to the next midnight UTC, while the
    day key changes 30 minutes after the call, at local midnight; an
    allowed call at the same instant reports the same [ResetDay]. *)
Theorem reset_day_is_utc_midnight_not_key_rollover :
  let rl := New (mkConfig 100 10000 2) in
  let now := mkTime (1732573800 * Second) 3600 in
  let world db := mkWorld db (steadyClock now) 0 noFaults 0 [] in
  (CheckAndIncrement rl 10
     (world (<[ "gemini:ratelimit:day:2024-11-25" := mkEntry "2" None ]> ∅))).1
  = Ok (mkCheckResult false 0 0 2 0 (5400 * Second)
          "requests per day limit exceeded (2/2)") ∧
  (CheckAndIncrement rl 10 (world ∅)).1
  = Ok (mkCheckResult true 1 10 1 (60 * Second) (5400 * Second) "") ∧
  dayKey rl now = "gemini:ratelimit:day:2024-11-25" ∧
  dayKey rl (Add now (1800 * Second - 1)) = "gemini:ratelimit:day:2024-11-25" ∧
  dayKey rl (Add now (1800 * Second)) = "gemini:ratelimit:day:2024-11-26" ∧
  dayKey rl (Add now (5400 * Second - 1)) = "gemini:ratelimit:day:2024-11-26".
Proof. crunch. Qed.

(** * Further properties *)

(** ** What a command touches *)

Lemma foldr_delete_other (keys : list string) (db : gmap string Entry) k :
  k ∉ keys → foldr delete db keys !! k = db !! k.
Proof.
  induction keys as [| k' keys IH]; [done |].
  intros Hk. apply not_elem_of_cons in Hk as [Hne Hk]. cbn [foldr].
  rewrite lookup_delete_ne by done. by apply IH.
Qed.

Lemma incrby_other key delta db k :
  k ≠ key → (incrby key delta db).2 !! k = db !! k.
Proof.
  intros Hne. unfold incrby.
  destruct (string2ll _); [| done].
  destruct (GoInt.in_intb _); [| done].
  cbn [snd]. by rewrite lookup_insert_ne.
Qed.

(** A command leaves alone every key that is not its own. *)
Lemma exec_cmd_other c db k :
  k ∉ cmd_keys c → (exec_cmd c db).2 !! k = db !! k.
Proof.
  destruct c as [key | key | key delta | key expiration | keys];
    cbn [cmd_keys exec_cmd]; intros Hk;
    try (apply not_elem_of_cons in Hk as [Hne _]).
  - by destruct (db !! key).
  - by apply incrby_other.
  - by apply incrby_other.
  - destruct (db !! key); [| done].
    destruct (0 <? expiration); cbn [snd].
    + by rewrite lookup_insert_ne.
    + by rewrite lookup_delete_ne.
  - by apply foldr_delete_other.
Qed.

Lemma exec_cmds_other cs db k :
  (∀ c, c ∈ cs → k ∉ cmd_keys c) → (exec_cmds cs db).2 !! k = db !! k.
Proof.
  revert db. induction cs as [| c cs IH]; intros db Hk; [done |].
  rewrite exec_cmds_cons.
  destruct (exec_cmd c db) as [r db1] eqn:E1.
  destruct (exec_cmds cs db1) as [rs db2] eqn:E2. cbn [snd].
  assert (db2 = (exec_cmds cs db1).2) as -> by (by rewrite E2).
  assert (db1 = (exec_cmd c db).2) as -> by (by rewrite E1).
  rewrite IH by (intros c' Hc'; apply Hk; by right).
  apply exec_cmd_other, Hk. by left.
Qed.

Lemma writeBatch_keys rl now tokens c k :
  c ∈ writeBatch rl now tokens → k ∈ cmd_keys c → ownKey rl now k.
Proof.
  unfold writeBatch, ownKey. intros Hc Hk.
  repeat (apply elem_of_cons in Hc as [-> | Hc]);
    try (apply elem_of_nil in Hc; done);
    cbn [cmd_keys] in Hk; apply list_elem_of_singleton in Hk; auto.
Qed.

Lemma take_writeBatch_other rl now tokens n db k :
  ¬ ownKey rl now k →
  (exec_cmds (take n (writeBatch rl now tokens)) db).2 !! k = db !! k.
Proof.
  intros Hk. apply exec_cmds_other. intros c Hc Hin. apply Hk.
  apply (writeBatch_keys rl now tokens c k); [| done].
  eapply subseteq_take, Hc.
Qed.

Lemma incrby_agree P key delta db db' :
  P key → agree P db db' →
  (incrby key delta db).1 = (incrby key delta db').1 ∧
  agree P (incrby key delta db).2 (incrby key delta db').2.
Proof.
  intros Hkey Hag. unfold incrby. rewrite <- (Hag key Hkey).
  destruct (string2ll _); [| done].
  destruct (GoInt.in_intb _); [| done].
  split; [done |]. intros k Hk. cbn [snd].
  rewrite !lookup_insert. case_decide; [done | by apply Hag].
Qed.

Lemma del_agree P (keys : list string) db db' :
  (∀ k, k ∈ keys → P k) → agree P db db' →
  (del keys db).1 = (del keys db').1 ∧ agree P (del keys db).2 (del keys db').2.
Proof.
  intros Hkeys Hag. unfold del. cbn [fst snd]. split.
  - do 3 f_equal. clear -Hkeys Hag.
    induction keys as [| k keys IH]; [done |].
    rewrite !filter_cons.
    rewrite <- (Hag k) by (apply Hkeys; by left).
    rewrite IH by (intros k' Hk'; apply Hkeys; by right). done.
  - clear Hkeys. induction keys as [| k keys IH]; [done |].
    intros k' Hk'. cbn [foldr]. rewrite !lookup_delete.
    case_decide; [done | by apply IH].
Qed.

(** On stores that agree on a set of keys containing its own, a command
    gives the same reply and leaves stores that still agree. *)
Lemma exec_cmd_agree P c db db' :
  (∀ k, k ∈ cmd_keys c → P k) → agree P db db' →
  (exec_cmd c db).1 = (exec_cmd c db').1 ∧
  agree P (exec_cmd c db).2 (exec_cmd c db').2.
Proof.
  intros Hkeys Hag.
  destruct c as [key | key | key delta | key expiration | keys];
    cbn [cmd_keys exec_cmd] in *;
    try (assert (P key) as Hkey by (apply Hkeys; by left)).
  - rewrite <- (Hag key Hkey). by destruct (db !! key).
  - by apply incrby_agree.
  - by apply incrby_agree.
  - rewrite <- (Hag key Hkey). destruct (db !! key); [| done].
    destruct (0 <? expiration); (split; [done |]); intros k Hk; cbn [snd].
    + rewrite !lookup_insert. case_decide; [done | by apply Hag].
    + rewrite !lookup_delete. case_decide; [done | by apply Hag].
  - by apply del_agree.
Qed.

Lemma exec_cmds_agree P cs db db' :
  (∀ c k, c ∈ cs → k ∈ cmd_keys c → P k) → agree P db db' →
  (exec_cmds cs db).1 = (exec_cmds cs db').1 ∧
  agree P (exec_cmds cs db).2 (exec_cmds cs db').2.
Proof.
  revert db db'. induction cs as [| c cs IH]; intros db db' Hkeys Hag; [done |].
  rewrite !exec_cmds_cons.
  destruct (exec_cmd_agree P c db db') as [E1 A1];
    [intros k Hk; apply (Hkeys c k); [by left | done] | done |].
  destruct (exec_cmd c db) as [r db1]. destruct (exec_cmd c db') as [r' db1'].
  cbn [fst snd] in *. subst r'.
  destruct (IH db1 db1') as [E2 A2];
    [intros c' k Hc' Hk; apply (Hkeys c' k); [by right | done] | done |].
  destruct (exec_cmds cs db1) as [rs db2]. destruct (exec_cmds cs db1') as [rs' db2'].
  cbn [fst snd] in *. by subst rs'.
Qed.

Lemma counter_agree P db db' k : P k → agree P db db' → counter db k = counter db' k.
Proof. intros Hk Hag. unfold counter. by rewrite (Hag k Hk). Qed.

(** ** [parseIntOrZero] *)

(** X1.  [parseIntOrZero] reads back every [int] from its decimal form, the
    form in which Redis stores a counter. *)
Theorem parseIntOrZero_reads_back_decimal z :
  GoInt.in_int z → parseIntOrZero (itoa z) = z.
Proof.
  intros Hz. apply (string2ll_parseIntOrZero _ _ (string2ll_itoa z Hz)).
Qed.

Lemma parseIntOrZero_reads_back_decimal_witness :
  GoInt.in_int (-9223372036854775808) ∧
  parseIntOrZero (itoa (-9223372036854775808)) = -9223372036854775808.
Proof.
  split; [crunch |]. apply parseIntOrZero_reads_back_decimal. crunch.
Defined.

Lemma Atoi_in_int s z : Atoi s = Some z → GoInt.in_int z.
Proof.
  unfold Atoi. intros H. repeat case_match; try discriminate.
  all: injection H as <-; by apply in_intb_true.
Qed.

Lemma counter_in_int db k : GoInt.in_int (counter db k).
Proof.
  unfold counter, parseIntOrZero. destruct (String.eqb _ ""); [crunch |].
  destruct (Atoi _) as [z |] eqn:E; [by eapply Atoi_in_int | crunch].
Qed.

(** ** The keys a call touches and depends on *)

(** A call leaves the clock and the network as they were, and the store
    too outside its three keys. *)
Lemma CheckAndIncrement_frame rl tokens w :
  clock (CheckAndIncrement rl tokens w).2 = clock w ∧
  net (CheckAndIncrement rl tokens w).2 = net w ∧
  ∀ k, ¬ ownKey rl (clock w (ticks w)) k →
       store (CheckAndIncrement rl tokens w).2 !! k = store w !! k.
Proof.
  destruct (net w (trips w)) as [f |] eqn:Hnet.
  { by rewrite (CheckAndIncrement_read_fault _ _ _ _ Hnet). }
  destruct (Z_le_gt_dec (RequestsPerMinute (config rl))
              (counter (store w) (minuteKey rl (clock w (ticks w))))) as [Hr | Hr].
  { by rewrite CheckAndIncrement_reject_minute. }
  destruct (Z_lt_ge_dec (TokensPerMinute (config rl))
              (GoInt.add (counter (store w) (minuteTokenKey rl (clock w (ticks w))))
                 tokens)) as [Ht | Ht].
  { by rewrite CheckAndIncrement_reject_tokens by (done || lia). }
  destruct (Z_le_gt_dec (RequestsPerDay (config rl))
              (counter (store w) (dayKey rl (clock w (ticks w))))) as [Hd | Hd].
  { by rewrite CheckAndIncrement_reject_day by (done || lia). }
  rewrite CheckAndIncrement_pass by (done || lia).
  destruct (net w (S (trips w))) as [f |].
  { cbn [snd after store clock net]. repeat split.
    intros k Hk. by apply take_writeBatch_other. }
  assert (∀ k, ¬ ownKey rl (clock w (ticks w)) k →
            (exec_cmds (writeBatch rl (clock w (ticks w)) tokens) (store w)).2 !! k
            = store w !! k) as Hw.
  { intros k Hk.
    rewrite <- (take_writeBatch_other rl (clock w (ticks w)) tokens 6 (store w) k Hk).
    reflexivity. }
  by destruct (cmdsFirstErr _).
Qed.

(** X2.  Whatever its outcome (allowed, rejected, failed in either phase,
    with the write batch applied in part), [CheckAndIncrement] leaves every
    key other than the three keys of its own minute and day windows as it
    was. *)
Theorem CheckAndIncrement_leaves_other_keys rl tokens w k :
  ¬ ownKey rl (clock w (ticks w)) k →
  store (CheckAndIncrement rl tokens w).2 !! k = store w !! k.
Proof. apply CheckAndIncrement_frame. Qed.

Lemma CheckAndIncrement_leaves_other_keys_witness :
  store (CheckAndIncrement (New (mkConfig 2 1000 100)) 10
           (exampleWorld (<[ "session:42" := mkEntry "alice" None ]> ∅))).2
    !! "session:42" = Some (mkEntry "alice" None).
Proof.
  rewrite CheckAndIncrement_leaves_other_keys.
  - reflexivity.
  - intros [H | [H | H]]; vm_compute in H; discriminate H.
Defined.

(** X3.  The outcome of [CheckAndIncrement] depends on the store only
    through the three keys of its own windows: on two stores that agree on
    these keys the call returns the same thing, and the stores it leaves
    still agree on them.  Counters of earlier minutes and days, and keys of
    other users of the store, have no influence. *)
Theorem CheckAndIncrement_depends_only_on_its_keys rl tokens w db' :
  agree (ownKey rl (clock w (ticks w))) (store w) db' →
  (CheckAndIncrement rl tokens (withStore db' w)).1
    = (CheckAndIncrement rl tokens w).1 ∧
  agree (ownKey rl (clock w (ticks w)))
        (store (CheckAndIncrement rl tokens w).2)
        (store (CheckAndIncrement rl tokens (withStore db' w)).2).
Proof.
  intros Hag. set (now := clock w (ticks w)) in *. set (w' := withStore db' w).
  assert (counter db' (minuteKey rl now) = counter (store w) (minuteKey rl now)) as C1.
  { symmetry. eapply counter_agree; [| done]. by left. }
  assert (counter db' (minuteTokenKey rl now)
          = counter (store w) (minuteTokenKey rl now)) as C2.
  { symmetry. eapply counter_agree; [| done]. right; by left. }
  assert (counter db' (dayKey rl now) = counter (store w) (dayKey rl now)) as C3.
  { symmetry. eapply counter_agree; [| done]. right; by right. }
  destruct (net w (trips w)) as [f |] eqn:Hnet.
  { rewrite (CheckAndIncrement_read_fault rl tokens w f Hnet).
    by rewrite (CheckAndIncrement_read_fault rl tokens w' f Hnet). }
  destruct (Z_le_gt_dec (RequestsPerMinute (config rl))
              (counter (store w) (minuteKey rl now))) as [Hr | Hr].
  { rewrite (CheckAndIncrement_reject_minute rl tokens w Hnet Hr).
    rewrite (CheckAndIncrement_reject_minute rl tokens w' Hnet)
      by (cbn; fold now; by rewrite C1).
    cbn. fold now. by rewrite C1, C2, C3. }
  apply Z.gt_lt in Hr.
  destruct (Z_lt_ge_dec (TokensPerMinute (config rl))
              (GoInt.add (counter (store w) (minuteTokenKey rl now)) tokens))
    as [Ht | Ht].
  { rewrite (CheckAndIncrement_reject_tokens rl tokens w Hnet Hr Ht).
    rewrite (CheckAndIncrement_reject_tokens rl tokens w' Hnet)
      by (cbn; fold now; by rewrite ?C1, ?C2).
    cbn. fold now. by rewrite C1, C2, C3. }
  apply Z.ge_le in Ht.
  destruct (Z_le_gt_dec (RequestsPerDay (config rl))
              (counter (store w) (dayKey rl now))) as [Hd | Hd].
  { rewrite (CheckAndIncrement_reject_day rl tokens w Hnet Hr Ht Hd).
    rewrite (CheckAndIncrement_reject_day rl tokens w' Hnet)
      by (cbn; fold now; by rewrite ?C1, ?C2, ?C3).
    cbn. fold now. by rewrite C1, C2, C3. }
  apply Z.gt_lt in Hd.
  rewrite (CheckAndIncrement_pass rl tokens w Hnet Hr Ht Hd).
  rewrite (CheckAndIncrement_pass rl tokens w' Hnet)
    by (cbn; fold now; by rewrite ?C1, ?C2, ?C3).
  cbn [withStore w' store clock ticks net trips]. fold now.
  destruct (net w (S (trips w))) as [f |].
  { split; [done |]. cbn [snd after store].
    apply exec_cmds_agree; [| done].
    intros c k Hc Hk. eapply writeBatch_keys; [| done].
    eapply subseteq_take, Hc. }
  destruct (exec_cmds_agree (ownKey rl now) (writeBatch rl now tokens)
              (store w) db') as [E A];
    [intros c k; apply writeBatch_keys | done |].
  rewrite <- E. rewrite C1, C2, C3.
  by destruct (cmdsFirstErr _).
Qed.

(** A store full of stale buckets and foreign keys, and the empty store. *)
Lemma CheckAndIncrement_depends_only_on_its_keys_witness :
  (CheckAndIncrement (New (mkConfig 2 1000 100)) 10
     (withStore ∅
        (exampleWorld
           (<[ "gemini:ratelimit:minute:2024-11-25:23:29" := mkEntry "2" None ]>
            (<[ "session:42" := mkEntry "alice" None ]> ∅))))).1
  = (CheckAndIncrement (New (mkConfig 2 1000 100)) 10
       (exampleWorld
          (<[ "gemini:ratelimit:minute:2024-11-25:23:29" := mkEntry "2" None ]>
           (<[ "session:42" := mkEntry "alice" None ]> ∅)))).1.
Proof.
  apply CheckAndIncrement_depends_only_on_its_keys.
  intros k [H | [H | H]]; vm_compute in H; subst k; reflexivity.
Defined.

(** ** What an allowed call leaves in the store *)

(** X4.  After an allowed call each of the three keys of its windows holds
    the canonical decimal form of its new count, with a time-to-live of two
    minutes on the two minute keys and of 25 hours on the day key: every
    counter outlives its window and none is left without expiry. *)
Theorem allowed_call_sets_counters_and_expiry rl tokens w res w' :
  CheckAndIncrement rl tokens w = (Ok res, w') →
  Allowed res = true →
  let now := clock w (ticks w) in
  store w' !! minuteKey rl now
    = Some (mkEntry (itoa (CurrentRequests res)) (Some (2 * Minute))) ∧
  store w' !! minuteTokenKey rl now
    = Some (mkEntry (itoa (CurrentTokens res)) (Some (2 * Minute))) ∧
  store w' !! dayKey rl now
    = Some (mkEntry (itoa (CurrentDayReqs res)) (Some (25 * Hour))) ∧
  Minute < 2 * Minute ∧ 24 * Hour < 25 * Hour.
Proof.
  intros H Ha now. apply CheckAndIncrement_Ok_inv in H. fold now in H.
  destruct H as [_ [(Hrej & _) | (_ & _ & _ & _ & _ & _ & _ & -> & ->)]].
  { rewrite Hrej in Ha. discriminate Ha. }
  cbn [after store CurrentRequests CurrentTokens CurrentDayReqs]. unfold written.
  pose proof (minuteKey_ne_minuteTokenKey rl now now) as N12.
  pose proof (minuteKey_ne_dayKey rl now now) as N13.
  pose proof (minuteTokenKey_ne_dayKey rl now now) as N23.
  repeat split.
  - rewrite !lookup_insert_ne by done. apply lookup_insert_eq.
  - rewrite lookup_insert_ne by done. apply lookup_insert_eq.
  - apply lookup_insert_eq.
Qed.

Lemma allowed_call_sets_counters_and_expiry_witness :
  ∃ res w',
    CheckAndIncrement (New (mkConfig 10 100 50)) 12
      (exampleWorld (exampleStore "3" "30" "3")) = (Ok res, w') ∧
    store w' !! minuteTokenKey (New (mkConfig 10 100 50)) exampleNow
      = Some (mkEntry (itoa (CurrentTokens res)) (Some (2 * Minute))).
Proof.
  assert (∃ res w',
            CheckAndIncrement (New (mkConfig 10 100 50)) 12
              (exampleWorld (exampleStore "3" "30" "3")) = (Ok res, w') ∧
            Allowed res = true) as (res & w' & E & Ha).
  { vm_compute. eexists _, _. split; reflexivity. }
  exists res, w'. split; [exact E |].
  exact (proj1 (proj2 (allowed_call_sets_counters_and_expiry _ _ _ _ _ E Ha))).
Defined.

(** ** Calls within the budget *)

Lemma written_same_windows rl now now' tokens db :
  minuteKey rl now' = minuteKey rl now →
  minuteTokenKey rl now' = minuteTokenKey rl now →
  dayKey rl now' = dayKey rl now →
  written rl now' tokens db = written rl now tokens db.
Proof. intros K1 K2 K3. unfold written. by rewrite K1, K2, K3. Qed.

Lemma sumZ_cons c l : sumZ (c :: l) = c + sumZ l.
Proof. reflexivity. Qed.

Lemma canonical_absent db k : db !! k = None → canonical db k.
Proof.
  intros Hk. unfold canonical. by rewrite (counter_absent _ _ Hk), Hk.
Qed.

(** As long as the budget lasts every call is allowed, from whatever
    counts [a], [s] and [d] the three counters start at. *)
Lemma CheckAndIncrementAll_within_budget rl now costs w a s d :
  sameWindows (clock w) now →
  (∀ i, net w i = None) →
  intConfig (config rl) →
  Forall isCost costs →
  canonical (store w) (minuteKey rl now) →
  canonical (store w) (minuteTokenKey rl now) →
  canonical (store w) (dayKey rl now) →
  counter (store w) (minuteKey rl now) = a → 0 <= a →
  counter (store w) (minuteTokenKey rl now) = s → 0 <= s →
  counter (store w) (dayKey rl now) = d → 0 <= d →
  a + Z.of_nat (length costs) <= RequestsPerMinute (config rl) →
  s + sumZ costs <= TokensPerMinute (config rl) →
  d + Z.of_nat (length costs) <= RequestsPerDay (config rl) →
  let out := CheckAndIncrementAll rl costs w in
  length out.1 = length costs ∧
  (∀ i r, out.1 !! i = Some r →
     ∃ res, r = Ok res ∧ Allowed res = true ∧
       CurrentRequests res = a + Z.of_nat i + 1 ∧
       CurrentTokens res = s + sumZ (take (S i) costs) ∧
       CurrentDayReqs res = d + Z.of_nat i + 1) ∧
  clock out.2 = clock w ∧ net out.2 = net w ∧
  canonical (store out.2) (minuteKey rl now) ∧
  canonical (store out.2) (minuteTokenKey rl now) ∧
  canonical (store out.2) (dayKey rl now) ∧
  counter (store out.2) (minuteKey rl now) = a + Z.of_nat (length costs) ∧
  counter (store out.2) (minuteTokenKey rl now) = s + sumZ costs ∧
  counter (store out.2) (dayKey rl now) = d + Z.of_nat (length costs).
Proof.
  revert w a s d. induction costs as [| c costs IH];
    intros w a s d Hsame Hquiet Hcfg Hcosts B1 B2 B3 C1 Ha C2 Hs C3 Hd L1 L2 L3 out;
    subst out.
  { cbn. repeat split; try done; lia. }
  apply Forall_cons in Hcosts as [Hc Hcosts].
  cbn [length sumZ foldr] in L1, L2, L3. fold (sumZ costs) in L2.
  assert (0 <= sumZ costs) as Hsum.
  { clear -Hcosts. induction Hcosts as [| x l Hx _ IHl]; cbn; [lia |].
    unfold isCost in Hx. fold (sumZ l). lia. }
  destruct Hcfg as (G1 & G2 & G3).
  destruct (sameWindows_keys rl (clock w) now (ticks w) Hsame) as (K1 & K2 & K3).
  unfold isCost in Hc.
  assert (writable (store w) (minuteKey rl now) 1 ∧
          writable (store w) (minuteTokenKey rl now) c ∧
          writable (store w) (dayKey rl now) 1) as (W1 & W2 & W3).
  { unfold writable, canonical, GoInt.in_int, GoInt.min_int, GoInt.max_int in *.
    repeat split; (done || lia). }
  assert (GoInt.add s c = s + c) as Hadd.
  { apply add_exact. unfold GoInt.in_int, GoInt.min_int, GoInt.max_int in *. lia. }
  cbn [CheckAndIncrementAll]. unfold bind.
  rewrite CheckAndIncrement_allowed;
    [| done | done | rewrite K1; lia | rewrite K2, C2, Hadd; lia | rewrite K3; lia
     | by rewrite K1 | by rewrite K2 | by rewrite K3].
  rewrite K1, K2, K3, (written_same_windows rl now _ c (store w) K1 K2 K3).
  destruct (written_counters rl now c (store w) W1 W2 W3) as (D1 & D2 & D3).
  destruct (canonical_written rl now c (store w) W1 W2 W3) as (E1 & E2 & E3).
  set (w1 := after w 3 _ _).
  specialize (IH w1 (a + 1) (s + c) (d + 1)).
  destruct IH as (I0 & I1 & I2 & I3 & I4 & I5 & I6 & I7 & I8 & I9);
    try done; try (subst w1; cbn [after store]; lia).
  destruct (CheckAndIncrementAll rl costs w1) as [rs w2]. cbn [fst snd ret] in *.
  repeat split; try done.
  - cbn [length]. by rewrite I0.
  - intros [| i] r Hi.
    + injection Hi as <-. eexists. split; [reflexivity |].
      cbn [Allowed CurrentRequests CurrentTokens CurrentDayReqs firstn sumZ foldr].
      rewrite take_0. cbn [foldr]. repeat split; lia.
    + cbn in Hi. destruct (I1 i r Hi) as (res & -> & Hal & R1 & R2 & R3).
      exists res. split; [done |]. split; [done |].
      rewrite R1, R2, R3. rewrite (firstn_cons (S i) c costs), sumZ_cons.
      repeat split; lia.
  - cbn [length]. lia.
  - rewrite sumZ_cons. lia.
  - cbn [length]. lia.
Qed.

(** X5.  The whole budget can be used.  From buckets that do not exist
    yet, with completing round trips and a clock that stays in one minute
    and one day window, a sequence of calls with non-negative costs that
    fits the three ceilings (no more calls than [RequestsPerMinute] and
    [RequestsPerDay], total cost at most [TokensPerMinute]) is allowed
    call by call, and the [i]-th result reports [i] requests and the
    running sum of the costs. *)
Theorem calls_within_budget_are_all_allowed rl costs w :
  let now := clock w (ticks w) in
  let out := CheckAndIncrementAll rl costs w in
  sameWindows (clock w) now →
  (∀ i, net w i = None) →
  intConfig (config rl) →
  store w !! minuteKey rl now = None →
  store w !! minuteTokenKey rl now = None →
  store w !! dayKey rl now = None →
  Forall isCost costs →
  Z.of_nat (length costs) <= RequestsPerMinute (config rl) →
  sumZ costs <= TokensPerMinute (config rl) →
  Z.of_nat (length costs) <= RequestsPerDay (config rl) →
  length out.1 = length costs ∧
  ∀ i r, out.1 !! i = Some r →
    ∃ res, r = Ok res ∧ Allowed res = true ∧
      CurrentRequests res = Z.of_nat i + 1 ∧
      CurrentTokens res = sumZ (take (S i) costs) ∧
      CurrentDayReqs res = Z.of_nat i + 1.
Proof.
  intros now out Hsame Hquiet Hcfg A1 A2 A3 Hcosts L1 L2 L3. subst out.
  destruct (CheckAndIncrementAll_within_budget rl now costs w 0 0 0)
    as (I0 & I1 & _); try done; try lia;
    try (by apply canonical_absent); try (by apply counter_absent).
Qed.

Lemma calls_within_budget_are_all_allowed_witness :
  ∃ res, (CheckAndIncrementAll (New (mkConfig 3 100 50)) [20; 30; 50]
            (exampleWorld ∅)).1 !! 2%nat = Some (Ok res) ∧
         Allowed res = true ∧ CurrentTokens res = 100.
Proof.
  assert (∃ r, (CheckAndIncrementAll (New (mkConfig 3 100 50)) [20; 30; 50]
                  (exampleWorld ∅)).1 !! 2%nat = Some r) as [r Hr].
  { vm_compute. eexists. reflexivity. }
  pose proof (calls_within_budget_are_all_allowed (New (mkConfig 3 100 50))
                [20; 30; 50] (exampleWorld ∅)) as H.
  cbv zeta in H.
  assert (sameWindows (clock (exampleWorld ∅))
            (clock (exampleWorld ∅) (ticks (exampleWorld ∅)))) as Hsame.
  { intros i. split; reflexivity. }
  specialize (H Hsame (λ _, eq_refl)).
  assert (intConfig (config (New (mkConfig 3 100 50)))) as Hcfg by crunch.
  specialize (H Hcfg).
  do 3 (let P := match type of H with ?P → _ => P end in
        assert P as HP by (vm_compute; reflexivity); specialize (H HP); clear HP).
  assert (Forall isCost [20; 30; 50]) as Hcosts by (repeat constructor; crunch).
  specialize (H Hcosts).
  do 3 (let P := match type of H with ?P → _ => P end in
        assert P as HP by crunch; specialize (H HP); clear HP).
  destruct H as [_ H].
  destruct (H 2%nat r Hr) as (res & -> & Ha & _ & R2 & _).
  exists res. repeat split; [done .. |]. rewrite R2. reflexivity.
Defined.

(** ** The call after a burst *)

Lemma CheckAndIncrementAll_app rl l1 l2 w :
  CheckAndIncrementAll rl (l1 ++ l2) w =
  let '(rs1, w1) := CheckAndIncrementAll rl l1 w in
  let '(rs2, w2) := CheckAndIncrementAll rl l2 w1 in
  ((rs1 ++ rs2)%list, w2).
Proof.
  revert w. induction l1 as [| c l1 IH]; intros w.
  { cbn. by destruct (CheckAndIncrementAll rl l2 w). }
  cbn [app CheckAndIncrementAll]. unfold bind.
  destruct (CheckAndIncrement rl c w) as [r w0]. rewrite IH.
  destruct (CheckAndIncrementAll rl l1 w0) as [rs1 w1]. unfold ret.
  destruct (CheckAndIncrementAll rl l2 w1) as [rs2 w2]. reflexivity.
Qed.

(** One call on counters [a], [s] and [d] that Redis can increment: it
    returns a result, and the three comparisons decide which. *)
Lemma CheckAndIncrement_decides rl now c w a s d :
  sameWindows (clock w) now →
  net w (trips w) = None → net w (S (trips w)) = None →
  canonical (store w) (minuteKey rl now) →
  canonical (store w) (minuteTokenKey rl now) →
  canonical (store w) (dayKey rl now) →
  intConfig (config rl) →
  counter (store w) (minuteKey rl now) = a →
  counter (store w) (minuteTokenKey rl now) = s →
  GoInt.in_int (s + c) →
  counter (store w) (dayKey rl now) = d →
  ∃ res,
    (CheckAndIncrement rl c w).1 = Ok res ∧
    Allowed res =
      (a <? RequestsPerMinute (config rl))
      && (s + c <=? TokensPerMinute (config rl))
      && (d <? RequestsPerDay (config rl)) ∧
    CurrentRequests res = a + (if Allowed res then 1 else 0) ∧
    CurrentTokens res = s + (if Allowed res then c else 0) ∧
    CurrentDayReqs res = d + (if Allowed res then 1 else 0) ∧
    counter (store (CheckAndIncrement rl c w).2) (minuteKey rl now)
      = CurrentRequests res ∧
    counter (store (CheckAndIncrement rl c w).2) (minuteTokenKey rl now)
      = CurrentTokens res ∧
    counter (store (CheckAndIncrement rl c w).2) (dayKey rl now)
      = CurrentDayReqs res.
Proof.
  intros Hsame Hn1 Hn2 B1 B2 B3 (G1 & _ & G3) C1 C2 Hsc C3.
  destruct (sameWindows_keys rl (clock w) now (ticks w) Hsame) as (K1 & K2 & K3).
  assert (GoInt.add s c = s + c) as Hadd by (by apply add_exact).
  pose proof (counter_in_int (store w) (minuteKey rl now)) as Ia.
  pose proof (counter_in_int (store w) (dayKey rl now)) as Id.
  rewrite C1 in Ia. rewrite C3 in Id.
  destruct (Z_le_gt_dec (RequestsPerMinute (config rl)) a) as [Hr | Hr].
  { rewrite CheckAndIncrement_reject_minute by (done || (rewrite K1; lia)).
    rewrite K1, K2, K3, C1, C2, C3. eexists. split; [reflexivity |].
    cbn [Allowed CurrentRequests CurrentTokens CurrentDayReqs snd after store].
    apply Z.ltb_ge in Hr. rewrite Hr. cbn [andb].
    repeat split; (lia || done). }
  destruct (Z_lt_ge_dec (TokensPerMinute (config rl)) (s + c)) as [Ht | Ht].
  { rewrite CheckAndIncrement_reject_tokens
      by (done || (rewrite K1; lia) || (rewrite K2, C2, Hadd; lia)).
    rewrite K1, K2, K3, C1, C2, C3. eexists. split; [reflexivity |].
    cbn [Allowed CurrentRequests CurrentTokens CurrentDayReqs snd after store].
    apply Z.leb_gt in Ht. rewrite Ht, andb_false_r. cbn [andb].
    repeat split; (lia || done). }
  destruct (Z_le_gt_dec (RequestsPerDay (config rl)) d) as [Hy | Hy].
  { rewrite CheckAndIncrement_reject_day
      by (done || (rewrite K1; lia) || (rewrite K2, C2, Hadd; lia)
          || (rewrite K3; lia)).
    rewrite K1, K2, K3, C1, C2, C3. eexists. split; [reflexivity |].
    cbn [Allowed CurrentRequests CurrentTokens CurrentDayReqs snd after store].
    apply Z.ltb_ge in Hy. rewrite Hy, andb_false_r.
    repeat split; (lia || done). }
  assert (writable (store w) (minuteKey rl now) 1 ∧
          writable (store w) (minuteTokenKey rl now) c ∧
          writable (store w) (dayKey rl now) 1) as (W1 & W2 & W3).
  { unfold writable, canonical, GoInt.in_int, GoInt.min_int, GoInt.max_int in *.
    repeat split; (done || lia). }
  rewrite CheckAndIncrement_allowed;
    [| done | done | rewrite K1; lia | rewrite K2, C2, Hadd; lia | rewrite K3; lia
     | by rewrite K1 | by rewrite K2 | by rewrite K3].
  rewrite K1, K2, K3, (written_same_windows rl now _ c (store w) K1 K2 K3).
  destruct (written_counters rl now c (store w) W1 W2 W3) as (D1 & D2 & D3).
  eexists. split; [reflexivity |].
  cbn [Allowed CurrentRequests CurrentTokens CurrentDayReqs snd after store].
  rewrite D1, D2, D3, C1, C2, C3.
  rewrite (proj2 (Z.ltb_lt a _)), (proj2 (Z.leb_le (s + c) _)),
          (proj2 (Z.ltb_lt d _)) by lia.
  done.
Qed.

(** X6.  What follows a burst.  After a sequence of calls that fits the
    three ceilings, issued on buckets that did not exist, one more call of
    cost [c] returns a result, and it is allowed exactly when the burst has
    left room under each ceiling: fewer calls than [RequestsPerMinute] and
    than [RequestsPerDay], and a total cost that with [c] added stays
    within [TokensPerMinute].  The counts it reports are those of the
    burst, plus its own when it is allowed. *)
Theorem the_call_after_a_burst rl costs c w :
  let now := clock w (ticks w) in
  let n := Z.of_nat (length costs) in
  let out := CheckAndIncrementAll rl (costs ++ [c]) w in
  sameWindows (clock w) now →
  (∀ i, net w i = None) →
  intConfig (config rl) →
  store w !! minuteKey rl now = None →
  store w !! minuteTokenKey rl now = None →
  store w !! dayKey rl now = None →
  Forall isCost costs → isCost c →
  n <= RequestsPerMinute (config rl) →
  sumZ costs <= TokensPerMinute (config rl) →
  n <= RequestsPerDay (config rl) →
  sumZ costs + c <= GoInt.max_int →
  ∃ res,
    out.1 !! length costs = Some (Ok res) ∧
    (Allowed res = true ↔
       n < RequestsPerMinute (config rl) ∧
       sumZ costs + c <= TokensPerMinute (config rl) ∧
       n < RequestsPerDay (config rl)) ∧
    CurrentRequests res = n + (if Allowed res then 1 else 0) ∧
    CurrentTokens res = sumZ costs + (if Allowed res then c else 0) ∧
    CurrentDayReqs res = n + (if Allowed res then 1 else 0).
Proof.
  intros now n out Hsame Hquiet Hcfg A1 A2 A3 Hcosts Hc L1 L2 L3 Hmax.
  subst out n.
  destruct (CheckAndIncrementAll_within_budget rl now costs w 0 0 0)
    as (I0 & _ & Hclk & Hnet & B1 & B2 & B3 & C1 & C2 & C3); try done; try lia;
    try (by apply canonical_absent); try (by apply counter_absent).
  rewrite CheckAndIncrementAll_app.
  destruct (CheckAndIncrementAll rl costs w) as [rs w1]. cbn [fst snd] in *.
  assert (0 <= sumZ costs) as Hsum.
  { clear -Hcosts. induction Hcosts as [| x l Hx _ IHl]; cbn; [lia |].
    unfold isCost in Hx. fold (sumZ l). lia. }
  assert (sameWindows (clock w1) now) as Hsame1 by (by rewrite Hclk).
  assert (net w1 (trips w1) = None) as Hn1 by (by rewrite Hnet).
  assert (net w1 (S (trips w1)) = None) as Hn2 by (by rewrite Hnet).
  assert (GoInt.in_int (0 + sumZ costs + c)) as Hin.
  { unfold isCost in Hc. unfold GoInt.in_int, GoInt.min_int, GoInt.max_int in *. lia. }
  destruct (CheckAndIncrement_decides rl now c w1 _ _ _
              Hsame1 Hn1 Hn2 B1 B2 B3 Hcfg C1 C2 Hin C3)
    as (res & E & Ha & R1 & R2 & R3 & _).
  cbn [CheckAndIncrementAll]. unfold bind, ret.
  destruct (CheckAndIncrement rl c w1) as [r w2]. cbn [fst snd] in *. subst r.
  exists res. split.
  { rewrite lookup_app_r by lia. by rewrite I0, Nat.sub_diag. }
  rewrite R1, R2, R3. repeat split; try lia.
  - rewrite Ha in H. apply andb_prop in H as [H _].
    apply andb_prop in H as [H _]. apply Z.ltb_lt in H. lia.
  - rewrite Ha in H. apply andb_prop in H as [H _].
    apply andb_prop in H as [_ H]. apply Z.leb_le in H. lia.
  - rewrite Ha in H. apply andb_prop in H as [_ H]. apply Z.ltb_lt in H. lia.
  - intros (H1 & H2 & H3). rewrite Ha.
    rewrite (proj2 (Z.ltb_lt _ _)), (proj2 (Z.leb_le _ _)),
            (proj2 (Z.ltb_lt _ _)) by lia. done.
Qed.

(** Feeds the next hypothesis of [H], proved by [tac]. *)
Ltac feed H tac :=
  let P := match type of H with ?P → _ => P end in
  let HP := fresh in
  assert P as HP by tac; specialize (H HP); clear HP.

Lemma the_call_after_a_burst_witness :
  ∃ res, (CheckAndIncrementAll (New (mkConfig 2 1000 100)) ([10; 10] ++ [10])
            (exampleWorld ∅)).1 !! 2%nat = Some (Ok res) ∧
         Allowed res = false ∧ CurrentRequests res = 2.
Proof.
  pose proof (the_call_after_a_burst (New (mkConfig 2 1000 100)) [10; 10] 10
                (exampleWorld ∅)) as H.
  cbv zeta in H.
  feed H ltac:(intros i; split; reflexivity).
  feed H ltac:(intros i; reflexivity).
  feed H ltac:(crunch).
  do 3 feed H ltac:(vm_compute; reflexivity).
  feed H ltac:(repeat constructor; crunch).
  do 5 feed H ltac:(crunch).
  destruct H as (res & E & Ha & R1 & _).
  exists res. split; [exact E |].
  assert (Allowed res = false) as Hf.
  { destruct (Allowed res) eqn:Ea; [| reflexivity].
    destruct (proj1 Ha eq_refl) as [Hlt _]. vm_compute in Hlt. discriminate Hlt. }
  split; [exact Hf |]. rewrite R1, Hf. reflexivity.
Defined.

(** X7.  [GetCurrentUsage] after a burst.  After a sequence of calls that
    fits the three ceilings, issued on buckets that did not exist,
    [GetCurrentUsage] reports the number of calls, the sum of their costs
    and the number of calls again, with [Allowed] left false. *)
Theorem usage_after_a_burst rl costs w :
  let now := clock w (ticks w) in
  let n := Z.of_nat (length costs) in
  sameWindows (clock w) now →
  (∀ i, net w i = None) →
  intConfig (config rl) →
  store w !! minuteKey rl now = None →
  store w !! minuteTokenKey rl now = None →
  store w !! dayKey rl now = None →
  Forall isCost costs →
  n <= RequestsPerMinute (config rl) →
  sumZ costs <= TokensPerMinute (config rl) →
  n <= RequestsPerDay (config rl) →
  ∃ res,
    (GetCurrentUsage rl (CheckAndIncrementAll rl costs w).2).1 = Ok res ∧
    Allowed res = false ∧
    CurrentRequests res = n ∧
    CurrentTokens res = sumZ costs ∧
    CurrentDayReqs res = n.
Proof.
  intros now n Hsame Hquiet Hcfg A1 A2 A3 Hcosts L1 L2 L3. subst n.
  destruct (CheckAndIncrementAll_within_budget rl now costs w 0 0 0)
    as (_ & _ & Hclk & Hnet & _ & _ & _ & C1 & C2 & C3); try done; try lia;
    try (by apply canonical_absent); try (by apply counter_absent).
  destruct (CheckAndIncrementAll rl costs w) as [rs w1]. cbn [fst snd] in *.
  assert (sameWindows (clock w1) now) as Hsame1 by (by rewrite Hclk).
  destruct (sameWindows_keys rl (clock w1) now (ticks w1) Hsame1) as (K1 & K2 & K3).
  rewrite GetCurrentUsage_ok by (by rewrite Hnet).
  rewrite K1, K2, K3, C1, C2, C3. eexists. split; [reflexivity |].
  cbn [Allowed CurrentRequests CurrentTokens CurrentDayReqs]. repeat split; lia.
Qed.

Lemma usage_after_a_burst_witness :
  ∃ res, (GetCurrentUsage (New (mkConfig 10 100 50))
            (CheckAndIncrementAll (New (mkConfig 10 100 50)) [20; 30]
               (exampleWorld ∅)).2).1 = Ok res ∧
         CurrentRequests res = 2 ∧ CurrentTokens res = 50 ∧
         CurrentDayReqs res = 2.
Proof.
  pose proof (usage_after_a_burst (New (mkConfig 10 100 50)) [20; 30]
                (exampleWorld ∅)) as H.
  cbv zeta in H.
  feed H ltac:(intros i; split; reflexivity).
  feed H ltac:(intros i; reflexivity).
  feed H ltac:(crunch).
  do 3 feed H ltac:(vm_compute; reflexivity).
  feed H ltac:(repeat constructor; crunch).
  do 3 feed H ltac:(crunch).
  destruct H as (res & E & _ & R1 & R2 & R3).
  exists res. repeat split; done.
Defined.

(** ** [Reset] and the next call *)

(** X8.  [Reset] gives the quota back.  Whatever the three counters held
    (a ceiling reached, a value Redis cannot increment), after a [Reset]
    that completes the next call in the same windows starts from zero: with
    ceilings of at least one request and a cost within [TokensPerMinute] it
    is allowed and reports one request, its own cost and one request of the
    day. *)
Theorem Reset_gives_the_quota_back rl c w :
  let now := clock w (ticks w) in
  sameWindows (clock w) now →
  (∀ i, net w i = None) →
  0 < RequestsPerMinute (config rl) →
  GoInt.in_int32 c → c <= TokensPerMinute (config rl) →
  0 < RequestsPerDay (config rl) →
  (Reset rl w).1 = None ∧
  ∃ res,
    (CheckAndIncrement rl c (Reset rl w).2).1 = Ok res ∧
    Allowed res = true ∧
    CurrentRequests res = 1 ∧ CurrentTokens res = c ∧ CurrentDayReqs res = 1.
Proof.
  intros now Hsame Hquiet Hr Hc32 Ht Hd.
  assert (GoInt.in_int c) as Hc.
  { unfold GoInt.in_int32 in Hc32. unfold GoInt.in_int, GoInt.min_int, GoInt.max_int.
    lia. }
  rewrite Reset_ok by done. fold now. split; [reflexivity |]. cbn [snd].
  set (w1 := after w 1 _ _).
  assert (sameWindows (clock w1) now) as Hsame1 by done.
  destruct (sameWindows_keys rl (clock w1) now (ticks w1) Hsame1) as (K1 & K2 & K3).
  pose proof (minuteKey_ne_minuteTokenKey rl now now) as N12.
  pose proof (minuteKey_ne_dayKey rl now now) as N13.
  pose proof (minuteTokenKey_ne_dayKey rl now now) as N23.
  assert (store w1 !! minuteKey rl now = None) as A1.
  { subst w1. cbn [after store]. by rewrite lookup_delete_eq. }
  assert (store w1 !! minuteTokenKey rl now = None) as A2.
  { subst w1. cbn [after store].
    rewrite lookup_delete_ne by done. by rewrite lookup_delete_eq. }
  assert (store w1 !! dayKey rl now = None) as A3.
  { subst w1. cbn [after store].
    rewrite !lookup_delete_ne by done. by rewrite lookup_delete_eq. }
  assert (∀ k delta, store w1 !! k = None → GoInt.in_int delta →
            writable (store w1) k delta) as Hw.
  { intros k delta Hk Hdelta. unfold writable.
    rewrite (counter_absent _ _ Hk), Hk. split; [reflexivity | exact Hdelta]. }
  assert (GoInt.add 0 c = c) as Hadd by (by apply add_exact).
  assert (GoInt.in_int 1) as H1 by crunch.
  rewrite CheckAndIncrement_allowed.
  - eexists. split; [reflexivity |].
    cbn [Allowed CurrentRequests CurrentTokens CurrentDayReqs].
    rewrite K1, K2, K3, (counter_absent _ _ A1), (counter_absent _ _ A2),
            (counter_absent _ _ A3).
    repeat split; lia.
  - apply Hquiet.
  - apply Hquiet.
  - rewrite K1, (counter_absent _ _ A1). exact Hr.
  - rewrite K2, (counter_absent _ _ A2), Hadd. exact Ht.
  - rewrite K3, (counter_absent _ _ A3). exact Hd.
  - rewrite K1. by apply Hw.
  - rewrite K2. by apply Hw.
  - rewrite K3. by apply Hw.
Qed.

Lemma Reset_gives_the_quota_back_witness :
  ∃ res,
    (CheckAndIncrement (New (mkConfig 2 1000 100)) 10
       (Reset (New (mkConfig 2 1000 100))
          (exampleWorld (exampleStore "2" "abc" "100"))).2).1 = Ok res ∧
    Allowed res = true ∧ CurrentRequests res = 1.
Proof.
  pose proof (Reset_gives_the_quota_back (New (mkConfig 2 1000 100)) 10
                (exampleWorld (exampleStore "2" "abc" "100"))) as H.
  cbv zeta in H.
  feed H ltac:(intros i; split; reflexivity).
  feed H ltac:(intros i; reflexivity).
  do 4 feed H ltac:(crunch).
  destruct H as (_ & res & E & Ha & R1 & _).
  exists res. repeat split; done.
Defined.

(** ** When the write phase fails *)

Lemma incrby_unwritable k delta db :
  ¬ writable db k delta → incrby k delta db = (RErr (refusal db k), db).
Proof.
  intros Hw. unfold incrby, refusal.
  destruct (string2ll (from_option value "0" (db !! k))) as [cur |] eqn:E;
    [| done].
  destruct (GoInt.in_intb (cur + delta)) eqn:E2; [| done].
  exfalso. apply Hw. destruct (redis_view _ _ _ E) as [Hc _].
  unfold writable. rewrite Hc. split; [done | by apply in_intb_true].
Qed.

(** The replies to a batch without [GET]: no [redis.Nil] among them, and
    the error replies are the two of [INCRBY]. *)
Lemma cmdsFirstErr_writes cs db :
  Forall (λ c, ∀ k, c ≠ GET k) cs →
  cmdsFirstErr (exec_cmds cs db).1 = None ∨
  cmdsFirstErr (exec_cmds cs db).1
    = Some (ReplyError "ERR value is not an integer or out of range") ∨
  cmdsFirstErr (exec_cmds cs db).1
    = Some (ReplyError "ERR increment or decrement would overflow").
Proof.
  intros Hcs. revert db. induction Hcs as [| c cs Hc _ IH]; intros db; [by left |].
  rewrite exec_cmds_cons.
  assert (∀ k delta,
    (∃ z db1, incrby k delta db = (RInt z, db1)) ∨
    incrby k delta db = (RErr "ERR value is not an integer or out of range", db) ∨
    incrby k delta db = (RErr "ERR increment or decrement would overflow", db))
    as Hincr.
  { intros k delta. unfold incrby.
    destruct (string2ll _); [| auto]. destruct (GoInt.in_intb _); eauto. }
  destruct c as [k | k | k delta | k expiration | ks]; cbn [exec_cmd].
  - by destruct (Hc k).
  - destruct (Hincr k 1) as [(z & db1 & ->) | [-> | ->]].
    + specialize (IH db1). by destruct (exec_cmds cs db1).
    + destruct (exec_cmds cs db). cbn. auto.
    + destruct (exec_cmds cs db). cbn. auto.
  - destruct (Hincr k delta) as [(z & db1 & ->) | [-> | ->]].
    + specialize (IH db1). by destruct (exec_cmds cs db1).
    + destruct (exec_cmds cs db). cbn. auto.
    + destruct (exec_cmds cs db). cbn. auto.
  - destruct (db !! k) as [e |]; [destruct (0 <? expiration) |].
    + specialize (IH (<[k := mkEntry (value e) (Some expiration)]> db)).
      by destruct (exec_cmds cs _).
    + specialize (IH (delete k db)). by destruct (exec_cmds cs _).
    + specialize (IH db). by destruct (exec_cmds cs _).
  - unfold del. specialize (IH (foldr delete db ks)). by destruct (exec_cmds cs _).
Qed.

(** The write phase on the server when the increment of the token counter
    is refused and the other two go through. *)
Lemma exec_write_tokens_refused rl now tokens db :
  writable db (minuteKey rl now) 1 →
  ¬ writable db (minuteTokenKey rl now) tokens →
  writable db (dayKey rl now) 1 →
  cmdsFirstErr (exec_cmds (writeBatch rl now tokens) db).1
    = Some (ReplyError (refusal db (minuteTokenKey rl now))) ∧
  (exec_cmds (writeBatch rl now tokens) db).2 =
      <[dayKey rl now :=
          mkEntry (itoa (counter db (dayKey rl now) + 1)) (Some (25 * Hour))]>
      (alter (λ e, mkEntry (value e) (Some (2 * Minute))) (minuteTokenKey rl now)
      (<[minuteKey rl now :=
          mkEntry (itoa (counter db (minuteKey rl now) + 1)) (Some (2 * Minute))]>
       db)).
Proof.
  intros W1 W2 W3. unfold writeBatch.
  pose proof (minuteKey_ne_minuteTokenKey rl now now) as N12.
  pose proof (minuteKey_ne_dayKey rl now now) as N13.
  pose proof (minuteTokenKey_ne_dayKey rl now now) as N23.
  rewrite exec_INCR, incrby_expire_writable by (done || reflexivity).
  set (db1 := <[minuteKey rl now := _]> db).
  assert (¬ writable db1 (minuteTokenKey rl now) tokens) as W2'.
  { intros H. apply W2. by eapply writable_of_insert_ne. }
  pose proof (incrby_unwritable _ _ _ W2') as E.
  assert (refusal db1 (minuteTokenKey rl now) = refusal db (minuteTokenKey rl now))
    as Hmsg.
  { unfold refusal. subst db1. by rewrite lookup_insert_ne. }
  rewrite Hmsg in E.
  rewrite exec_cmds_cons. cbn [exec_cmd]. rewrite E. cbv beta iota.
  rewrite exec_cmds_cons. cbn [exec_cmd].
  assert ((0 <? 2 * Minute) = true) as -> by reflexivity.
  set (db2 := alter (λ e, mkEntry (value e) (Some (2 * Minute)))
                (minuteTokenKey rl now) db1).
  assert (writable db2 (dayKey rl now) 1) as W3'.
  { unfold writable, counter, db2.
    rewrite lookup_alter_ne by done. subst db1.
    rewrite lookup_insert_ne by done. exact W3. }
  assert (counter db2 (dayKey rl now) = counter db (dayKey rl now)) as C3.
  { unfold counter, db2. rewrite lookup_alter_ne by done. subst db1.
    by rewrite lookup_insert_ne. }
  assert ((match db1 !! minuteTokenKey rl now with
           | Some e => (RInt 1, <[minuteTokenKey rl now :=
                                    mkEntry (value e) (Some (2 * Minute))]> db1)
           | None => (RInt 0, db1)
           end).2 = db2) as E2.
  { subst db2. apply map_eq. intros k.
    destruct (decide (k = minuteTokenKey rl now)) as [-> | Hk].
    - rewrite lookup_alter_eq.
      destruct (db1 !! minuteTokenKey rl now) as [e |] eqn:E1; cbn [snd].
      + by rewrite lookup_insert_eq.
      + by rewrite E1.
    - rewrite lookup_alter_ne by done.
      destruct (db1 !! minuteTokenKey rl now) as [e |]; cbn [snd]; [| done].
      by rewrite lookup_insert_ne. }
  destruct (db1 !! minuteTokenKey rl now) as [e |]; cbn [snd] in E2; rewrite E2.
  all: rewrite exec_INCR, incrby_expire_writable by (done || reflexivity).
  all: cbn [exec_cmds fst snd cmdsFirstErr reply_error]; by rewrite C3.
Qed.

Lemma CheckAndIncrement_tokens_refused rl tokens w :
  net w (trips w) = None →
  net w (S (trips w)) = None →
  let now := clock w (ticks w) in
  counter (store w) (minuteKey rl now) < RequestsPerMinute (config rl) →
  GoInt.add (counter (store w) (minuteTokenKey rl now)) tokens
    <= TokensPerMinute (config rl) →
  counter (store w) (dayKey rl now) < RequestsPerDay (config rl) →
  writable (store w) (minuteKey rl now) 1 →
  ¬ writable (store w) (minuteTokenKey rl now) tokens →
  writable (store w) (dayKey rl now) 1 →
  (CheckAndIncrement rl tokens w).1
    = Err (Errorf "failed to increment counters"
             (ReplyError (refusal (store w) (minuteTokenKey rl now)))) ∧
  counter (store (CheckAndIncrement rl tokens w).2) (minuteKey rl now)
      = counter (store w) (minuteKey rl now) + 1 ∧
    counter (store (CheckAndIncrement rl tokens w).2) (dayKey rl now)
      = counter (store w) (dayKey rl now) + 1 ∧
    store (CheckAndIncrement rl tokens w).2 !! minuteTokenKey rl now
      = (λ e, mkEntry (value e) (Some (2 * Minute)))
          <$> store w !! minuteTokenKey rl now.
Proof.
  intros Hn1 Hn2 now Hr Ht Hd W1 W2 W3.
  rewrite CheckAndIncrement_pass by done. fold now. rewrite Hn2.
  destruct (exec_write_tokens_refused rl now tokens (store w) W1 W2 W3)
    as (E1 & E2).
  rewrite E1. cbn [fst snd after store].
  rewrite E2. split; [reflexivity |].
  pose proof (minuteKey_ne_minuteTokenKey rl now now) as N12.
  pose proof (minuteKey_ne_dayKey rl now now) as N13.
  pose proof (minuteTokenKey_ne_dayKey rl now now) as N23.
  repeat split.
  - rewrite counter_insert_ne by done. unfold counter at 1.
    rewrite lookup_alter_ne by done. rewrite lookup_insert_eq. cbn [from_option value].
    apply (string2ll_parseIntOrZero _ _ (string2ll_itoa _ (proj2 W1))).
  - apply counter_itoa. apply W3.
  - rewrite lookup_insert_ne by done. rewrite lookup_alter_eq.
    by rewrite lookup_insert_ne.
Qed.

(** X9.  The write phase is not atomic.  When the token counter holds
    something Redis cannot increment (a value that is no integer, which the
    read phase takes for 0, or an integer too close to the end of the
    64-bit range) while the two request counters can be incremented, a call
    that passes the three checks returns the error of the failed [INCRBY],
    and yet the minute and the day request counters have gone up by one:
    the failed call has used a request of the quota.  The token counter
    keeps its value, now with an expiry of two minutes. *)
Theorem failed_write_still_counts_the_request rl tokens w :
  net w (trips w) = None →
  net w (S (trips w)) = None →
  let now := clock w (ticks w) in
  let out := CheckAndIncrement rl tokens w in
  counter (store w) (minuteKey rl now) < RequestsPerMinute (config rl) →
  GoInt.add (counter (store w) (minuteTokenKey rl now)) tokens
    <= TokensPerMinute (config rl) →
  counter (store w) (dayKey rl now) < RequestsPerDay (config rl) →
  writable (store w) (minuteKey rl now) 1 →
  ¬ writable (store w) (minuteTokenKey rl now) tokens →
  writable (store w) (dayKey rl now) 1 →
  out.1 = Err (Errorf "failed to increment counters"
                 (ReplyError (refusal (store w) (minuteTokenKey rl now)))) ∧
  counter (store out.2) (minuteKey rl now)
    = counter (store w) (minuteKey rl now) + 1 ∧
  counter (store out.2) (dayKey rl now)
    = counter (store w) (dayKey rl now) + 1 ∧
  store out.2 !! minuteTokenKey rl now
    = (λ e, mkEntry (value e) (Some (2 * Minute)))
        <$> store w !! minuteTokenKey rl now.
Proof.
  intros Hn1 Hn2 now out Hr Ht Hd W1 W2 W3. subst out.
  exact (CheckAndIncrement_tokens_refused rl tokens w Hn1 Hn2 Hr Ht Hd W1 W2 W3).
Qed.

Lemma failed_write_still_counts_the_request_witness :
  (CheckAndIncrement (New (mkConfig 2 1000 100)) 10
     (exampleWorld (exampleStore "1" "abc" "7"))).1
  = Err (Errorf "failed to increment counters"
           (ReplyError "ERR value is not an integer or out of range")) ∧
  counter (store (CheckAndIncrement (New (mkConfig 2 1000 100)) 10
                    (exampleWorld (exampleStore "1" "abc" "7"))).2)
    "gemini:ratelimit:minute:2024-11-25:23:30" = 2 ∧
  counter (store (CheckAndIncrement (New (mkConfig 2 1000 100)) 10
                    (exampleWorld (exampleStore "1" "abc" "7"))).2)
    "gemini:ratelimit:day:2024-11-25" = 8.
Proof.
  pose proof (failed_write_still_counts_the_request (New (mkConfig 2 1000 100)) 10
                (exampleWorld (exampleStore "1" "abc" "7"))) as H.
  cbv zeta in H.
  do 2 feed H ltac:(reflexivity).
  do 4 feed H ltac:(crunch).
  feed H ltac:(intros [Hw _]; vm_compute in Hw; discriminate Hw).
  feed H ltac:(crunch).
  destruct H as (E & R1 & R2 & _).
  assert (minuteKey (New (mkConfig 2 1000 100))
            (clock (exampleWorld (exampleStore "1" "abc" "7"))
               (ticks (exampleWorld (exampleStore "1" "abc" "7"))))
          = "gemini:ratelimit:minute:2024-11-25:23:30") as K1
    by (vm_compute; reflexivity).
  assert (dayKey (New (mkConfig 2 1000 100))
            (clock (exampleWorld (exampleStore "1" "abc" "7"))
               (ticks (exampleWorld (exampleStore "1" "abc" "7"))))
          = "gemini:ratelimit:day:2024-11-25") as K3
    by (vm_compute; reflexivity).
  assert (refusal (store (exampleWorld (exampleStore "1" "abc" "7")))
            (minuteTokenKey (New (mkConfig 2 1000 100))
               (clock (exampleWorld (exampleStore "1" "abc" "7"))
                  (ticks (exampleWorld (exampleStore "1" "abc" "7")))))
          = "ERR value is not an integer or out of range") as Hmsg
    by (vm_compute; reflexivity).
  rewrite Hmsg in E. rewrite K1 in R1. rewrite K3 in R2.
  assert (counter (exampleStore "1" "abc" "7")
            "gemini:ratelimit:minute:2024-11-25:23:30" = 1) as C1
    by (vm_compute; reflexivity).
  assert (counter (exampleStore "1" "abc" "7")
            "gemini:ratelimit:day:2024-11-25" = 7) as C3
    by (vm_compute; reflexivity).
  cbn [store exampleWorld] in R1, R2. rewrite C1 in R1. rewrite C3 in R2.
  repeat split; done.
Defined.

(** X10.  The token check adds in Go's [int] and wraps.  When the token
    counter is so large that with the cost added it passes the end of the
    64-bit range, the sum the check compares is negative, so the call is not
    rejected although the sum exceeds every possible ceiling; the
    [INCRBY] then overflows on the server, the call returns that error,
    and both request counters have gone up by one. *)
Theorem wrapped_sum_slips_past_the_token_ceiling rl tokens w :
  net w (trips w) = None →
  net w (S (trips w)) = None →
  let now := clock w (ticks w) in
  let out := CheckAndIncrement rl tokens w in
  canonical (store w) (minuteTokenKey rl now) →
  GoInt.in_int32 tokens →
  GoInt.max_int < counter (store w) (minuteTokenKey rl now) + tokens →
  0 <= TokensPerMinute (config rl) →
  counter (store w) (minuteKey rl now) < RequestsPerMinute (config rl) →
  counter (store w) (dayKey rl now) < RequestsPerDay (config rl) →
  writable (store w) (minuteKey rl now) 1 →
  writable (store w) (dayKey rl now) 1 →
  GoInt.add (counter (store w) (minuteTokenKey rl now)) tokens < 0 ∧
  out.1 = Err (Errorf "failed to increment counters"
                 (ReplyError "ERR increment or decrement would overflow")) ∧
  counter (store out.2) (minuteKey rl now)
    = counter (store w) (minuteKey rl now) + 1 ∧
  counter (store out.2) (dayKey rl now)
    = counter (store w) (dayKey rl now) + 1.
Proof.
  intros Hn1 Hn2 now out Hcan Htok Hover Htpm Hr Hd W1 W3. subst out.
  pose proof (counter_in_int (store w) (minuteTokenKey rl now)) as Ht.
  assert (GoInt.add (counter (store w) (minuteTokenKey rl now)) tokens
          = counter (store w) (minuteTokenKey rl now) + tokens - 2 ^ 64) as Hwrap.
  { unfold GoInt.add, GoInt.wrap.
    unfold GoInt.in_int, GoInt.in_int32, GoInt.min_int, GoInt.max_int in *.
    rewrite <- (Z.mod_add _ (-1)) by lia.
    rewrite Z.mod_small; lia. }
  assert (¬ writable (store w) (minuteTokenKey rl now) tokens) as W2.
  { intros [_ H]. unfold GoInt.in_int in H. lia. }
  assert (GoInt.add (counter (store w) (minuteTokenKey rl now)) tokens < 0) as Hneg.
  { rewrite Hwrap.
    unfold GoInt.in_int, GoInt.in_int32, GoInt.min_int, GoInt.max_int in *. lia. }
  split; [exact Hneg |].
  destruct (CheckAndIncrement_tokens_refused rl tokens w Hn1 Hn2 Hr) with (2 := Hd)
    as (E & R1 & R3 & _); [fold now; lia | done .. |].
  rewrite E. unfold refusal. fold now. rewrite Hcan. done.
Qed.

Lemma wrapped_sum_slips_past_the_token_ceiling_witness :
  (CheckAndIncrement (New (mkConfig 2 1000 100)) 1
     (exampleWorld (exampleStore "1" "9223372036854775807" "7"))).1
  = Err (Errorf "failed to increment counters"
           (ReplyError "ERR increment or decrement would overflow")).
Proof.
  pose proof (wrapped_sum_slips_past_the_token_ceiling (New (mkConfig 2 1000 100)) 1
                (exampleWorld (exampleStore "1" "9223372036854775807" "7"))) as H.
  cbv zeta in H.
  do 2 feed H ltac:(reflexivity).
  feed H ltac:(vm_compute; reflexivity).
  do 7 feed H ltac:(crunch).
  exact (proj1 (proj2 H)).
Defined.

(** ** Every way to fail *)

(** X11.  The errors [CheckAndIncrement] can return.  It fails in the read
    phase only when the round trip does not complete, with the store as it
    was; otherwise it fails in the write phase, when the second round trip
    does not complete or when Redis refuses an increment, with one of the
    two error replies of [INCRBY].  [redis.Nil] never comes back, from
    either phase. *)
Theorem CheckAndIncrement_fails_in_one_of_two_ways rl tokens w e :
  (CheckAndIncrement rl tokens w).1 = Err e →
  (∃ f, net w (trips w) = Some f ∧
        e = Errorf "failed to get current values" (NetError (cause f)) ∧
        store (CheckAndIncrement rl tokens w).2 = store w) ∨
  (net w (trips w) = None ∧
   ∃ e', e = Errorf "failed to increment counters" e' ∧
     ((∃ f, net w (S (trips w)) = Some f ∧ e' = NetError (cause f)) ∨
      (net w (S (trips w)) = None ∧
       (e' = ReplyError "ERR value is not an integer or out of range" ∨
        e' = ReplyError "ERR increment or decrement would overflow")))).
Proof.
  intros H. destruct (net w (trips w)) as [f |] eqn:Hnet.
  { left. exists f. rewrite (CheckAndIncrement_read_fault _ _ _ _ Hnet) in *.
    injection H as <-. done. }
  right. split; [reflexivity |].
  destruct (Z_le_gt_dec (RequestsPerMinute (config rl))
              (counter (store w) (minuteKey rl (clock w (ticks w))))) as [Hr | Hr].
  { by rewrite CheckAndIncrement_reject_minute in H. }
  destruct (Z_lt_ge_dec (TokensPerMinute (config rl))
              (GoInt.add (counter (store w) (minuteTokenKey rl (clock w (ticks w))))
                 tokens)) as [Ht | Ht].
  { by rewrite CheckAndIncrement_reject_tokens in H by (done || lia). }
  destruct (Z_le_gt_dec (RequestsPerDay (config rl))
              (counter (store w) (dayKey rl (clock w (ticks w))))) as [Hd | Hd].
  { by rewrite CheckAndIncrement_reject_day in H by (done || lia). }
  rewrite CheckAndIncrement_pass in H by (done || lia).
  destruct (net w (S (trips w))) as [f |].
  { injection H as <-. eexists. split; [reflexivity |]. left. by exists f. }
  destruct (cmdsFirstErr_writes (writeBatch rl (clock w (ticks w)) tokens) (store w))
    as [E | [E | E]].
  - repeat constructor; discriminate.
  - rewrite E in H. discriminate H.
  - rewrite E in H. injection H as <-. eexists. split; [reflexivity |]. auto.
  - rewrite E in H. injection H as <-. eexists. split; [reflexivity |]. auto.
Qed.

Lemma CheckAndIncrement_fails_in_one_of_two_ways_witness :
  ∃ e, (CheckAndIncrement (New (mkConfig 2 1000 100)) 10
          (exampleWorld (exampleStore "1" "abc" "7"))).1 = Err e ∧
       e = Errorf "failed to increment counters"
             (ReplyError "ERR value is not an integer or out of range").
Proof.
  assert (∃ e, (CheckAndIncrement (New (mkConfig 2 1000 100)) 10
                  (exampleWorld (exampleStore "1" "abc" "7"))).1 = Err e)
    as [e He] by (vm_compute; eexists; reflexivity).
  exists e. split; [exact He |].
  destruct (CheckAndIncrement_fails_in_one_of_two_ways _ _ _ _ He)
    as [(f & Hf & _) | (_ & e' & -> & [(f & Hf & _) | (_ & [-> | ->])])].
  - discriminate Hf.
  - discriminate Hf.
  - reflexivity.
  - exfalso. vm_compute in He. discriminate He.
Defined.

(** X12.  [GetCurrentUsage] fails exactly when its round trip does not
    complete, and then with the transport's error wrapped once; an absent
    key or a value that is no number never makes it fail. *)
Theorem GetCurrentUsage_fails_only_with_the_transport rl w e :
  (GetCurrentUsage rl w).1 = Err e ↔
  ∃ f, net w (trips w) = Some f ∧
       e = Errorf "failed to get usage" (NetError (cause f)).
Proof.
  destruct (net w (trips w)) as [f |] eqn:Hnet.
  - rewrite (GetCurrentUsage_fault _ _ _ Hnet). cbn [fst]. split.
    + intros [= <-]. by exists f.
    + intros (f' & [= <-] & ->). reflexivity.
  - rewrite GetCurrentUsage_ok by done. cbn [fst]. split; [discriminate |].
    intros (f & Hf & _). discriminate Hf.
Qed.

(** ** Reset durations *)

Lemma Sub_le t u m :
  GoInt.min_int <= m <= GoInt.max_int → wall t - wall u <= m → Sub t u <= m.
Proof.
  intros Hm H. unfold Sub. cbv zeta.
  destruct (Z.ltb_spec (wall t - wall u) GoInt.min_int); [lia |].
  destruct (Z.ltb_spec GoInt.max_int (wall t - wall u)); lia.
Qed.

Lemma minuteBoundary_Sub_le now u :
  wall now <= wall u → Sub (minuteBoundary now) u <= Minute.
Proof.
  intros H. apply Sub_le; [crunch |].
  pose proof (minuteBoundary_spec now). lia.
Qed.

Lemma dayBoundary_Sub_le now u :
  wall now <= wall u → Sub (dayBoundary now) u <= 24 * Hour.
Proof.
  intros H. apply Sub_le; [crunch |].
  pose proof (dayBoundary_spec now). lia.
Qed.



(** X14.  Under a clock that never runs backwards no result promises a
    reset further away than the length of its window: [ResetMinute] is at
    most one minute and [ResetDay] at most 24 hours, in the results of
    [CheckAndIncrement] and of [GetCurrentUsage] alike. *)
Theorem reset_durations_are_bounded rl w :
  monotoneClock (clock w) →
  (∀ tokens res w', CheckAndIncrement rl tokens w = (Ok res, w') →
     ResetMinute res <= Minute ∧ ResetDay res <= 24 * Hour) ∧
  (∀ res w', GetCurrentUsage rl w = (Ok res, w') →
     ResetMinute res <= Minute ∧ ResetDay res <= 24 * Hour).
Proof.
  intros Hclk.
  assert (wall (clock w (ticks w)) <= wall (clock w (S (ticks w)))) as H1
    by (apply Hclk; lia).
  assert (wall (clock w (ticks w)) <= wall (clock w (S (S (ticks w))))) as H2
    by (apply Hclk; lia).
  pose proof (minuteBoundary_Sub_le _ _ H1) as M1.
  pose proof (dayBoundary_Sub_le _ _ H1) as D1.
  pose proof (dayBoundary_Sub_le _ _ H2) as D2.
  assert (0 <= Minute ∧ 0 <= 24 * Hour) as [P1 P2] by crunch.
  split.
  - intros tokens res w' H.
    destruct (net w (trips w)) as [f |] eqn:Hnet.
    { rewrite (CheckAndIncrement_read_fault _ _ _ _ Hnet) in H. discriminate H. }
    destruct (Z_le_gt_dec (RequestsPerMinute (config rl))
                (counter (store w) (minuteKey rl (clock w (ticks w))))) as [Hr | Hr].
    { rewrite CheckAndIncrement_reject_minute in H by done. injection H as <- <-.
      done. }
    destruct (Z_lt_ge_dec (TokensPerMinute (config rl))
                (GoInt.add (counter (store w) (minuteTokenKey rl (clock w (ticks w))))
                   tokens)) as [Ht | Ht].
    { rewrite CheckAndIncrement_reject_tokens in H by (done || lia).
      injection H as <- <-. done. }
    destruct (Z_le_gt_dec (RequestsPerDay (config rl))
                (counter (store w) (dayKey rl (clock w (ticks w))))) as [Hd | Hd].
    { rewrite CheckAndIncrement_reject_day in H by (done || lia).
      injection H as <- <-. done. }
    rewrite CheckAndIncrement_pass in H by (done || lia).
    destruct (net w (S (trips w))); [discriminate H |].
    destruct (cmdsFirstErr _); [discriminate H |].
    injection H as <- <-. done.
  - intros res w' H.
    destruct (net w (trips w)) as [f |] eqn:Hnet.
    { rewrite (GetCurrentUsage_fault _ _ _ Hnet) in H. discriminate H. }
    rewrite GetCurrentUsage_ok in H by done. injection H as <- <-. done.
Qed.

Lemma reset_durations_are_bounded_witness :
  ∃ res w',
    GetCurrentUsage (New (mkConfig 2 1000 100)) (exampleWorld ∅) = (Ok res, w') ∧
    ResetMinute res <= Minute ∧ ResetDay res <= 24 * Hour.
Proof.
  assert (∃ res w', GetCurrentUsage (New (mkConfig 2 1000 100)) (exampleWorld ∅)
                    = (Ok res, w')) as (res & w' & E).
  { vm_compute. eexists _, _. reflexivity. }
  exists res, w'. split; [exact E |].
  assert (monotoneClock (clock (exampleWorld ∅))) as Hm.
  { intros i j _. reflexivity. }
  exact (proj2 (reset_durations_are_bounded (New (mkConfig 2 1000 100))
                  (exampleWorld ∅) Hm) res w' E).
Defined.

(** ** From one minute to the next *)

Lemma CheckAndIncrementAll_frame rl now costs w :
  sameWindows (clock w) now →
  ∀ k, ¬ ownKey rl now k →
       store (CheckAndIncrementAll rl costs w).2 !! k = store w !! k.
Proof.
  revert w. induction costs as [| c costs IH]; intros w Hsame k Hk; [done |].
  cbn [CheckAndIncrementAll]. unfold bind.
  destruct (CheckAndIncrement_frame rl c w) as (Hclk & _ & Hfr).
  destruct (sameWindows_keys rl (clock w) now (ticks w) Hsame) as (K1 & K2 & K3).
  destruct (CheckAndIncrement rl c w) as [r w1]. cbn [snd] in *.
  specialize (IH w1). rewrite Hclk in IH. specialize (IH Hsame k Hk).
  destruct (CheckAndIncrementAll rl costs w1) as [rs w2]. cbn [snd ret] in *.
  rewrite IH. apply Hfr. unfold ownKey. by rewrite K1, K2, K3.
Qed.

(** X15.  Fixed windows.  A burst that fits the ceilings is issued on
    fresh buckets in the windows of [now]; a second burst follows on the
    store the first one left, at readings of the clock that fall in another
    minute of the same day.  If the second burst fits the two minute
    ceilings on its own and the day ceiling together with the first, every
    call of it is allowed: the minute counts start again from zero, whatever
    the first burst used, while the day count goes on. *)
Theorem a_new_minute_starts_from_zero rl costs1 costs2 w w2 :
  let now := clock w (ticks w) in
  let now2 := clock w2 (ticks w2) in
  let n1 := Z.of_nat (length costs1) in
  let n2 := Z.of_nat (length costs2) in
  let out := CheckAndIncrementAll rl costs2 w2 in
  sameWindows (clock w) now →
  (∀ i, net w i = None) →
  intConfig (config rl) →
  store w !! minuteKey rl now = None →
  store w !! minuteTokenKey rl now = None →
  store w !! dayKey rl now = None →
  Forall isCost costs1 →
  n1 <= RequestsPerMinute (config rl) →
  sumZ costs1 <= TokensPerMinute (config rl) →
  store w2 = store (CheckAndIncrementAll rl costs1 w).2 →
  sameWindows (clock w2) now2 →
  (∀ i, net w2 i = None) →
  Format now2 layoutMinute ≠ Format now layoutMinute →
  Format now2 layoutDay = Format now layoutDay →
  store w !! minuteKey rl now2 = None →
  store w !! minuteTokenKey rl now2 = None →
  Forall isCost costs2 →
  n2 <= RequestsPerMinute (config rl) →
  sumZ costs2 <= TokensPerMinute (config rl) →
  n1 + n2 <= RequestsPerDay (config rl) →
  length out.1 = length costs2 ∧
  ∀ i r, out.1 !! i = Some r →
    ∃ res, r = Ok res ∧ Allowed res = true ∧
      CurrentRequests res = Z.of_nat i + 1 ∧
      CurrentTokens res = sumZ (take (S i) costs2) ∧
      CurrentDayReqs res = n1 + Z.of_nat i + 1.
Proof.
  intros now now2 n1 n2 out Hsame Hquiet Hcfg A1 A2 A3 Hcosts1 L1 L2
    Hstore Hsame2 Hquiet2 Hmin Hday F1 F2 Hcosts2 M1 M2 M3.
  subst out n1 n2.
  assert (0 <= Z.of_nat (length costs2)) as Hn2 by lia.
  destruct (CheckAndIncrementAll_within_budget rl now costs1 w 0 0 0)
    as (_ & _ & _ & _ & _ & _ & B3 & _ & _ & C3); try done; try lia;
    try (by apply canonical_absent); try (by apply counter_absent).
  assert (dayKey rl now2 = dayKey rl now) as Kd by (unfold dayKey; by rewrite Hday).
  assert (¬ ownKey rl now (minuteKey rl now2)) as O1.
  { intros [H | [H | H]].
    - unfold minuteKey in H. by do 2 apply String.app_inj in H.
    - by apply (minuteKey_ne_minuteTokenKey rl now2 now).
    - by apply (minuteKey_ne_dayKey rl now2 now). }
  assert (¬ ownKey rl now (minuteTokenKey rl now2)) as O2.
  { intros [H | [H | H]].
    - by apply (minuteKey_ne_minuteTokenKey rl now now2).
    - unfold minuteTokenKey in H. by do 2 apply String.app_inj in H.
    - by apply (minuteTokenKey_ne_dayKey rl now2 now). }
  pose proof (CheckAndIncrementAll_frame rl now costs1 w Hsame _ O1) as E1.
  pose proof (CheckAndIncrementAll_frame rl now costs1 w Hsame _ O2) as E2.
  rewrite <- Hstore in E1, E2, B3, C3. rewrite F1 in E1. rewrite F2 in E2.
  rewrite <- Kd in B3, C3.
  destruct (CheckAndIncrementAll_within_budget rl now2 costs2 w2
              0 0 (0 + Z.of_nat (length costs1)))
    as (I0 & I1 & _); try done; try lia;
    try (by apply canonical_absent); try (by apply counter_absent).
Qed.

Lemma store_mkWorld db clk n nt tr wi : store (mkWorld db clk n nt tr wi) = db.
Proof. reflexivity. Qed.

Lemma a_new_minute_starts_from_zero_witness :
  ∃ res,
    (CheckAndIncrementAll (New (mkConfig 2 1000 100)) [10; 10]
       (nextMinuteWorld
          (store (CheckAndIncrementAll (New (mkConfig 2 1000 100)) [10; 10]
                    minuteEndWorld).2))).1 !! 1%nat = Some (Ok res) ∧
    Allowed res = true ∧ CurrentRequests res = 2 ∧ CurrentDayReqs res = 4.
Proof.
  set (rl := New (mkConfig 2 1000 100)).
  set (w2 := nextMinuteWorld _).
  assert (∃ r, (CheckAndIncrementAll rl [10; 10] w2).1 !! 1%nat = Some r) as [r Hr].
  { vm_compute. eexists. reflexivity. }
  pose proof (a_new_minute_starts_from_zero rl [10; 10] [10; 10]
                minuteEndWorld w2) as H.
  cbv zeta in H.
  feed H ltac:(intros i; split; reflexivity).
  feed H ltac:(intros i; reflexivity).
  feed H ltac:(crunch).
  do 3 feed H ltac:(vm_compute; reflexivity).
  feed H ltac:(repeat constructor; crunch).
  do 2 feed H ltac:(crunch).
  feed H ltac:(exact (store_mkWorld _ _ _ _ _ _)).
  feed H ltac:(intros i; split; reflexivity).
  feed H ltac:(intros i; reflexivity).
  feed H ltac:(let E := fresh in intros E; vm_compute in E; discriminate E).
  do 3 feed H ltac:(vm_compute; reflexivity).
  feed H ltac:(repeat constructor; crunch).
  do 3 feed H ltac:(crunch).
  destruct H as [_ H]. destruct (H 1%nat r Hr) as (res & -> & Ha & R1 & _ & R3).
  exists res.
  repeat split; [done | done | rewrite R1; reflexivity | rewrite R3; reflexivity].
Defined.

(** ** Callers that overlap *)

(** [CheckAndIncrement] is its two phases, one after the other. *)
Lemma CheckAndIncrement_in_two_phases rl tokens w :
  CheckAndIncrement rl tokens w
  = (v <- readAndCheck rl tokens ;; conclude rl tokens v) w.
Proof.
  unfold CheckAndIncrement, readAndCheck, conclude, increment, bind, Now, Exec.
  cbn [store clock ticks net trips wire].
  destruct (net w (trips w)) as [f |].
  { by destruct (exec_cmds _ _). }
  destruct (exec_cmds _ (store w)) as [rs db].
  destruct (cmdsFirstErr rs) as [[| | |] |]; try reflexivity.
  all: repeat (match goal with
               | |- context [if ?b then _ else _] => destruct b
               end; try reflexivity).
Qed.

Lemma readAndCheck_pass rl tokens w :
  net w (trips w) = None →
  let now := clock w (ticks w) in
  counter (store w) (minuteKey rl now) < RequestsPerMinute (config rl) →
  GoInt.add (counter (store w) (minuteTokenKey rl now)) tokens
    <= TokensPerMinute (config rl) →
  counter (store w) (dayKey rl now) < RequestsPerDay (config rl) →
  readAndCheck rl tokens w =
  (Passed now
     (mkCheckResult true
        (counter (store w) (minuteKey rl now))
        (counter (store w) (minuteTokenKey rl now))
        (counter (store w) (dayKey rl now)) 0 0 ""),
   after w 1 [readBatch rl now] (store w)).
Proof.
  intros Hnet now Hr Ht Hd. subst now.
  apply Z.leb_gt in Hr. apply Z.ltb_ge in Ht. apply Z.leb_gt in Hd.
  read_phase readAndCheck Hnet.
  benign_error; rewrite Hr, Ht, Hd; reflexivity.
Qed.

Lemma increment_ok rl tokens now result w :
  net w (trips w) = None →
  writable (store w) (minuteKey rl now) 1 →
  writable (store w) (minuteTokenKey rl now) tokens →
  writable (store w) (dayKey rl now) 1 →
  increment rl tokens now result w =
  (Ok (mkCheckResult (Allowed result)
         (GoInt.add (CurrentRequests result) 1)
         (GoInt.add (CurrentTokens result) tokens)
         (GoInt.add (CurrentDayReqs result) 1)
         (Sub (minuteBoundary now) (clock w (ticks w)))
         (Sub (dayBoundary now) (clock w (S (ticks w))))
         (RejectionReason result)),
   after w 2 [writeBatch rl now tokens] (written rl now tokens (store w))).
Proof.
  intros Hnet W1 W2 W3. unfold increment, bind, Exec. cbv zeta.
  fold (minuteKey rl now) (minuteTokenKey rl now) (dayKey rl now).
  fold (writeBatch rl now tokens).
  rewrite Hnet, exec_write_ok by done. cbn [cmdsFirstErr reply_error].
  reflexivity.
Qed.

(** X16.  The check and the increment are two round trips, so callers
    that overlap can pass a ceiling together.  When two calls have both
    read the counters before either writes, and each of them on its own
    fits the three ceilings, both are allowed and both report the same
    count of requests, one more than what they read, while the stored
    count has gone up by two and the stored tokens by both costs.  With
    one request left under [RequestsPerMinute], the minute ends one above
    the ceiling.  (The two phases, run one after the other, are
    [CheckAndIncrement].) *)
Theorem overlapping_calls_pass_a_ceiling_together rl tokensA tokensB w :
  let now := clock w (ticks w) in
  let r := counter (store w) (minuteKey rl now) in
  let s := counter (store w) (minuteTokenKey rl now) in
  let d := counter (store w) (dayKey rl now) in
  let out := overlapping rl tokensA tokensB w in
  sameWindows (clock w) now →
  (∀ i, net w i = None) →
  isCost tokensA → isCost tokensB →
  r < RequestsPerMinute (config rl) →
  s + tokensA <= TokensPerMinute (config rl) →
  s + tokensB <= TokensPerMinute (config rl) →
  d < RequestsPerDay (config rl) →
  writable (store w) (minuteKey rl now) 2 →
  writable (store w) (minuteTokenKey rl now) (tokensA + tokensB) →
  writable (store w) (dayKey rl now) 2 →
  (∀ tokens w0,
     CheckAndIncrement rl tokens w0
     = (v <- readAndCheck rl tokens ;; conclude rl tokens v) w0) ∧
  ∃ resA resB,
    out.1 = (Ok resA, Ok resB) ∧
    Allowed resA = true ∧ Allowed resB = true ∧
    CurrentRequests resA = r + 1 ∧ CurrentRequests resB = r + 1 ∧
    CurrentTokens resA = s + tokensA ∧ CurrentTokens resB = s + tokensB ∧
    counter (store out.2) (minuteKey rl now) = r + 2 ∧
    counter (store out.2) (minuteTokenKey rl now) = s + tokensA + tokensB ∧
    counter (store out.2) (dayKey rl now) = d + 2.
Proof.
  intros now r s d out Hsame Hquiet HA HB Hr HtA HtB Hd [B1 I1] [B2 I2] [B3 I3].
  split; [apply CheckAndIncrement_in_two_phases |].
  subst out. fold r in I1. fold s in I2. fold d in I3.
  pose proof (counter_in_int (store w) (minuteKey rl now)) as Jr.
  pose proof (counter_in_int (store w) (minuteTokenKey rl now)) as Js.
  pose proof (counter_in_int (store w) (dayKey rl now)) as Jd.
  fold r in Jr. fold s in Js. fold d in Jd.
  unfold isCost in HA, HB.
  assert (GoInt.in_int (r + 1) ∧ GoInt.in_int (s + tokensA) ∧
          GoInt.in_int (s + tokensB) ∧ GoInt.in_int (d + 1)) as (J1 & J2 & J3 & J4).
  { unfold GoInt.in_int, GoInt.min_int, GoInt.max_int in *. lia. }
  assert (writable (store w) (minuteKey rl now) 1 ∧
          writable (store w) (minuteTokenKey rl now) tokensA ∧
          writable (store w) (dayKey rl now) 1) as (W1 & W2 & W3).
  { unfold writable. fold r s d. done. }
  unfold overlapping, bind.
  (* caller A reads and checks *)
  rewrite readAndCheck_pass; [| apply Hquiet | done | fold now s; by rewrite add_exact
                              | done ].
  fold now r s d.
  (* caller B reads and checks, on the same counts *)
  set (w1 := after w 1 _ _).
  destruct (sameWindows_keys rl (clock w1) now (ticks w1) Hsame) as (K1 & K2 & K3).
  rewrite readAndCheck_pass;
    [| apply Hquiet | rewrite K1; exact Hr
     | rewrite K2; fold s; by rewrite add_exact | rewrite K3; exact Hd ].
  rewrite K1, K2, K3. fold r s d.
  set (nowB := clock w1 (ticks w1)). set (w2 := after w1 1 _ _).
  (* caller A writes *)
  cbn [conclude]. rewrite increment_ok; [| apply Hquiet | done ..].
  set (w3 := after w2 2 _ _).
  (* caller B writes *)
  assert (store w3 = written rl now tokensA (store w)) as Hst by reflexivity.
  destruct (written_counters rl now tokensA (store w) W1 W2 W3) as (D1 & D2 & D3).
  destruct (canonical_written rl now tokensA (store w) W1 W2 W3) as (E1 & E2 & E3).
  fold r s d in D1, D2, D3.
  assert (writable (store w3) (minuteKey rl now) 1 ∧
          writable (store w3) (minuteTokenKey rl now) tokensB ∧
          writable (store w3) (dayKey rl now) 1) as (V1 & V2 & V3).
  { rewrite Hst. unfold canonical in E1, E2, E3.
    unfold writable. rewrite D1, D2, D3 in *.
    replace (r + 1 + 1) with (r + 2) by lia.
    replace (s + tokensA + tokensB) with (s + (tokensA + tokensB)) by lia.
    replace (d + 1 + 1) with (d + 2) by lia. done. }
  rewrite increment_ok;
    [| apply Hquiet | subst nowB; by rewrite K1 | subst nowB; by rewrite K2
     | subst nowB; by rewrite K3 ].
  rewrite (written_same_windows rl now nowB tokensB (store w3) K1 K2 K3).
  destruct (written_counters rl now tokensB (store w3) V1 V2 V3) as (F1 & F2 & F3).
  cbn [fst snd ret after store Allowed CurrentRequests CurrentTokens CurrentDayReqs].
  rewrite !add_exact by done.
  eexists _, _. split; [reflexivity |].
  cbn [Allowed CurrentRequests CurrentTokens CurrentDayReqs].
  rewrite F1, F2, F3, Hst, D1, D2, D3.
  repeat split; lia.
Qed.

Lemma overlapping_calls_pass_a_ceiling_together_witness :
  ∃ resA resB,
    (overlapping (New (mkConfig 2 1000 100)) 10 10
       (exampleWorld (exampleStore "1" "0" "1"))).1 = (Ok resA, Ok resB) ∧
    Allowed resA = true ∧ Allowed resB = true ∧
    CurrentRequests resA = 2 ∧ CurrentRequests resB = 2 ∧
    counter (store (overlapping (New (mkConfig 2 1000 100)) 10 10
                      (exampleWorld (exampleStore "1" "0" "1"))).2)
      "gemini:ratelimit:minute:2024-11-25:23:30" = 3.
Proof.
  pose proof (overlapping_calls_pass_a_ceiling_together
                (New (mkConfig 2 1000 100)) 10 10
                (exampleWorld (exampleStore "1" "0" "1"))) as H.
  cbv zeta in H.
  feed H ltac:(intros i; split; reflexivity).
  feed H ltac:(intros i; reflexivity).
  do 9 feed H ltac:(crunch).
  destruct H as (_ & resA & resB & E & HA & HB & R1 & R2 & _ & _ & C1 & _).
  assert (minuteKey (New (mkConfig 2 1000 100))
            (clock (exampleWorld (exampleStore "1" "0" "1"))
               (ticks (exampleWorld (exampleStore "1" "0" "1"))))
          = "gemini:ratelimit:minute:2024-11-25:23:30") as K1
    by (vm_compute; reflexivity).
  rewrite K1 in R1, R2, C1.
  assert (counter (store (exampleWorld (exampleStore "1" "0" "1")))
            "gemini:ratelimit:minute:2024-11-25:23:30" = 1) as C0
    by (vm_compute; reflexivity).
  rewrite C0 in R1, R2, C1.
  exists resA, resB. repeat split; done.
Defined.

(** * The file cache: properties *)

(** ** [md5] on the test suite of RFC 1321 *)

Example md5_examples :
  md5 "" = "d41d8cd98f00b204e9800998ecf8427e" ∧
  md5 "a" = "0cc175b9c0f1b6a831c399e269772661" ∧
  md5 "abc" = "900150983cd24fb0d6963f7d28e17f72" ∧
  md5 "message digest" = "f96b697d7cb7938d525a2f31aaf161d0" ∧
  md5 "abcdefghijklmnopqrstuvwxyz" = "c3fcd3d76192e4007dfb496cca67e13b" ∧
  md5 "ABCDEFGHIJKLMNOPQRSTUVWXYZabcdefghijklmnopqrstuvwxyz0123456789"
    = "d174ab98d277d9f5a5611c2c9f419d9f" ∧
  md5 ("1234567890123456789012345678901234567890"
       +:+ "1234567890123456789012345678901234567890")
    = "57edf4a22be3c955ac49da2e2107b67a".
Proof. vm_compute. repeat split. Qed.

Example FileCache_examples :
  FileCache.getFilePath exampleCache "user:42"
    = "/tmp/cache/56/56dadf1868c3ba340467c942a86c29de.cache" ∧
  (FileCache.construct "/tmp/cache//" exampleSys).1 = exampleCache ∧
  map dirname ["/a/b/c.txt"; "/a/b/"; "a//b//"; "a"; "/a"; "/"; ""]
    = ["/a/b"; "/a"; "a"; "."; "/"; "/"; ""].
Proof. vm_compute. repeat split. Qed.

(** ** Strings as lists of bytes *)

Lemma list_ascii_of_string_app s t :
  list_ascii_of_string (s +:+ t)
  = (list_ascii_of_string s ++ list_ascii_of_string t)%list.
Proof.
  induction s as [| c s IH]; [done |].
  rewrite append_String. cbn [list_ascii_of_string app]. by rewrite IH.
Qed.

Lemma string_of_list_ascii_app l r :
  string_of_list_ascii (l ++ r)
  = string_of_list_ascii l +:+ string_of_list_ascii r.
Proof.
  induction l as [| c l IH]; [done |].
  cbn [string_of_list_ascii app]. by rewrite append_String, IH.
Qed.

Lemma drop_while_head {A} (p : A → bool) x l :
  p x = false → drop_while p (x :: l) = x :: l.
Proof. intros H. cbn. by rewrite H. Qed.

Lemma drop_while_skip {A} (p : A → bool) x l :
  p x = true → drop_while p (x :: l) = drop_while p l.
Proof. intros H. cbn. by rewrite H. Qed.

Lemma drop_while_app {A} (p : A → bool) l r :
  Forall (λ x, p x = true) l → drop_while p (l ++ r) = drop_while p r.
Proof.
  induction 1 as [| x l Hx _ IH]; [done |]. cbn. by rewrite Hx.
Qed.

Lemma noSlash_rev l : noSlash l → noSlash (rev l).
Proof. apply List.Forall_rev. Qed.

Lemma noSlash_negb l : noSlash l → Forall (λ c, negb (is_slash c) = true) l.
Proof. intros H. eapply Forall_impl; [exact H |]. by intros c ->. Qed.

(** [dirname] of a path that ends in two plain components. *)
Lemma dirname_join d x f :
  x ≠ [] → f ≠ [] → noSlash x → noSlash f →
  dirname (string_of_list_ascii (d ++ "/"%char :: x ++ "/"%char :: f))
  = string_of_list_ascii (d ++ "/"%char :: x).
Proof.
  intros Hx Hf Nx Nf. unfold dirname.
  rewrite list_ascii_of_string_of_list_ascii.
  destruct (d ++ "/"%char :: x ++ "/"%char :: f)%list as [| c0 cs] eqn:E.
  { by destruct d. }
  rewrite <- E. clear E c0 cs.
  assert (rev (d ++ "/"%char :: x ++ "/"%char :: f)
          = (rev f ++ "/"%char :: rev x ++ "/"%char :: rev d)%list) as ->.
  { rewrite rev_app_distr. cbn [rev]. rewrite rev_app_distr. cbn [rev].
    by rewrite <- !app_assoc. }
  destruct (rev f) as [| f0 fs] eqn:Ef.
  { apply (f_equal (@rev _)) in Ef. rewrite rev_involutive in Ef. done. }
  pose proof (noSlash_rev _ Nf) as Nrf. rewrite Ef in Nrf.
  cbn [app]. rewrite drop_while_head by (by inversion Nrf).
  change (f0 :: (fs ++ "/"%char :: rev x ++ "/"%char :: rev d))%list
    with ((f0 :: fs) ++ "/"%char :: rev x ++ "/"%char :: rev d)%list.
  rewrite drop_while_app by (by apply noSlash_negb).
  rewrite drop_while_head by done.
  destruct (rev x) as [| x0 xs] eqn:Ex.
  { apply (f_equal (@rev _)) in Ex. rewrite rev_involutive in Ex. done. }
  pose proof (noSlash_rev _ Nx) as Nrx. rewrite Ex in Nrx.
  cbn [app]. rewrite drop_while_skip by done.
  rewrite drop_while_head by (by inversion Nrx).
  f_equal.
  assert (x = rev (x0 :: xs)) as -> by (by rewrite <- Ex, rev_involutive).
  change (x0 :: xs ++ "/"%char :: rev d)%list
    with ((x0 :: xs) ++ ["/"%char] ++ rev d)%list.
  rewrite !rev_app_distr, rev_involutive. cbn [rev app].
  by rewrite <- !app_assoc.
Qed.

(** ** The shape of [md5] and of the paths *)

Lemma hexdigit_noSlash d : 0 <= d < 16 → is_slash (MD5.hexdigit d) = false.
Proof.
  intros Hd.
  assert (∃ n : nat, d = Z.of_nat n ∧ (n < 16)%nat) as (n & -> & Hn).
  { exists (Z.to_nat d). lia. }
  do 16 (destruct n as [| n]; [reflexivity |]). lia.
Qed.

Lemma hex_chars bs :
  Forall (λ b, 0 <= b < 256) bs →
  noSlash (bs ≫= λ b, [MD5.hexdigit (b / 16); MD5.hexdigit (b mod 16)]) ∧
  length (bs ≫= λ b, [MD5.hexdigit (b / 16); MD5.hexdigit (b mod 16)])
    = (2 * length bs)%nat.
Proof.
  induction 1 as [| b bs Hb _ [IH1 IH2]]; [by split; [constructor |] |].
  cbn [mbind list_bind app length]. split.
  - constructor; [apply hexdigit_noSlash; Z.div_mod_to_equations; lia |].
    constructor; [apply hexdigit_noSlash; Z.div_mod_to_equations; lia |].
    exact IH1.
  - cbn [length]. rewrite IH2. lia.
Qed.

Lemma bytes_of_spec n x :
  length (MD5.bytes_of n x) = n ∧ Forall (λ b, 0 <= b < 256) (MD5.bytes_of n x).
Proof.
  unfold MD5.bytes_of. split.
  - by rewrite length_fmap, length_seq.
  - apply Forall_fmap, Forall_forall. intros i _. cbn. apply Z.mod_pos_bound. lia.
Qed.

Lemma digest_spec msg :
  length (MD5.digest msg) = 16%nat ∧ Forall (λ b, 0 <= b < 256) (MD5.digest msg).
Proof.
  unfold MD5.digest. cbv zeta.
  destruct (MD5.blocks _ _ _) as [[[a b] c] d].
  destruct (bytes_of_spec 4 a) as [La Fa], (bytes_of_spec 4 b) as [Lb Fb],
           (bytes_of_spec 4 c) as [Lc Fc], (bytes_of_spec 4 d) as [Ld Fd].
  split.
  - rewrite !length_app, La, Lb, Lc, Ld. reflexivity.
  - repeat (apply Forall_app; split); done.
Qed.

(** [md5] returns 32 bytes, none of them a slash. *)
Lemma md5_chars key :
  ∃ a b l, md5 key = String a (String b (string_of_list_ascii l)) ∧
           length l = 30%nat ∧ noSlash (a :: b :: l).
Proof.
  unfold md5, MD5.hex.
  destruct (digest_spec ((λ c, Z.of_N (N_of_ascii c)) <$> list_ascii_of_string key))
    as [L F].
  destruct (hex_chars _ F) as [N Lh]. rewrite L in Lh.
  destruct (_ ≫= _) as [| a [| b l]]; [discriminate Lh .. |].
  exists a, b, l. split; [reflexivity |]. split; [| exact N].
  cbn [length] in Lh. lia.
Qed.

Lemma substring_2 a b r :
  substring 0 2 (String a (String b r)) = String a (String b "").
Proof. destruct r; reflexivity. Qed.

Lemma noSlash_cache : noSlash (list_ascii_of_string ".cache").
Proof. repeat constructor. Qed.

(** A cache file lies in the subdirectory of [cacheDir] named after the
    first two digits of its hash. *)
Lemma dirname_getFilePath this key :
  dirname (FileCache.getFilePath this key)
  = FileCache.cacheDir this +:+ "/" +:+ substring 0 2 (md5 key).
Proof.
  unfold FileCache.getFilePath. cbv zeta.
  destruct (md5_chars key) as (a & b & l & -> & Ll & Nl).
  rewrite substring_2.
  rewrite <- (string_of_list_ascii_of_string (FileCache.cacheDir this)).
  set (d := list_ascii_of_string (FileCache.cacheDir this)).
  assert (string_of_list_ascii d +:+ "/" +:+ String a (String b "") +:+ "/"
            +:+ String a (String b (string_of_list_ascii l)) +:+ ".cache"
          = string_of_list_ascii
              (d ++ "/"%char :: [a; b] ++ "/"%char
                 :: (a :: b :: l ++ list_ascii_of_string ".cache"))) as ->.
  { rewrite string_of_list_ascii_app. f_equal.
    cbn [string_of_list_ascii app]. rewrite !append_String, append_nil.
    do 6 f_equal. rewrite string_of_list_ascii_app. reflexivity. }
  rewrite dirname_join.
  - rewrite string_of_list_ascii_app. reflexivity.
  - done.
  - done.
  - inversion Nl as [| ? ? Ha Nl']. inversion Nl' as [| ? ? Hb _].
    by repeat constructor.
  - change (a :: b :: l ++ list_ascii_of_string ".cache")%list
      with ((a :: b :: l) ++ list_ascii_of_string ".cache")%list.
    apply Forall_app. split; [exact Nl | apply noSlash_cache].
Qed.

Lemma getFilePath_shape this key :
  ∃ a b l,
    md5 key = String a (String b (string_of_list_ascii l)) ∧
    length l = 30%nat ∧
    FileCache.getFilePath this key
    = FileCache.cacheDir this +:+ "/" +:+ String a (String b "") +:+ "/"
        +:+ String a (String b (string_of_list_ascii l)) +:+ ".cache".
Proof.
  destruct (md5_chars key) as (a & b & l & E & Ll & _).
  exists a, b, l. split; [exact E |]. split; [exact Ll |].
  unfold FileCache.getFilePath. cbv zeta. by rewrite E, substring_2.
Qed.

Lemma getFilePath_ne_dirname this k1 k2 :
  FileCache.getFilePath this k1 ≠ dirname (FileCache.getFilePath this k2).
Proof.
  rewrite dirname_getFilePath.
  destruct (getFilePath_shape this k1) as (a1 & b1 & l1 & _ & _ & ->).
  destruct (md5_chars k2) as (a2 & b2 & l2 & -> & _ & _).
  rewrite substring_2. intros H. apply String.app_inj in H.
  rewrite !append_String, !append_nil in H. discriminate H.
Qed.

Lemma dirname_getFilePath_ne_empty this key :
  dirname (FileCache.getFilePath this key) ≠ "".
Proof.
  rewrite dirname_getFilePath. destruct (FileCache.cacheDir this); discriminate.
Qed.

Lemma app_inv_tail_string s t u : s +:+ u = t +:+ u → s = t.
Proof.
  intros H. apply (f_equal list_ascii_of_string) in H.
  rewrite !list_ascii_of_string_app in H. apply app_inv_tail in H.
  rewrite <- (string_of_list_ascii_of_string s),
          <- (string_of_list_ascii_of_string t). by rewrite H.
Qed.

(** Two keys have the same file exactly when they have the same hash. *)
Lemma getFilePath_inj this k1 k2 :
  FileCache.getFilePath this k1 = FileCache.getFilePath this k2 →
  md5 k1 = md5 k2.
Proof.
  destruct (getFilePath_shape this k1) as (a1 & b1 & l1 & -> & _ & ->).
  destruct (getFilePath_shape this k2) as (a2 & b2 & l2 & -> & _ & ->).
  intros H. apply String.app_inj in H.
  rewrite !append_String, !append_nil in H.
  injection H. intros Ht. intros. subst.
  apply app_inv_tail_string in Ht. by rewrite Ht.
Qed.

(** ** The methods, path by path *)

Lemma set_settable this key v ttl s :
  settable this key s →
  FileCache.set this key v ttl s =
  (true,
   PHP.mkSys
     (<[FileCache.getFilePath this key :=
          PHP.File (PHP.Serialized
            (PHP.mkData v (expiry (PHP.clock s (PHP.ticks s)) ttl)
               (PHP.clock s (if 0 <? ttl then S (PHP.ticks s) else PHP.ticks s))))]>
      (<[dirname (FileCache.getFilePath this key) := PHP.Dir]> (PHP.disk s)))
     (PHP.clock s)
     (if 0 <? ttl then S (S (PHP.ticks s)) else S (PHP.ticks s))).
Proof.
  intros [Hdir Hfile]. unfold FileCache.set. cbv zeta.
  set (file := FileCache.getFilePath this key) in *.
  set (dir := dirname file) in *.
  assert (file ≠ dir) as Hne by apply getFilePath_ne_dirname.
  assert (dir ≠ "") as Hdne by apply dirname_getFilePath_ne_empty.
  assert ((if PHP.is_dir dir s then s else (PHP.mkdir dir s).2)
          = PHP.with_disk (<[dir := PHP.Dir]> (PHP.disk s)) s) as ->.
  { unfold PHP.is_dir, PHP.mkdir. apply String.eqb_neq in Hdne. rewrite Hdne.
    destruct (PHP.disk s !! dir) as [[| c] |] eqn:E.
    - rewrite insert_id by done. by destruct s.
    - by destruct (Hdir c).
    - reflexivity. }
  unfold expiry.
  destruct (0 <? ttl); unfold PHP.time, PHP.file_put_contents, PHP.is_dir, PHP.with_disk;
    cbn [PHP.disk PHP.clock PHP.ticks].
  all: fold dir; rewrite lookup_insert_ne, lookup_insert_eq by done.
  all: destruct (PHP.disk s !! file) as [[| c] |] eqn:E; try done.
Qed.

Lemma stored_Some this key s data :
  stored this key s = Some data ↔
  PHP.disk s !! FileCache.getFilePath this key
    = Some (PHP.File (PHP.Serialized data)).
Proof.
  unfold stored. destruct (PHP.disk s !! _) as [[| [d |]] |]; cbn; split;
    intros H; by simplify_eq.
Qed.

(** A miss that is no expiry: nothing is read from the clock, nothing
    changes on the disk. *)
Lemma get_miss this key s :
  stored this key s = None → FileCache.get this key s = (None, s).
Proof.
  unfold stored, FileCache.get. cbv zeta.
  destruct (PHP.disk s !! _) as [n |]; [| done]. cbn.
  by destruct (PHP.unserialize (PHP.contents n)).
Qed.

Lemma get_stored this key s data :
  stored this key s = Some data →
  FileCache.get this key s =
  match PHP.expires_at data with
  | PHP.Never => (Some (PHP.value data), s)
  | e =>
      if PHP.lt e (PHP.clock s (PHP.ticks s))
      then (None,
            PHP.mkSys (base.delete (FileCache.getFilePath this key) (PHP.disk s))
                      (PHP.clock s) (S (PHP.ticks s)))
      else (Some (PHP.value data), tick s)
  end.
Proof.
  intros H. apply stored_Some in H. unfold FileCache.get. cbv zeta.
  rewrite H. cbn [PHP.contents PHP.unserialize].
  destruct (PHP.expires_at data) as [| t |]; [done | | done].
  unfold PHP.time. destruct (PHP.lt _ _); [| done].
  unfold FileCache.delete, PHP.file_exists, PHP.unlink. cbv zeta.
  cbn [PHP.disk]. by rewrite H.
Qed.

Lemma stored_after_set this key v ttl s :
  settable this key s →
  stored this key (FileCache.set this key v ttl s).2
  = Some (PHP.mkData v (expiry (PHP.clock s (PHP.ticks s)) ttl)
            (PHP.clock s (if 0 <? ttl then S (PHP.ticks s) else PHP.ticks s))).
Proof.
  intros H. rewrite set_settable by done. apply stored_Some.
  cbn [snd PHP.disk]. apply lookup_insert_eq.
Qed.

(** ** Storing and reading back *)

(** X17.  An entry lives until its expiry, and that second included.
    After [set] with a positive [$ttl] on a cache that can write the file,
    a [get] at any later state of the same disk returns the value as long
    as the clock has not passed the time of the [set] plus [$ttl]; once it
    has, [get] returns [null] and removes the file.  [has] agrees. *)
Theorem entry_lives_until_its_expiry this key v ttl s s' :
  settable this key s →
  0 < ttl →
  PHP.clock s (PHP.ticks s) + ttl <= PHP.PHP_INT_MAX →
  PHP.disk s' = PHP.disk (FileCache.set this key v ttl s).2 →
  let expires := PHP.clock s (PHP.ticks s) + ttl in
  let now := PHP.clock s' (PHP.ticks s') in
  (FileCache.set this key v ttl s).1 = true ∧
  (now <= expires →
     FileCache.get this key s' = (Some v, tick s') ∧
     (FileCache.has this key s').1 = true) ∧
  (expires < now →
     (FileCache.get this key s').1 = None ∧
     (FileCache.has this key s').1 = false ∧
     PHP.disk (FileCache.get this key s').2 !! FileCache.getFilePath this key
       = None).
Proof.
  intros Hset Httl Hmax Hdisk expires now.
  pose proof (stored_after_set this key v ttl s Hset) as Hst.
  assert (stored this key s' = Some (PHP.mkData v (PHP.At expires)
            (PHP.clock s (S (PHP.ticks s))))) as Hst'.
  { unfold stored in *. rewrite Hdisk, Hst. unfold expiry.
    rewrite (proj2 (Z.ltb_lt 0 ttl) Httl), (proj2 (Z.leb_le _ _) Hmax). done. }
  split; [by rewrite set_settable |].
  unfold FileCache.has. rewrite (get_stored _ _ _ _ Hst').
  cbn [PHP.expires_at PHP.lt PHP.value]. fold now. split.
  - intros Hnow. rewrite (proj2 (Z.ltb_ge expires now)) by lia. done.
  - intros Hnow. rewrite (proj2 (Z.ltb_lt expires now)) by lia.
    cbn [fst snd PHP.disk]. repeat split; try done. apply lookup_delete_eq.
Qed.

Lemma exampleCache_settable key : settable exampleCache key exampleSys.
Proof. split; [intros c |]; cbn [exampleSys PHP.disk]; by rewrite lookup_empty. Qed.

Lemma entry_lives_until_its_expiry_witness :
  FileCache.get exampleCache "user:42"
    (at_time 1060
       (PHP.disk (FileCache.set exampleCache "user:42" "alice" 60 exampleSys).2))
  = (Some "alice",
     tick (at_time 1060
       (PHP.disk (FileCache.set exampleCache "user:42" "alice" 60 exampleSys).2))).
Proof.
  pose proof (entry_lives_until_its_expiry exampleCache "user:42" "alice" 60
                exampleSys
                (at_time 1060
                   (PHP.disk (FileCache.set exampleCache "user:42" "alice" 60
                                exampleSys).2))) as H.
  cbv zeta in H.
  specialize (H (exampleCache_settable _)).
  assert (0 < 60) as H1 by lia. specialize (H H1).
  assert (PHP.clock exampleSys (PHP.ticks exampleSys) + 60 <= PHP.PHP_INT_MAX) as H2
    by (vm_compute; discriminate).
  specialize (H H2 eq_refl).
  destruct H as (_ & H & _). apply H. vm_compute. discriminate.
Defined.

(** X18.  A [$ttl] of zero or less means no expiry: whatever the clock
    says afterwards, [get] returns the value, without reading the clock
    and without touching the disk. *)
Theorem entry_without_ttl_never_expires this key v ttl s s' :
  settable this key s →
  ttl <= 0 →
  PHP.disk s' = PHP.disk (FileCache.set this key v ttl s).2 →
  FileCache.get this key s' = (Some v, s') ∧
  FileCache.has this key s' = (true, s').
Proof.
  intros Hset Httl Hdisk.
  pose proof (stored_after_set this key v ttl s Hset) as Hst.
  assert (stored this key s' = Some (PHP.mkData v PHP.Never
            (PHP.clock s (PHP.ticks s)))) as Hst'.
  { unfold stored in *. rewrite Hdisk, Hst. unfold expiry.
    rewrite (proj2 (Z.ltb_ge 0 ttl) Httl). done. }
  unfold FileCache.has. by rewrite (get_stored _ _ _ _ Hst').
Qed.

Lemma entry_without_ttl_never_expires_witness :
  FileCache.get exampleCache "user:42"
    (at_time (2 ^ 62)
       (PHP.disk (FileCache.set exampleCache "user:42" "alice" 0 exampleSys).2))
  = (Some "alice",
     at_time (2 ^ 62)
       (PHP.disk (FileCache.set exampleCache "user:42" "alice" 0 exampleSys).2)).
Proof.
  apply (entry_without_ttl_never_expires exampleCache "user:42" "alice" 0
           exampleSys).
  - apply exampleCache_settable.
  - lia.
  - reflexivity.
Defined.

(** X19.  A [$ttl] so large that the time of the [set] plus [$ttl] leaves
    the range of PHP's [int] makes [expires_at] a [float] above every
    [int]: the entry never expires either, though [get] now reads the
    clock. *)
Theorem ttl_past_the_int_range_never_expires this key v ttl s s' :
  settable this key s →
  0 < ttl →
  PHP.PHP_INT_MAX < PHP.clock s (PHP.ticks s) + ttl →
  PHP.disk s' = PHP.disk (FileCache.set this key v ttl s).2 →
  FileCache.get this key s' = (Some v, tick s').
Proof.
  intros Hset Httl Hmax Hdisk.
  pose proof (stored_after_set this key v ttl s Hset) as Hst.
  assert (stored this key s' = Some (PHP.mkData v PHP.Beyond
            (PHP.clock s (S (PHP.ticks s))))) as Hst'.
  { unfold stored in *. rewrite Hdisk, Hst. unfold expiry.
    rewrite (proj2 (Z.ltb_lt 0 ttl) Httl), (proj2 (Z.leb_gt _ _) Hmax). done. }
  by rewrite (get_stored _ _ _ _ Hst').
Qed.

Lemma ttl_past_the_int_range_never_expires_witness :
  (FileCache.get exampleCache "user:42"
     (at_time (2 ^ 62)
        (PHP.disk (FileCache.set exampleCache "user:42" "alice" (2 ^ 63 - 1)
                     exampleSys).2))).1
  = Some "alice".
Proof.
  rewrite (ttl_past_the_int_range_never_expires exampleCache "user:42" "alice"
             (2 ^ 63 - 1) exampleSys).
  - reflexivity.
  - apply exampleCache_settable.
  - lia.
  - vm_compute. reflexivity.
  - reflexivity.
Defined.

(** ** When [set] cannot write *)

Lemma set_not_settable this key v ttl s :
  ¬ settable this key s →
  (FileCache.set this key v ttl s).1 = false ∧
  ∀ k, stored this k (FileCache.set this key v ttl s).2 = stored this k s.
Proof.
  intros Hn. unfold FileCache.set. cbv zeta.
  set (file := FileCache.getFilePath this key) in *.
  set (dir := dirname file) in *.
  assert (file ≠ dir) as Hne by apply getFilePath_ne_dirname.
  assert (dir ≠ "") as Hdne by apply dirname_getFilePath_ne_empty.
  apply String.eqb_neq in Hdne.
  assert (∀ k, FileCache.getFilePath this k ≠ dir) as Hk
    by (intros k; apply getFilePath_ne_dirname).
  assert ((if PHP.is_dir dir s then s else (PHP.mkdir dir s).2)
          = match PHP.disk s !! dir with
            | None => PHP.with_disk (<[dir := PHP.Dir]> (PHP.disk s)) s
            | Some _ => s
            end) as ->.
  { unfold PHP.is_dir, PHP.mkdir. rewrite Hdne.
    by destruct (PHP.disk s !! dir) as [[| c] |]. }
  destruct (PHP.disk s !! dir) as [[| c] |] eqn:Ed.
  - (* the directory is there: the file's place is taken by a directory *)
    assert (PHP.disk s !! file = Some PHP.Dir) as Ef.
    { destruct (PHP.disk s !! file) as [[| c] |] eqn:Ef; [done | |];
        exfalso; apply Hn; split; unfold dir in *; fold file; congruence. }
    destruct (0 <? ttl); unfold PHP.time, PHP.file_put_contents;
      cbn [PHP.disk PHP.clock PHP.ticks fst snd]; rewrite Ef; by split.
  - (* a regular file sits where the directory goes *)
    destruct (0 <? ttl); unfold PHP.time, PHP.file_put_contents, PHP.is_dir;
      cbn [PHP.disk PHP.clock PHP.ticks fst snd]; fold dir; rewrite Ed;
      by destruct (PHP.disk s !! file) as [[| c'] |].
  - assert (PHP.disk s !! file = Some PHP.Dir) as Ef.
    { destruct (PHP.disk s !! file) as [[| c] |] eqn:Ef; [done | |];
        exfalso; apply Hn; split; unfold dir in *; fold file; congruence. }
    destruct (0 <? ttl);
      unfold PHP.time, PHP.file_put_contents, PHP.with_disk;
      cbn [PHP.disk PHP.clock PHP.ticks fst snd];
      rewrite lookup_insert_ne, Ef by done; (split; [done |]);
      intros k; unfold stored; cbn [snd PHP.disk];
      by rewrite lookup_insert_ne.
Qed.

Lemma settable_dec this key s : settable this key s ∨ ¬ settable this key s.
Proof.
  unfold settable.
  destruct (PHP.disk s !! dirname _) as [[| c] |] eqn:Ed;
    destruct (PHP.disk s !! FileCache.getFilePath this key) as [[| c'] |] eqn:Ef;
    try (left; split; [intros c0 |]; congruence);
    right; intros [H1 H2]; try (by apply H2); by apply (H1 c).
Qed.


(** ** [delete] *)

Lemma delete_spec this key s :
  FileCache.delete this key s =
  match PHP.disk s !! FileCache.getFilePath this key with
  | None => (true, s)
  | Some PHP.Dir => (false, s)
  | Some (PHP.File _) =>
      (true, PHP.with_disk
               (base.delete (FileCache.getFilePath this key) (PHP.disk s)) s)
  end.
Proof.
  unfold FileCache.delete, PHP.file_exists, PHP.unlink. cbv zeta.
  by destruct (PHP.disk s !! _) as [[| c] |].
Qed.

(** X21.  After a [delete] that returns [true] the key is a miss: the
    file is gone, [get] returns [null] and changes nothing.  [delete]
    returns [false] only when a directory sits in the place of the file,
    and deleting a key that is not there is a success that changes
    nothing. *)
Theorem deleted_key_is_a_miss this key s :
  let out := FileCache.delete this key s in
  (out.1 = false ↔
   PHP.disk s !! FileCache.getFilePath this key = Some PHP.Dir) ∧
  (out.1 = true →
   PHP.disk out.2 !! FileCache.getFilePath this key = None ∧
   FileCache.get this key out.2 = (None, out.2) ∧
   FileCache.has this key out.2 = (false, out.2)) ∧
  (PHP.disk s !! FileCache.getFilePath this key = None → out = (true, s)).
Proof.
  intros out. subst out. rewrite delete_spec.
  destruct (PHP.disk s !! FileCache.getFilePath this key) as [[| c] |] eqn:E;
    cbn [fst snd].
  - repeat split; done.
  - split; [split; discriminate |]. split; [| discriminate]. intros _.
    assert (PHP.disk (PHP.with_disk
              (base.delete (FileCache.getFilePath this key) (PHP.disk s)) s)
              !! FileCache.getFilePath this key = None) as Hgone
      by apply lookup_delete_eq.
    split; [exact Hgone |]. unfold FileCache.has.
    rewrite get_miss; [done |]. unfold stored. by rewrite Hgone.
  - split; [split; discriminate |]. split; [| done]. intros _.
    split; [exact E |]. unfold FileCache.has.
    rewrite get_miss; [done |]. unfold stored. by rewrite E.
Qed.

(** ** Keys and hashes *)

(** X22.  The cache knows a key by its MD5 only: what is stored under one
    key is read back under every key with the same hash. *)
Theorem keys_with_one_md5_are_one_entry this k1 k2 v ttl s :
  md5 k1 = md5 k2 →
  settable this k1 s →
  ttl <= 0 →
  FileCache.get this k2 (FileCache.set this k1 v ttl s).2
  = (Some v, (FileCache.set this k1 v ttl s).2).
Proof.
  intros Hmd5 Hset Httl.
  assert (FileCache.getFilePath this k2 = FileCache.getFilePath this k1) as Hp.
  { unfold FileCache.getFilePath. by rewrite Hmd5. }
  assert (FileCache.get this k2 = FileCache.get this k1) as ->.
  { unfold FileCache.get, FileCache.delete. by rewrite Hp. }
  pose proof (stored_after_set this k1 v ttl s Hset) as Hst.
  unfold expiry in Hst. rewrite (proj2 (Z.ltb_ge 0 ttl) Httl) in Hst.
  by rewrite (get_stored _ _ _ _ Hst).
Qed.

(** X23.  Keys with different MD5 do not touch each other: whatever
    [set], [get] (which may remove an expired file) and [delete] do for one
    key, the entry of the other is what it was. *)
Theorem keys_with_different_md5_are_apart this k1 k2 v ttl s :
  md5 k1 ≠ md5 k2 →
  stored this k2 (FileCache.set this k1 v ttl s).2 = stored this k2 s ∧
  stored this k2 (FileCache.get this k1 s).2 = stored this k2 s ∧
  stored this k2 (FileCache.delete this k1 s).2 = stored this k2 s.
Proof.
  intros Hmd5.
  assert (FileCache.getFilePath this k1 ≠ FileCache.getFilePath this k2) as Hp.
  { intros H. by apply getFilePath_inj in H. }
  assert (dirname (FileCache.getFilePath this k1) ≠ FileCache.getFilePath this k2)
    as Hd.
  { intros H. symmetry in H. by apply getFilePath_ne_dirname in H. }
  assert (stored this k2 (FileCache.delete this k1 s).2 = stored this k2 s) as Hdel.
  { rewrite delete_spec.
    destruct (PHP.disk s !! FileCache.getFilePath this k1) as [[| c] |]; try done.
    unfold stored. cbn [snd PHP.with_disk PHP.disk]. by rewrite lookup_delete_ne. }
  repeat split; [| | exact Hdel].
  - destruct (settable_dec this k1 s) as [H | H].
    + rewrite set_settable by done. unfold stored. cbn [snd PHP.disk].
      by rewrite !lookup_insert_ne.
    + by apply set_not_settable.
  - destruct (stored this k1 s) as [data |] eqn:E.
    + rewrite (get_stored _ _ _ _ E).
      destruct (PHP.expires_at data) as [| t |]; try done;
        destruct (PHP.lt _ _); try done.
      unfold stored. cbn [snd PHP.disk]. by rewrite lookup_delete_ne.
    + by rewrite get_miss.
Qed.

Lemma keys_with_one_md5_are_one_entry_witness :
  collisionA ≠ collisionB ∧
  FileCache.get exampleCache collisionB
    (FileCache.set exampleCache collisionA "alice" 0 exampleSys).2
  = (Some "alice", (FileCache.set exampleCache collisionA "alice" 0 exampleSys).2).
Proof.
  split.
  - intros H. vm_compute in H. discriminate H.
  - apply keys_with_one_md5_are_one_entry.
    + vm_compute. reflexivity.
    + apply exampleCache_settable.
    + lia.
Defined.

Lemma keys_with_different_md5_are_apart_witness :
  stored exampleCache "b"
    (FileCache.delete exampleCache "a"
       (FileCache.set exampleCache "b" "bob" 0 exampleSys).2).2
  = stored exampleCache "b" (FileCache.set exampleCache "b" "bob" 0 exampleSys).2.
Proof.
  apply (keys_with_different_md5_are_apart exampleCache "a" "b" "" 0).
  intros H. vm_compute in H. discriminate H.
Defined.

(** ** Misses *)

(** X24.  A miss that is no expiry changes nothing.  When the file of the
    key is not there, or holds bytes that do not unserialize, or is a
    directory, [get] returns [null] and [has] returns [false], without
    reading the clock and without removing anything. *)
Theorem a_miss_changes_nothing this key s :
  stored this key s = None →
  FileCache.get this key s = (None, s) ∧ FileCache.has this key s = (false, s).
Proof.
  intros H. unfold FileCache.has. by rewrite get_miss.
Qed.

Lemma a_miss_changes_nothing_witness :
  FileCache.get exampleCache "user:42"
    (at_time 0 (<[FileCache.getFilePath exampleCache "user:42"
                    := PHP.File PHP.Unreadable]> ∅))
  = (None,
     at_time 0 (<[FileCache.getFilePath exampleCache "user:42"
                    := PHP.File PHP.Unreadable]> ∅)).
Proof.
  apply a_miss_changes_nothing. unfold stored, at_time. cbn [PHP.disk].
  by rewrite lookup_insert_eq.
Defined.

(** ** The constructor *)





(** ** An invariant *)


